(** * calendar-card: the event-processing pipeline

    A shallow embedding of [processEvents] and [groupEventsByDay]
    (event-tools) and of the default-configuration table (defaults.js),
    with the properties the specification states about them.

    - Raw calendar events are JavaScript objects that the pipeline reads and
      writes through references, so they live in a store
      ([gmap loc RawEvent]) and arrays hold locations.
    - The ambient clock ([moment()]) and what can throw, the [RegExp]
      constructor and the read of a property of a missing [entity], are
      threaded through a small state-and-exception monad [M].
    - moment.js values are wall-clock instants in milliseconds.
    - [Array.prototype.sort] is supplied by the engine; the two ways shipped
      engines read the sign of a comparator are both modelled.
    - The [CalendarEvent] class is not among the sources; its getters are
      modelled from the specification. *)

From stdpp Require Import gmap strings list fin_maps sorting.
From Stdlib Require Import ZArith Lia Ascii.

Local Open Scope Z_scope.

(** ** JavaScript scalars *)

(** The values an [id], [uid] or [entity] property can hold after the
    payload went through JSON: [undefined] stands for an absent property.
    Numbers are kept to the integers, so there is no NaN. *)
Inductive jsval : Type :=
  | JUndefined
  | JNull
  | JBool (b : bool)
  | JNum (n : Z)
  | JStr (s : string).

#[global] Instance jsval_eq_dec : EqDecision jsval.
Proof. solve_decision. Defined.

#[global] Instance jsval_inhabited : Inhabited jsval := populate JUndefined.

(** ToBoolean. *)
Definition truthy (v : jsval) : bool :=
  match v with
  | JUndefined | JNull => false
  | JBool b => b
  | JNum n => negb (n =? 0)
  | JStr s => negb (String.eqb s "")
  end.

(** [a || b] *)
Definition js_or (a b : jsval) : jsval := if truthy a then a else b.

(** [a === b] on scalars. *)
Definition strict_eq (a b : jsval) : bool := bool_decide (a = b).

(** ToBoolean of a string-valued property that may be absent. *)
Definition truthy_string (s : string) : bool := negb (String.eqb s "").

Definition truthy_opt (o : option string) : bool :=
  match o with
  | Some s => truthy_string s
  | None => false
  end.

(** ** Arrays *)

Section array.
Context {A : Type}.

Fixpoint findIndex_from (p : A → bool) (l : list A) (i : Z) : Z :=
  match l with
  | [] => -1
  | x :: l' => if p x then i else findIndex_from p l' (i + 1)
  end.

(** [Array.prototype.findIndex]: the first index whose element satisfies
    the predicate, [-1] when there is none. *)
Definition findIndex (p : A → bool) (l : list A) : Z := findIndex_from p l 0.

(** [Array.prototype.find]. *)
Fixpoint array_find (p : A → bool) (l : list A) : option A :=
  match l with
  | [] => None
  | x :: l' => if p x then Some x else array_find p l'
  end.

Fixpoint array_filter_from (p : A → Z → bool) (l : list A) (i : Z) : list A :=
  match l with
  | [] => []
  | x :: l' =>
      if p x i then x :: array_filter_from p l' (i + 1)
      else array_filter_from p l' (i + 1)
  end.

(** [Array.prototype.filter] with the three-argument callback
    [(element, index, self)]. *)
Definition array_filter (p : A → Z → list A → bool) (self : list A) : list A :=
  array_filter_from (λ x i, p x i self) self 0.
End array.

(** ** Temporal values (moment) *)

(** A moment is a wall-clock instant, in milliseconds since the local epoch.
    The operations below are those of moment.js under a fixed UTC offset;
    invalid dates are not represented. *)
Definition moment : Type := Z.

Definition MINUTE : Z := 60000.
Definition HOUR : Z := 3600000.
Definition DAY : Z := 86400000.

(** [m.startOf('day')] *)
Definition startOf_day (m : moment) : moment := m - m `mod` DAY.
(** [m.add(n, 'days')] *)
Definition add_days (m : moment) (n : Z) : moment := m + n * DAY.
(** [a.isBefore(b)] *)
Definition isBefore (a b : moment) : bool := a <? b.
(** [a.isAfter(b)] *)
Definition isAfter (a b : moment) : bool := b <? a.
(** [a.diff(b, 'days')]: moment truncates the quotient towards zero. *)
Definition diff_days (a b : moment) : Z := (a - b) `quot` DAY.
(** [m.hour()] *)
Definition hour (m : moment) : Z := (m `mod` DAY) `div` HOUR.
(** [m.minutes()] *)
Definition minutes (m : moment) : Z := (m `mod` HOUR) `div` MINUTE.

(** *** [format('YYYY-MM-DD')] *)

Definition digit (n : Z) : ascii := ascii_of_nat (Z.to_nat (48 + n `mod` 10)).

Definition pad2 (n : Z) : string :=
  String (digit (n `div` 10)) (String (digit n) "").

Definition pad4 (n : Z) : string :=
  String (digit (n `div` 1000)) (String (digit (n `div` 100)) (pad2 n)).

(** Civil date of a day number counted from 1970-01-01 (proleptic
    Gregorian calendar). *)
Definition civil_from_days (z : Z) : Z * Z * Z :=
  let z := z + 719468 in
  let era := z `div` 146097 in
  let doe := z - era * 146097 in
  let yoe := (doe - doe `div` 1460 + doe `div` 36524 - doe `div` 146096) `div` 365 in
  let y := yoe + era * 400 in
  let doy := doe - (365 * yoe + yoe `div` 4 - yoe `div` 100) in
  let mp := (5 * doy + 2) `div` 153 in
  let d := doy - (153 * mp + 2) `div` 5 + 1 in
  let m := if mp <? 10 then mp + 3 else mp - 9 in
  (if m <=? 2 then y + 1 else y, m, d).

(** [m.format('YYYY-MM-DD')], for years 0 to 9999. *)
Definition format_YYYY_MM_DD (m : moment) : string :=
  let '(y, mo, d) := civil_from_days (m `div` DAY) in
  pad4 y +:+ "-" +:+ pad2 mo +:+ "-" +:+ pad2 d.

(** ** Configuration *)

(** An entry of [config.entities]: a bare entity id, or an object
    [{entity, name}]. *)
Inductive EntityDescriptor : Type :=
  | BareId (s : string)
  | Named (entity : jsval) (name : jsval).

#[global] Instance EntityDescriptor_eq_dec : EqDecision EntityDescriptor.
Proof. solve_decision. Defined.

(** [d.entity]: a string primitive has no such property. *)
Definition dot_entity (d : EntityDescriptor) : jsval :=
  match d with
  | BareId _ => JUndefined
  | Named e _ => e
  end.

Record Config : Type := {
  numberOfDays : Z;
  eventsLimit : Z;
  hidePastEvents : bool;
  startFromToday : bool;
  showMultiDay : bool;
  ignoreEventsExpression : string;
  ignoreEventsByLocationExpression : string;
  entities : list EntityDescriptor;
}.

(** ** Raw events and the store *)

(** A start or end as the source delivers it: an all-day date (a day
    number) or an absolute date-time. *)
Inductive RawDate : Type :=
  | AllDay (day : Z)
  | DateTime (at_ : moment).

Module Raw.
(** [originCalendar] distinguishes a property that is absent ([None])
    from one that was assigned, possibly [undefined] ([Some None]).
    [entity] is the descriptor the event was tagged with; [None] on an
    event that carries no [entity]. *)
Record t : Type := mk {
  id : jsval;
  uid : jsval;
  start : RawDate;
  end_ : RawDate;
  title : option string;
  location : option string;
  entity : option EntityDescriptor;
  originCalendar : option (option EntityDescriptor);
  addDays : option Z;
  daysLong : option Z;
}.

Definition with_originCalendar (r : t) (o : option EntityDescriptor) : t :=
  mk (id r) (uid r) (start r) (end_ r) (title r) (location r) (entity r)
     (Some o) (addDays r) (daysLong r).

(** [JSON.parse(JSON.stringify(r))]: a property whose value is
    [undefined] is not serialised. *)
Definition JSON_copy (r : t) : t :=
  mk (id r) (uid r) (start r) (end_ r) (title r) (location r) (entity r)
     (match originCalendar r with
      | Some (Some d) => Some (Some d)
      | _ => None
      end)
     (addDays r) (daysLong r).

Definition with_addDays (r : t) (i n : Z) : t :=
  mk (id r) (uid r) (start r) (end_ r) (title r) (location r) (entity r)
     (originCalendar r) (Some i) (Some n).
End Raw.

Abbreviation RawEvent := Raw.t.

#[global] Instance RawEvent_inhabited : Inhabited RawEvent :=
  populate (Raw.mk JUndefined JUndefined (DateTime 0) (DateTime 0) None None
                   None None None None).

Definition loc : Type := nat.

(** The store of raw event objects.  An array of raw events is a list of
    locations; a location held by an array always denotes a live object, so
    [h !!! l] never falls back on its default for a well-formed input. *)
Abbreviation heap := (gmap loc RawEvent).

(** ** Deduplicator (processEvents, head) *)

(** [e.id || e.uid], the key the search callback computes for [e]. *)
Definition id_or_uid (h : heap) (e : loc) : jsval :=
  js_or (Raw.id (h !!! e)) (Raw.uid (h !!! e)).

(** [event.uid || event.id], the key computed for the event under test:
    the deduplication key of the specification. *)
Definition uid_or_id (h : heap) (event : loc) : jsval :=
  js_or (Raw.uid (h !!! event)) (Raw.id (h !!! event)).

Definition uniqueEvents (h : heap) (allEvents : list loc) : list loc :=
  array_filter
    (λ event index self,
       index =? findIndex (λ e, strict_eq (id_or_uid h e) (uid_or_id h event)) self)
    allEvents.

(** ** Event Normalizer (CalendarEvent) *)

(** Modelled from the spec: the [CalendarEvent] class (calendar-event.js) is
    not part of the sources at hand.  A canonical event wraps a reference to
    its raw record; its start and end are the raw instants (an all-day date
    resolves to that day's midnight), shifted by [addDays] days on a
    synthetic occurrence; [isMultiDay] holds when the end falls on another
    calendar date than the start. *)
Record CalendarEvent : Type := new_CalendarEvent { rawEvent : loc }.

#[global] Instance CalendarEvent_eq_dec : EqDecision CalendarEvent.
Proof. solve_decision. Defined.

Definition resolve (d : RawDate) : moment :=
  match d with
  | AllDay day => day * DAY
  | DateTime t => t
  end.

Definition shifted (r : RawEvent) (m : moment) : moment :=
  match Raw.addDays r with
  | Some i => add_days m i
  | None => m
  end.

Definition startDateTime (h : heap) (e : CalendarEvent) : moment :=
  let r := h !!! rawEvent e in shifted r (resolve (Raw.start r)).

Definition endDateTime (h : heap) (e : CalendarEvent) : moment :=
  let r := h !!! rawEvent e in shifted r (resolve (Raw.end_ r)).

Definition isMultiDay (h : heap) (e : CalendarEvent) : bool :=
  negb (startOf_day (startDateTime h e) =? startOf_day (endDateTime h e)).

Definition title (h : heap) (e : CalendarEvent) : option string :=
  Raw.title (h !!! rawEvent e).

Definition location (h : heap) (e : CalendarEvent) : option string :=
  Raw.location (h !!! rawEvent e).

Definition originCalendar (h : heap) (e : CalendarEvent) : option EntityDescriptor :=
  default None (Raw.originCalendar (h !!! rawEvent e)).

(** A pure all-day event: both ends are delivered as dates. *)
Definition isAllDay (r : RawEvent) : bool :=
  match Raw.start r, Raw.end_ r with
  | AllDay _, AllDay _ => true
  | _, _ => false
  end.

(** ** Array.prototype.sort *)

(** The engine supplies the sorting algorithm.  A comparator that never
    returns 0 is not a consistent comparison function, and ECMAScript then
    leaves the resulting order to the implementation.  What differs between
    engines is how the sign of the comparator is read when an element is
    placed in the already ordered part of the array:
    - [MovesLeftOnNegative]: the element [x] passes to the left of [y] when
      [comparefn(x, y) < 0] (binary insertion of V8, merge of JavaScriptCore);
    - [StaysOnNonPositive]: [y] stays to the left of [x] only when
      [comparefn(y, x) <= 0] (insertion and merge of SpiderMonkey).
    The model is the insertion sort both families run on short arrays. *)
Inductive sort_engine : Type :=
  | MovesLeftOnNegative
  | StaysOnNonPositive.

Section array_sort.
Context {A : Type}.
Variable engine : sort_engine.
Variable comparefn : A → A → Z.

Definition passes_left (x y : A) : bool :=
  match engine with
  | MovesLeftOnNegative => comparefn x y <? 0
  | StaysOnNonPositive => negb (comparefn y x <=? 0)
  end.

(** Insertion of [x] in the ordered prefix, which is held from its last
    element to its first, as the scan walks it. *)
Fixpoint insert_from_right (x : A) (prefix_rev : list A) : list A :=
  match prefix_rev with
  | [] => [x]
  | y :: rest =>
      if passes_left x y then y :: insert_from_right x rest
      else x :: prefix_rev
  end.

Definition array_sort (l : list A) : list A :=
  reverse (fold_left (λ prefix_rev x, insert_from_right x prefix_rev) l []).
End array_sort.

(** ** State and exceptions *)

Record State : Type := mkState { heap_of : heap; ticks : nat }.

(** What the pipeline can throw: [new RegExp] on a pattern that does not
    compile, and the read of a property of [undefined]. *)
Inductive Error : Type :=
  | SyntaxError (pattern : string)
  | TypeError.

Inductive outcome (A : Type) : Type :=
  | Returned (a : A) (s : State)
  | Thrown (e : Error) (s : State).
Arguments Returned {A} a s.
Arguments Thrown {A} e s.

Definition M (A : Type) : Type := State → outcome A.

#[global] Instance M_ret : MRet M := λ A a s, Returned a s.
#[global] Instance M_bind : MBind M := λ A B f m s,
  match m s with
  | Returned a s' => f a s'
  | Thrown e s' => Thrown e s'
  end.

Definition get_heap : M heap := λ s, Returned (heap_of s) s.

(** [l.originCalendar = o] *)
Definition assign_originCalendar (l : loc) (o : option EntityDescriptor) : M unit :=
  λ s, Returned ()
         (mkState (<[l := Raw.with_originCalendar (heap_of s !!! l) o]> (heap_of s))
                  (ticks s)).

(** A new object. *)
Definition alloc (r : RawEvent) : M loc :=
  λ s, let l := fresh (dom (heap_of s)) in
       Returned l (mkState (<[l := r]> (heap_of s)) (ticks s)).

(** [Array.prototype.reduce] with a callback that runs in [M]. *)
Fixpoint reduceM {A B : Type} (f : B → A → M B) (l : list A) (acc : B) : M B :=
  match l with
  | [] => mret acc
  | x :: l' => acc' ← f acc x; reduceM f l' acc'
  end.

(** ** processEvents *)

(** [config.entities.find(entity => entity.entity === caldavEvent.entity.entity)],
    as far as it returns: on a raw event that has an [entity], the first
    entry with the same [entity] property; on one that has none, nothing,
    which is what [find] gives when there is no entry to test. *)
Definition origin_of (config : Config) (caldavEvent : RawEvent) : option EntityDescriptor :=
  match Raw.entity caldavEvent with
  | Some d =>
      array_find (λ entity, strict_eq (dot_entity entity) (dot_entity d))
                 (entities config)
  | None => None
  end.

(** The same expression with its exception: the callback reads
    [caldavEvent.entity.entity], a TypeError when the raw event has no
    [entity], and [find] calls it as soon as there is an entry to test. *)
Definition find_origin (config : Config) (caldavEvent : RawEvent)
    : M (option EntityDescriptor) :=
  λ s, match Raw.entity caldavEvent, entities config with
       | None, _ :: _ => Thrown TypeError s
       | _, _ => Returned (origin_of config caldavEvent) s
       end.

Section pipeline.
(** The successive readings of the ambient clock, [moment()]. *)
Variable clock : nat → moment.
(** [new RegExp(pattern, 'i')], then [.test]; [None] when the pattern does
    not compile and the constructor throws. *)
Variable RegExp_i : string → option (string → bool).
Variable engine : sort_engine.

Definition moment_now : M moment :=
  λ s, Returned (clock (ticks s)) (mkState (heap_of s) (S (ticks s))).

Definition new_RegExp (pattern : string) : M (string → bool) :=
  λ s, match RegExp_i pattern with
       | Some test => Returned test s
       | None => Thrown (SyntaxError pattern) s
       end.

(** The title and location filters: [pattern && text], then the match. *)
Definition ignored_by (pattern : string) (text : option string) : M bool :=
  if truthy_string pattern && truthy_opt text then
    regex ← new_RegExp pattern;
    mret (regex (default "" text))
  else mret false.

(** The number of occurrences a multi-day event is split into. *)
Definition daysLong_of (h : heap) (newEvent : CalendarEvent) : Z :=
  let daysLong := diff_days (endDateTime h newEvent) (startDateTime h newEvent) + 1 in
  if (hour (endDateTime h newEvent) =? 0) && (minutes (endDateTime h newEvent) =? 0)
  then daysLong - 1
  else daysLong.

(** One turn of the loop [for (let i = 0; i < daysLong; i++)]. *)
Definition expand_step (newEvent : CalendarEvent) (daysLong : Z) (endDate : moment)
    (partialEvents : list CalendarEvent) (i : Z) : M (list CalendarEvent) :=
  h ← get_heap;
  let copiedEvent :=
    Raw.with_addDays (Raw.JSON_copy (h !!! rawEvent newEvent)) i daysLong in
  l ← alloc copiedEvent;
  let partialEvent := new_CalendarEvent l in
  h' ← get_heap;
  if isAfter endDate (startDateTime h' partialEvent)
  then mret (partialEvents ++ [partialEvent])
  else mret partialEvents.

(** The callback of [uniqueEvents.reduce]. *)
Definition convert (config : Config) (today now : moment)
    (events : list CalendarEvent) (caldavEvent : loc) : M (list CalendarEvent) :=
  h0 ← get_heap;
  found ← find_origin config (h0 !!! caldavEvent);
  assign_originCalendar caldavEvent found;;
  let newEvent := new_CalendarEvent caldavEvent in
  h ← get_heap;
  if hidePastEvents config && isBefore (endDateTime h newEvent) now then mret events
  else if startFromToday config && isAfter today (endDateTime h newEvent) then mret events
  else if hidePastEvents config && isBefore (endDateTime h newEvent) now then mret events
  else
    byTitle ← ignored_by (ignoreEventsExpression config) (title h newEvent);
    if (byTitle : bool) then mret events
    else
      byLocation ← ignored_by (ignoreEventsByLocationExpression config) (location h newEvent);
      if (byLocation : bool) then mret events
      else if showMultiDay config && isMultiDay h newEvent then
        t ← moment_now;
        let today := startOf_day t in
        let endDate := add_days today (numberOfDays config) in
        let daysLong := daysLong_of h newEvent in
        partialEvents ← reduceM (expand_step newEvent daysLong endDate)
                                (seqZ 0 daysLong) [];
        mret (events ++ partialEvents)
      else mret (events ++ [newEvent]).

(** [(a, b) => a.startDateTime.isBefore(b.startDateTime) ? -1 : 1] *)
Definition by_start (h : heap) (a b : CalendarEvent) : Z :=
  if isBefore (startDateTime h a) (startDateTime h b) then -1 else 1.

Definition processEvents (allEvents : list loc) (config : Config)
    : M (list CalendarEvent) :=
  h ← get_heap;
  let uniqueEvents := uniqueEvents h allEvents in
  t ← moment_now;
  let today := startOf_day t in
  now ← moment_now;
  newEvents ← reduceM (convert config today now) uniqueEvents [];
  h' ← get_heap;
  mret (array_sort engine (by_start h') newEvents).
End pipeline.

(** ** groupEventsByDay *)

Record DayGroup : Type := mkGroup { day : string; events : list CalendarEvent }.

#[global] Instance DayGroup_eq_dec : EqDecision DayGroup.
Proof. solve_decision. Defined.

(** [group.events.push(event)] *)
Definition push_event (event : CalendarEvent) (group : DayGroup) : DayGroup :=
  mkGroup (day group) (events group ++ [event]).

(** The callback of [events.reduce]. *)
Definition group_step (h : heap) (groupedEvents : list DayGroup) (event : CalendarEvent)
    : list DayGroup :=
  let day_ := format_YYYY_MM_DD (startDateTime h event) in
  let matchingDateIndex := findIndex (λ group, String.eqb (day group) day_) groupedEvents in
  if -1 <? matchingDateIndex
  then alter (push_event event) (Z.to_nat matchingDateIndex) groupedEvents
  else groupedEvents ++ [mkGroup day_ [event]].

(** The callback of [groupedEvents.map], with the two variables it closes
    over, [numberOfEvents] and [hasMaxedOutEvents], passed along. *)
Fixpoint limit_map (eventsLimit : Z) (groups : list DayGroup)
    (numberOfEvents : Z) (hasMaxedOutEvents : bool) : list (option DayGroup) :=
  match groups with
  | [] => []
  | group :: rest =>
      if hasMaxedOutEvents
      then None :: limit_map eventsLimit rest numberOfEvents hasMaxedOutEvents
      else
        let numberOfEvents := numberOfEvents + Z.of_nat (length (events group)) in
        let hasMaxedOutEvents := eventsLimit <? numberOfEvents in
        Some group :: limit_map eventsLimit rest numberOfEvents hasMaxedOutEvents
  end.

(** [.filter(Boolean)] on an array of objects and [undefined]. *)
Definition filter_Boolean {A : Type} (l : list (option A)) : list A := omap id l.

(** The first statement: [events.reduce(..., [])]. *)
Definition groupedEvents (h : heap) (events_ : list CalendarEvent) : list DayGroup :=
  fold_left (group_step h) events_ [].

Definition groupEventsByDay (h : heap) (events_ : list CalendarEvent) (config : Config)
    : list DayGroup :=
  filter_Boolean (limit_map (eventsLimit config) (groupedEvents h events_) 0 false).

(** ** Default configuration (defaults.js) *)

Definition defaults_table : list (string * jsval) :=
  [ ("title", JStr "Calendar");
    ("numberOfDays", JNum 7);
    ("timeFormat", JStr "HH:mma");
    ("dateTopFormat", JStr "DD");
    ("dateBottomFormat", JStr "ddd");
    ("hideTime", JBool false);
    ("progressBar", JBool false);
    ("showLocation", JBool false);
    ("showLocationIcon", JBool true);
    ("startFromToday", JBool false);
    ("hidePastEvents", JBool false);
    ("showMultiDay", JBool false);
    ("eventsLimit", JNum 99);
    ("showEventOrigin", JBool false);
    ("hideHeader", JBool false);
    ("highlightToday", JBool false);
    ("ignoreEventsExpression", JStr "");
    ("ignoreEventsByLocationExpression", JStr "") ]%string.

(** The exported object, as a map from property names to values. *)
Definition defaults : gmap string jsval := list_to_map defaults_table.

(** ** Auxiliary notions used in the statements *)

Section dedup_notions.
Context {A : Type}.
(** [id_key e] is the key the search computes for a candidate [e]
    ([e.id || e.uid]); [uid_key x] the key of the event under test
    ([x.uid || x.id]). *)
Variables id_key uid_key : A → jsval.

(** [x] is found at its own position: it answers to its own key and no
    element seen before does. *)
Definition found_first (seen : list A) (x : A) : bool :=
  forallb (λ e, negb (strict_eq (id_key e) (uid_key x))) seen
  && strict_eq (id_key x) (uid_key x).

(** The filter, read as one left-to-right pass that remembers the elements
    gone by. *)
Fixpoint dedup_scan (seen : list A) (l : list A) : list A :=
  match l with
  | [] => []
  | x :: r =>
      if found_first seen x then x :: dedup_scan (seen ++ [x]) r
      else dedup_scan (seen ++ [x]) r
  end.
End dedup_notions.

(** The Deduplicator in the words of the specification: keep the first
    occurrence of each key, drop later events with a key already met. *)
Fixpoint first_occurrences {A : Type} (key : A → jsval) (met : list jsval) (l : list A)
    : list A :=
  match l with
  | [] => []
  | x :: r =>
      if bool_decide (key x ∈ met) then first_occurrences key met r
      else x :: first_occurrences key (key x :: met) r
  end.

(** The calendar date an event is grouped under. *)
Definition day_of (h : heap) (event : CalendarEvent) : string :=
  format_YYYY_MM_DD (startDateTime h event).

(** The number of events in a run of day groups. *)
Definition count_events (groups : list DayGroup) : Z :=
  foldr (λ group n, Z.of_nat (length (events group)) + n) 0 groups.

(** What the first statement of [groupEventsByDay] maintains: one group per
    date met so far, holding every event of that date in input order. *)
Definition grouped (h : heap) (processed : list CalendarEvent) (groups : list DayGroup)
    : Prop :=
  NoDup (map day groups)
  ∧ Forall (λ g, events g = filter (λ e, day_of h e = day g) processed
                 ∧ events g ≠ []) groups
  ∧ ∀ e, e ∈ processed → day_of h e ∈ map day groups.

(** The comparator of [processEvents] over any integer key: it answers -1
    when the first key is smaller and 1 otherwise, never 0. *)
Definition before_or_after {A : Type} (key : A → Z) (a b : A) : Z :=
  if key a <? key b then -1 else 1.

(** A computation that cannot throw. *)
Definition returns {A : Type} (m : M A) : Prop :=
  ∀ s, ∃ a s', m s = Returned a s'.

(** The store after some steps of the pipeline: an object that existed is
    still there, untouched or with its [originCalendar] assigned. *)
Definition evolves (config : Config) (h h' : heap) : Prop :=
  ∀ l r, h !! l = Some r →
         h' !! l = Some r
         ∨ h' !! l = Some (Raw.with_originCalendar r (origin_of config r)).

(** The test of line 169 on a raw record: its end reads 00:00. *)
Definition ends_at_midnight (r : RawEvent) : bool :=
  (hour (resolve (Raw.end_ r)) =? 0) && (minutes (resolve (Raw.end_ r)) =? 0).

(** Whole days between start and end, plus one, less one when the end
    reads 00:00. *)
Definition span_days (r : RawEvent) : Z :=
  diff_days (resolve (Raw.end_ r)) (resolve (Raw.start r)) + 1
  - (if ends_at_midnight r then 1 else 0).

(** [e] is an occurrence made by the expansion since the store was [h0]:
    its record is a new object stamped with its day of the span and the
    length of the span, and it starts before the end of the window counted
    from some reading of the clock. *)
Definition occurrence (clock : nat → moment) (config : Config) (h0 h : heap)
    (e : CalendarEvent) : Prop :=
  h0 !! rawEvent e = None
  ∧ ∃ r i k,
      h !! rawEvent e = Some r
      ∧ Raw.addDays r = Some i
      ∧ 0 ≤ i < span_days r
      ∧ Raw.daysLong r = Some (span_days r)
      ∧ startDateTime h e < add_days (startOf_day (clock k)) (numberOfDays config).

(** The count of occurrences in the words of the specification: the
    decrement is for a pure all-day event that ends at midnight, and for no
    other event. *)
Definition specified_span (r : RawEvent) : Z :=
  diff_days (resolve (Raw.end_ r)) (resolve (Raw.start r)) + 1
  - (if isAllDay r && ends_at_midnight r then 1 else 0).

(** ** Scenarios *)

(** Concrete stores and configurations on which the statements below are
    run.  Day 19723 is 2024-01-01. *)
Module Scenario.
Definition day1 : Z := 19723.

Definition calendar_a : EntityDescriptor := Named (JStr "calendar.a") (JStr "Home").

Definition timed (id_ uid_ : jsval) (t0 t1 : moment) (cal : EntityDescriptor)
    : RawEvent :=
  Raw.mk id_ uid_ (DateTime t0) (DateTime t1) (Some "Meeting"%string) None
         (Some cal) None None None.

Definition all_day (uid_ : jsval) (d0 d1 : Z) (cal : EntityDescriptor) : RawEvent :=
  Raw.mk JUndefined uid_ (AllDay d0) (AllDay d1) (Some "Trip"%string) None
         (Some cal) None None None.

Definition store (l : list RawEvent) : heap :=
  list_to_map (imap (λ i r, (i, r)) l).

Definition config_of (days limit : Z) (multi : bool) (es : list EntityDescriptor)
    : Config :=
  Build_Config days limit false false multi "" "" es.

(** A clock that stays at 08:00 on day 1 for the whole run. *)
Definition morning (n : nat) : moment := day1 * DAY + 8 * HOUR.

(** A [RegExp] that compiles every pattern and matches nothing. *)
Definition no_match (pattern : string) : option (string → bool) := Some (λ _, false).

(** An event that carries both an [id] and a [uid]. *)
Definition both_keys : heap :=
  store [timed (JStr "a") (JStr "b") (day1 * DAY + 10 * HOUR) (day1 * DAY + 11 * HOUR)
               calendar_a].

Definition afternoon : RawEvent :=
  timed (JStr "e2") JUndefined (day1 * DAY + 14 * HOUR) (day1 * DAY + 15 * HOUR)
        calendar_a.

(** Two events on day 1 and one on day 2. *)
Definition two_days : heap :=
  store [timed (JStr "e1") JUndefined (day1 * DAY + 10 * HOUR) (day1 * DAY + 11 * HOUR)
               calendar_a;
         afternoon;
         timed (JStr "e3") JUndefined ((day1 + 1) * DAY + 9 * HOUR)
               ((day1 + 1) * DAY + 10 * HOUR) calendar_a].

Definition three_events : list CalendarEvent :=
  [new_CalendarEvent 0%nat; new_CalendarEvent 1%nat; new_CalendarEvent 2%nat].

(** [{numberOfDays: 3, eventsLimit: 2}] *)
Definition days3_limit2 : Config := config_of 3 2 false [calendar_a].

(** Two events on day 1, one on day 2 and one on day 3. *)
Definition three_days : heap :=
  store [timed (JStr "e1") JUndefined (day1 * DAY + 10 * HOUR) (day1 * DAY + 11 * HOUR)
               calendar_a;
         timed (JStr "e2") JUndefined (day1 * DAY + 14 * HOUR) (day1 * DAY + 15 * HOUR)
               calendar_a;
         timed (JStr "e3") JUndefined ((day1 + 1) * DAY + 9 * HOUR)
               ((day1 + 1) * DAY + 10 * HOUR) calendar_a;
         timed (JStr "e4") JUndefined ((day1 + 2) * DAY + 9 * HOUR)
               ((day1 + 2) * DAY + 10 * HOUR) calendar_a].

Definition four_events : list CalendarEvent :=
  three_events ++ [new_CalendarEvent 3%nat].

(** A run of the pipeline from a given store, and what it leaves. *)
Definition run (engine : sort_engine) (allEvents : list loc) (config : Config)
    (h : heap) : outcome (list CalendarEvent) :=
  processEvents morning no_match engine allEvents config (mkState h 0).

Definition events_of (o : outcome (list CalendarEvent)) : list CalendarEvent :=
  match o with
  | Returned evs _ => evs
  | Thrown _ _ => []
  end.

Definition state_of (o : outcome (list CalendarEvent)) : State :=
  match o with
  | Returned _ s => s
  | Thrown _ s => s
  end.

(** Two calendars configured by their bare ids, and an event of the
    second one. *)
Definition bare_a : EntityDescriptor := BareId "calendar.a".
Definition bare_b : EntityDescriptor := BareId "calendar.b".

Definition from_b : heap :=
  store [timed (JStr "e1") JUndefined (day1 * DAY + 10 * HOUR) (day1 * DAY + 11 * HOUR)
               bare_b].

Definition two_bare : Config := config_of 7 99 false [bare_a; bare_b].

(** A timed event from 20:00 on day 1 to 00:00 on day 3. *)
Definition late_night : heap :=
  store [timed (JStr "party") JUndefined (day1 * DAY + 20 * HOUR) ((day1 + 2) * DAY)
               calendar_a].

Definition week_multi : Config := config_of 7 99 true [calendar_a].

(** An all-day event over days 1 to 3, shown in a window of two days. *)
Definition trip : heap := store [all_day (JStr "trip") day1 (day1 + 3) calendar_a].

Definition window2_multi : Config := config_of 2 99 true [calendar_a].

(** Two events that start at the same instant. *)
Definition same_start : heap :=
  store [timed (JStr "first") JUndefined (day1 * DAY + 10 * HOUR)
               (day1 * DAY + 11 * HOUR) calendar_a;
         timed (JStr "second") JUndefined (day1 * DAY + 10 * HOUR)
               (day1 * DAY + 12 * HOUR) calendar_a].
End Scenario.

(** ** Further notions used in the statements *)

(** The values of a list in the order in which they first appear. *)
Fixpoint first_seen (seen : list string) (dates : list string) : list string :=
  match dates with
  | [] => []
  | d :: rest =>
      if bool_decide (d ∈ seen) then first_seen seen rest
      else d :: first_seen (d :: seen) rest
  end.

(** The group of a date: every event of the list that falls on it, in the
    order of the list. *)
Definition group_of (h : heap) (events_ : list CalendarEvent) (d : string) : DayGroup :=
  mkGroup d (filter (λ e, day_of h e = d) events_).

(** The events of a run of day groups, group after group. *)
Definition all_events (groups : list DayGroup) : list CalendarEvent :=
  concat (map events groups).

(** The outcome of a title or location filter: the pattern is not empty,
    the text is there, and the pattern matches it. *)
Definition excluded_by (RegExp_i : string → option (string → bool)) (pattern : string)
    (text : option string) : bool :=
  truthy_string pattern && truthy_opt text
  && match RegExp_i pattern with
     | Some test => test (default "" text)
     | None => false
     end.

(** An event gets past the filter chain of [processEvents]: none of the four
    guards that return early applies to it. *)
Definition shown (RegExp_i : string → option (string → bool)) (config : Config)
    (today now : moment) (h : heap) (e : CalendarEvent) : bool :=
  negb (hidePastEvents config && isBefore (endDateTime h e) now)
  && negb (startFromToday config && isAfter today (endDateTime h e))
  && negb (excluded_by RegExp_i (ignoreEventsExpression config) (title h e))
  && negb (excluded_by RegExp_i (ignoreEventsByLocationExpression config) (location h e)).

(** The guard of the expansion: [config.showMultiDay && newEvent.isMultiDay]. *)
Definition expands (config : Config) (h : heap) (e : CalendarEvent) : bool :=
  showMultiDay config && isMultiDay h e.

(** The record of the [i]-th occurrence of an event whose record is [r]. *)
Definition occurrence_record (r : RawEvent) (i : Z) : RawEvent :=
  Raw.with_addDays (Raw.JSON_copy r) i (span_days r).

(** The record of a raw event once [processEvents] has converted it. *)
Definition converted (config : Config) (r : RawEvent) : RawEvent :=
  Raw.with_originCalendar r (origin_of config r).

(** What the attribution asks of the input not to throw: no descriptor is
    configured, or every raw event is an object of the store that carries
    an [entity]. *)
Definition attributable (config : Config) (h : heap) (allEvents : list loc) : Prop :=
  entities config = []
  ∨ Forall (λ l, ∃ r, h !! l = Some r ∧ is_Some (Raw.entity r)) allEvents.

(** [e] went to the result as it is: it wraps one of the raw events gone
    through, got past the filters and was not due for expansion. *)
Definition passed_through (RegExp_i : string → option (string → bool)) (config : Config)
    (today now : moment) (done : list loc) (h : heap) (e : CalendarEvent) : Prop :=
  rawEvent e ∈ done
  ∧ shown RegExp_i config today now h e = true
  ∧ expands config h e = false.

(** [e] is the occurrence for day [i] of a raw event at [l] that got past
    the filters and was expanded: its record is a new object, the stamped
    copy of the converted record of [l]. *)
Definition expanded_from (clock : nat → moment)
    (RegExp_i : string → option (string → bool)) (config : Config)
    (today now : moment) (h0 : heap) (done : list loc) (h : heap)
    (e : CalendarEvent) : Prop :=
  h0 !! rawEvent e = None
  ∧ ∃ l r i k,
      l ∈ done
      ∧ h0 !! l = Some r
      ∧ shown RegExp_i config today now h (new_CalendarEvent l) = true
      ∧ expands config h (new_CalendarEvent l) = true
      ∧ 0 ≤ i < span_days r
      ∧ h !! rawEvent e = Some (occurrence_record (converted config r) i)
      ∧ startDateTime h e < add_days (startOf_day (clock k)) (numberOfDays config).

(** The state of a run of [processEvents] from the store [h0], once the raw
    events [done] have been converted into the events [acc]. *)
Definition run_invariant (clock : nat → moment)
    (RegExp_i : string → option (string → bool)) (config : Config)
    (today now : moment) (h0 : heap) (done : list loc) (acc : list CalendarEvent)
    (s1 : State) : Prop :=
  (∀ l, l ∈ done → is_Some (h0 !! l))
  ∧ (∀ p r, h0 !! p = Some r →
            heap_of s1 !! p
            = Some (if bool_decide (p ∈ done) then converted config r else r))
  ∧ (∀ e, e ∈ acc →
          passed_through RegExp_i config today now done (heap_of s1) e
          ∨ expanded_from clock RegExp_i config today now h0 done (heap_of s1) e)
  ∧ (∀ l, l ∈ done →
          shown RegExp_i config today now (heap_of s1) (new_CalendarEvent l) = true →
          expands config (heap_of s1) (new_CalendarEvent l) = false →
          new_CalendarEvent l ∈ acc)
  ∧ (∀ l r i, l ∈ done → h0 !! l = Some r →
              shown RegExp_i config today now (heap_of s1) (new_CalendarEvent l) = true →
              expands config (heap_of s1) (new_CalendarEvent l) = true →
              0 ≤ i < span_days r →
              ∃ k, add_days (resolve (Raw.start r)) i
                   < add_days (startOf_day (clock k)) (numberOfDays config) →
                   ∃ e, e ∈ acc
                        ∧ heap_of s1 !! rawEvent e
                          = Some (occurrence_record (converted config r) i)).

(** ** A week of events, for the instances of the further properties *)

Module Agenda.
Definition titled (title_ id_ : string) (t0 t1 : moment) : RawEvent :=
  Raw.mk (JStr id_) JUndefined (DateTime t0) (DateTime t1) (Some title_) None
         (Some Scenario.calendar_a) None None None.

Definition standup : RawEvent :=
  titled "Daily Standup" "s1" (Scenario.day1 * DAY + 10 * HOUR)
         (Scenario.day1 * DAY + 10 * HOUR + 30 * MINUTE).

Definition planning : RawEvent :=
  titled "Planning" "p1" (Scenario.day1 * DAY + 14 * HOUR)
         (Scenario.day1 * DAY + 15 * HOUR).

(** Over on the eve of day 1. *)
Definition review : RawEvent :=
  titled "Review" "r1" ((Scenario.day1 - 1) * DAY + 16 * HOUR)
         ((Scenario.day1 - 1) * DAY + 17 * HOUR).

(** An all-day event over days 1 to 3. *)
Definition trip : RawEvent :=
  Scenario.all_day (JStr "trip") Scenario.day1 (Scenario.day1 + 3) Scenario.calendar_a.

(** Events without [id] and [uid]. *)
Definition anonymous (t0 : moment) : RawEvent :=
  Scenario.timed JUndefined JUndefined t0 (t0 + HOUR) Scenario.calendar_a.

Definition week : heap := Scenario.store [standup; planning; review; trip].

(** A second calendar, and a store with an event of each calendar. *)
Definition calendar_b : EntityDescriptor := Named (JStr "calendar.b") (JStr "Work").

Definition handover : RawEvent :=
  Scenario.timed (JStr "h1") JUndefined (Scenario.day1 * DAY + 16 * HOUR)
                 (Scenario.day1 * DAY + 17 * HOUR) calendar_b.

Definition both : heap := Scenario.store [planning; handover].

Definition two_calendars : Config :=
  Scenario.config_of 7 99 true [Scenario.calendar_a; calendar_b].

Definition both_outcome : outcome (list CalendarEvent) :=
  processEvents Scenario.morning Scenario.no_match MovesLeftOnNegative [0; 1]%nat
                two_calendars (mkState both 0).

(** An event that carries no [entity]. *)
Definition untagged : RawEvent :=
  Raw.mk (JStr "u1") JUndefined (DateTime (Scenario.day1 * DAY + 9 * HOUR))
         (DateTime (Scenario.day1 * DAY + 10 * HOUR)) (Some "Walk-in"%string) None
         None None None None.

Definition with_untagged : heap := Scenario.store [planning; untagged].

Definition unkeyed : heap :=
  Scenario.store [anonymous (Scenario.day1 * DAY + 9 * HOUR);
                  anonymous (Scenario.day1 * DAY + 13 * HOUR)].

(** The payload, in which the second event comes twice. *)
Definition fetched : list loc := [0; 1; 2; 3; 1]%nat.

(** A [RegExp] that compiles the pattern [standup] only, which matches
    the title of the stand-up. *)
Definition standup_only (pattern : string) : option (string → bool) :=
  if String.eqb pattern "standup"
  then Some (λ text, String.eqb text "Daily Standup")
  else None.

(** A [RegExp] that compiles no pattern. *)
Definition never_compiles (pattern : string) : option (string → bool) := None.

(** Every filter and the expansion switched on. *)
Definition filters_on : Config :=
  Build_Config 7 99 true true true "standup" "" [Scenario.calendar_a].

(** A title pattern that does not compile. *)
Definition bad_pattern : Config :=
  Build_Config 7 99 false false false "(" "" [Scenario.calendar_a].

Definition outcome_ : outcome (list CalendarEvent) :=
  processEvents Scenario.morning standup_only MovesLeftOnNegative fetched filters_on
                (mkState week 0).

Definition result : list CalendarEvent := Scenario.events_of outcome_.
Definition final : State := Scenario.state_of outcome_.

(** The same payload with every filter off. *)
Definition plain : Config := Scenario.config_of 7 99 false [Scenario.calendar_a].

Definition plain_outcome : outcome (list CalendarEvent) :=
  processEvents Scenario.morning standup_only StaysOnNonPositive fetched plain
                (mkState week 0).
End Agenda.

(** ** getAllEvents *)

From stdpp Require Import pretty.

Local Open Scope Z_scope.

(** A value that is a scalar or a descriptor object: what
    [(entity && entity.entity) || entity] and
    [entity.name || calendarEntity] evaluate to. *)
Inductive jsany : Type :=
  | Scalar (v : jsval)
  | Object (d : EntityDescriptor).

#[global] Instance jsany_eq_dec : EqDecision jsany.
Proof. solve_decision. Defined.

(** [(entity && entity.entity) || entity]: a string has no [entity]
    property, and the empty string is falsy. *)
Definition calendarEntity_of (entity : EntityDescriptor) : jsany :=
  match entity with
  | BareId s => Scalar (JStr s)
  | Named e _ => if truthy e then Scalar e else Object entity
  end.

(** [entity.name || calendarEntity] *)
Definition name_or (entity : EntityDescriptor) (calendarEntity : jsany) : jsany :=
  match entity with
  | BareId _ => calendarEntity
  | Named _ n => if truthy n then Scalar n else calendarEntity
  end.

(** The string a value has in a template literal; numbers are integers
    below 10^21 in absolute value. *)
Definition ToString (v : jsany) : string :=
  match v with
  | Scalar JUndefined => "undefined"
  | Scalar JNull => "null"
  | Scalar (JBool b) => if b then "true" else "false"
  | Scalar (JNum n) => pretty n
  | Scalar (JStr s) => s
  | Object _ => "[object Object]"
  end.

(** [m.seconds()] *)
Definition seconds (m : moment) : Z := (m `mod` MINUTE) `div` 1000.

(** [m.format('YYYY-MM-DDTHH:mm:ss')] *)
Definition format_dateFormat (m : moment) : string :=
  format_YYYY_MM_DD m +:+ "T" +:+ pad2 (hour m) +:+ ":" +:+ pad2 (minutes m)
  +:+ ":" +:+ pad2 (seconds m).

(** [`calendars/${calendarEntity}?start=${start}Z&end=${end}Z`] *)
Definition url_of (calendarEntity : jsany) (start end_ : string) : string :=
  "calendars/" +:+ ToString calendarEntity +:+ "?start=" +:+ start +:+ "Z&end="
  +:+ end_ +:+ "Z".

(** How the promise of [hass.callApi] settles: resolved with the array of
    raw events of the payload, or rejected. *)
Inductive response : Type :=
  | Resolved (rawEvents : list RawEvent)
  | Rejected (error : string).

(** An entry of [failedEvents]. *)
Module Failed.
Record t : Type := mk { name : jsany; error : string }.
End Failed.

(** [event.entity = entity] *)
Definition with_entity (r : RawEvent) (entity : EntityDescriptor) : RawEvent :=
  Raw.mk (Raw.id r) (Raw.uid r) (Raw.start r) (Raw.end_ r) (Raw.title r)
         (Raw.location r) (Some entity) (Raw.originCalendar r) (Raw.addDays r)
         (Raw.daysLong r).

Section fetching.
Variable clock : nat → moment.
Variable RegExp_i : string → option (string → bool).
Variable engine : sort_engine.
(** [hass.callApi('get', url)]: how the request made for the [i]-th entry of
    [config.entities] settles.  Every request settles. *)
Variable callApi : nat → string → response.
(** The order in which the requests settle, as indices in
    [config.entities]: the callbacks chained on a request run when it
    settles, those of distinct requests in the order of settlement. *)
Variable settled : list nat.

(** An event of the payload is an object of the store; the first [then]
    tags it with its entity, the second one pushes it. *)
Definition receive (entity : EntityDescriptor) (events_ : list loc)
    (rawEvent : RawEvent) : M (list loc) :=
  l ← alloc (with_entity rawEvent entity);
  mret (events_ ++ [l]).

(** The callbacks chained on the request of the [i]-th entity, on the pair
    of [allEvents] and [failedEvents]. *)
Definition settle (config : Config) (start end_ : string)
    (lists : list loc * list Failed.t) (i : nat) : M (list loc * list Failed.t) :=
  match entities config !! i with
  | None => mret lists
  | Some entity =>
      let calendarEntity := calendarEntity_of entity in
      let url := url_of calendarEntity start end_ in
      match callApi i url with
      | Resolved rawEvents =>
          events_ ← reduceM (receive entity) rawEvents [];
          mret (lists.1 ++ events_, lists.2)
      | Rejected error =>
          mret (lists.1,
                lists.2 ++ [Failed.mk (name_or entity calendarEntity) error])
      end
  end.

(** The result is the pair of [failedEvents] and [events]. *)
Definition getAllEvents (config : Config) : M (list Failed.t * list CalendarEvent) :=
  t ← moment_now clock;
  let today := startOf_day t in
  let start := format_dateFormat today in
  let end_ := format_dateFormat (add_days today (numberOfDays config)) in
  lists ← reduceM (settle config start end_) settled ([], []);
  events_ ← processEvents clock RegExp_i engine lists.1 config;
  mret (lists.2, events_).
End fetching.

(** *** Notions used in the statements about getAllEvents *)

(** The request made for the [i]-th entity when the clock is first read at
    [t], and how it settles. *)
Definition request_of (callApi : nat → string → response) (config : Config)
    (t : moment) (i : nat) (entity : EntityDescriptor) : response :=
  callApi i
    (url_of (calendarEntity_of entity) (format_dateFormat (startOf_day t))
       (format_dateFormat (add_days (startOf_day t) (numberOfDays config)))).

(** The entry of [failedEvents] for the [i]-th entity, if its request was
    rejected. *)
Definition failure_of (callApi : nat → string → response) (config : Config)
    (t : moment) (i : nat) : option Failed.t :=
  match entities config !! i with
  | Some entity =>
      match request_of callApi config t i entity with
      | Rejected error =>
          Some (Failed.mk (name_or entity (calendarEntity_of entity)) error)
      | Resolved _ => None
      end
  | None => None
  end.

(** The first configured descriptor with the [entity] property of [d]. *)
Definition first_like (config : Config) (d : EntityDescriptor)
    : option EntityDescriptor :=
  array_find (λ entity, strict_eq (dot_entity entity) (dot_entity d)) (entities config).

(** The object at [l] was delivered by a request that settled with a
    payload: it is new, and it is an event of that payload tagged with the
    entity of the request. *)
Definition delivered (callApi : nat → string → response) (config : Config)
    (t : moment) (done : list nat) (h0 h : heap) (l : loc) : Prop :=
  h0 !! l = None
  ∧ ∃ i entity rawEvents r,
      i ∈ done ∧ entities config !! i = Some entity
      ∧ request_of callApi config t i entity = Resolved rawEvents
      ∧ r ∈ rawEvents
      ∧ h !! l = Some (with_entity r entity).

(** *** Three calendars, one of which is down *)

Module Fetch.
Definition home : EntityDescriptor := Named (JStr "calendar.home") (JStr "Home").
Definition work : EntityDescriptor := BareId "calendar.work".
Definition down : EntityDescriptor := Named (JStr "calendar.down") JUndefined.

Definition three_calendars : Config :=
  Build_Config 7 99 false false true "" "" [home; work; down].

(** The server on day 1: two events at home, one at work. *)
Definition hass (i : nat) (url : string) : response :=
  if String.eqb url
       "calendars/calendar.home?start=2024-01-01T00:00:00Z&end=2024-01-08T00:00:00Z"
  then Resolved [Agenda.standup; Agenda.trip]
  else if String.eqb url
            "calendars/calendar.work?start=2024-01-01T00:00:00Z&end=2024-01-08T00:00:00Z"
  then Resolved [Agenda.planning]
  else Rejected "503".

(** A server that rejects every request. *)
Definition offline (i : nat) (url : string) : response := Rejected "offline".

(** The requests settle in the reverse of the order in which they were
    made; the store holds the events of an earlier run. *)
Definition outcome_ : outcome (list Failed.t * list CalendarEvent) :=
  getAllEvents Scenario.morning Scenario.no_match MovesLeftOnNegative hass
               [2; 1; 0]%nat three_calendars (mkState Agenda.week 0).

Definition failedEvents : list Failed.t :=
  match outcome_ with
  | Returned lists _ => lists.1
  | Thrown _ _ => []
  end.

Definition events_ : list CalendarEvent :=
  match outcome_ with
  | Returned lists _ => lists.2
  | Thrown _ _ => []
  end.

Definition final : State :=
  match outcome_ with
  | Returned _ s => s
  | Thrown _ s => s
  end.
End Fetch.

(** * Properties *)

(** ** Arrays *)

Section array_facts.
Context {A : Type}.
Implicit Types (p : A → bool) (l : list A).

Lemma findIndex_from_range p l i :
  findIndex_from p l i = -1 ∨
  (i ≤ findIndex_from p l i < i + Z.of_nat (length l)).
Proof.
  revert i. induction l as [|x l IH]; intros i; simpl; [by left|].
  destruct (p x); [right; lia|].
  destruct (IH (i + 1)) as [->|?]; [by left|right; lia].
Qed.

Lemma findIndex_from_skip p pre l i :
  forallb (λ e, negb (p e)) pre = true →
  findIndex_from p (pre ++ l) i = findIndex_from p l (i + Z.of_nat (length pre)).
Proof.
  revert i. induction pre as [|y pre IH]; intros i Hpre; simpl in *.
  - f_equal. lia.
  - apply andb_prop in Hpre as [Hy Hpre].
    destruct (p y); [done|]. rewrite IH by done. f_equal. lia.
Qed.

Lemma findIndex_from_early p pre l i :
  forallb (λ e, negb (p e)) pre = false →
  i ≤ findIndex_from p (pre ++ l) i < i + Z.of_nat (length pre).
Proof.
  revert i. induction pre as [|y pre IH]; intros i Hpre; simpl in *; [done|].
  destruct (p y); simpl in *; [lia|].
  specialize (IH (i + 1) Hpre). lia.
Qed.

(** The element at the end of [pre] is the one [findIndex] returns exactly
    when it satisfies the predicate and nothing before it does. *)
Lemma findIndex_is_here p pre x l :
  (Z.of_nat (length pre) =? findIndex p (pre ++ x :: l)) =
  forallb (λ e, negb (p e)) pre && p x.
Proof.
  unfold findIndex.
  destruct (forallb (λ e, negb (p e)) pre) eqn:Hpre; simpl.
  - rewrite findIndex_from_skip by done. simpl.
    destruct (p x); [apply Z.eqb_eq; lia|].
    apply Z.eqb_neq.
    destruct (findIndex_from_range p l (0 + Z.of_nat (length pre) + 1)); lia.
  - apply Z.eqb_neq.
    pose proof (findIndex_from_early p pre (x :: l) 0 Hpre). lia.
Qed.

Lemma array_find_Some p l x :
  array_find p l = Some x →
  ∃ l1 l2, l = l1 ++ x :: l2 ∧ p x = true ∧ Forall (λ y, p y = false) l1.
Proof.
  induction l as [|y l IH]; simpl; [done|].
  destruct (p y) eqn:Hy.
  - intros [= ->]. by exists [], l.
  - intros (l1 & l2 & -> & ? & ?)%IH. exists (y :: l1), l2. by repeat constructor.
Qed.

Lemma array_find_None p l :
  array_find p l = None ↔ Forall (λ y, p y = false) l.
Proof.
  induction l as [|y l IH]; simpl; [by split; [constructor|]|].
  destruct (p y) eqn:Hy.
  - split; [done|]. inversion 1; congruence.
  - rewrite IH. split; [by constructor|by inversion 1].
Qed.
End array_facts.

(** ** Deduplicator *)

Section dedup_facts.
Context {A : Type}.
Variables id_key uid_key : A → jsval.
Implicit Types (l seen : list A).

Lemma array_filter_dedup_scan self seen l :
  self = seen ++ l →
  array_filter_from
    (λ x i, i =? findIndex (λ e, strict_eq (id_key e) (uid_key x)) self)
    l (Z.of_nat (length seen))
  = dedup_scan id_key uid_key seen l.
Proof.
  revert seen. induction l as [|x r IH]; intros seen ->; simpl; [done|].
  rewrite findIndex_is_here. fold (found_first id_key uid_key seen x).
  replace (Z.of_nat (length seen) + 1) with (Z.of_nat (length (seen ++ [x])))
    by (rewrite length_app; simpl; lia).
  rewrite IH by (by rewrite <- app_assoc).
  done.
Qed.

Lemma found_first_spec seen x :
  found_first id_key uid_key seen x = true ↔
  id_key x = uid_key x ∧ uid_key x ∉ map id_key seen.
Proof.
  unfold found_first, strict_eq.
  rewrite andb_true_iff, forallb_forall, bool_decide_eq_true.
  split.
  - intros [Hseen Hx]. split; [done|].
    intros (e & He & Hin)%list_elem_of_fmap.
    apply list_elem_of_In, Hseen in Hin.
    apply negb_true_iff, bool_decide_eq_false in Hin. congruence.
  - intros [Hx Hseen]. split; [|done].
    intros e He%list_elem_of_In. apply negb_true_iff, bool_decide_eq_false.
    intros Heq. apply Hseen, list_elem_of_fmap. eauto.
Qed.

Lemma found_first_mono seen seen' x :
  seen' ⊆ seen →
  found_first id_key uid_key seen x = true →
  found_first id_key uid_key seen' x = true.
Proof.
  rewrite !found_first_spec. intros Hsub [? Hnot]. split; [done|].
  intros (e & He & Hin)%list_elem_of_fmap. apply Hnot, list_elem_of_fmap.
  exists e. split; [done|]. by apply Hsub.
Qed.

Lemma dedup_scan_length seen l :
  (length (dedup_scan id_key uid_key seen l) ≤ length l)%nat.
Proof.
  revert seen. induction l as [|x r IH]; intros seen; simpl; [lia|].
  specialize (IH (seen ++ [x])). destruct (found_first _ _ _ _); simpl; lia.
Qed.

Lemma dedup_scan_elem seen l x :
  x ∈ dedup_scan id_key uid_key seen l →
  x ∈ l ∧ id_key x = uid_key x ∧ uid_key x ∉ map id_key seen.
Proof.
  revert seen. induction l as [|y r IH]; intros seen; simpl.
  - by intros ?%elem_of_nil.
  - destruct (found_first _ _ seen y) eqn:Hy.
    + intros [->|Hin]%elem_of_cons.
      * apply found_first_spec in Hy as [??]. split; [left|done].
      * apply IH in Hin as (? & ? & Hnot). split; [by right|]. split; [done|].
        intros Hin'. apply Hnot. rewrite map_app. apply elem_of_app. by left.
    + intros Hin. apply IH in Hin as (? & ? & Hnot). split; [by right|].
      split; [done|].
      intros Hin'. apply Hnot. rewrite map_app. apply elem_of_app. by left.
Qed.

Lemma dedup_scan_keys_NoDup seen l :
  NoDup (map uid_key (dedup_scan id_key uid_key seen l)).
Proof.
  revert seen. induction l as [|y r IH]; intros seen; simpl; [constructor|].
  destruct (found_first _ _ seen y) eqn:Hy; [|apply IH].
  simpl. apply NoDup_cons. split; [|apply IH].
  intros (z & Hz & Hin)%list_elem_of_fmap.
  apply dedup_scan_elem in Hin as (_ & _ & Hnot). apply Hnot.
  apply found_first_spec in Hy as [Hy _].
  rewrite map_app. apply elem_of_app. right. simpl. rewrite <- Hz, <- Hy. by left.
Qed.

Lemma dedup_scan_idempotent seen seen' l :
  seen' ⊆ seen →
  dedup_scan id_key uid_key seen' (dedup_scan id_key uid_key seen l)
  = dedup_scan id_key uid_key seen l.
Proof.
  revert seen seen'. induction l as [|y r IH]; intros seen seen' Hsub; simpl; [done|].
  destruct (found_first _ _ seen y) eqn:Hy.
  - simpl. rewrite (found_first_mono _ _ _ Hsub Hy). f_equal.
    apply IH. intros z [?|?]%elem_of_app; apply elem_of_app; auto.
  - apply IH. intros z ?. apply elem_of_app; auto.
Qed.

Lemma first_occurrences_ext (key : A → jsval) (met met' : list jsval) l :
  (∀ k, k ∈ met ↔ k ∈ met') →
  first_occurrences key met l = first_occurrences key met' l.
Proof.
  revert met met'. induction l as [|y r IH]; intros met met' Hext; simpl; [done|].
  rewrite (bool_decide_ext _ _ (Hext (key y))).
  destruct (bool_decide (key y ∈ met')); [by apply IH|].
  f_equal. apply IH. intros k. rewrite !elem_of_cons, Hext. done.
Qed.

(** When every event answers to its own key, the pass is the
    first-occurrence filter of the specification. *)
Lemma dedup_scan_first_occurrences seen l :
  Forall (λ x, id_key x = uid_key x) l →
  dedup_scan id_key uid_key seen l
  = first_occurrences uid_key (map id_key seen) l.
Proof.
  revert seen. induction l as [|y r IH]; intros seen Hl; simpl; [done|].
  apply Forall_cons in Hl as [Hy Hr].
  destruct (found_first _ _ seen y) eqn:Hf.
  - apply found_first_spec in Hf as [_ Hnot].
    rewrite bool_decide_eq_false_2 by done. f_equal.
    rewrite IH by done. apply first_occurrences_ext.
    intros k. rewrite map_app, elem_of_app, elem_of_cons. simpl.
    rewrite list_elem_of_singleton, Hy. tauto.
  - assert (uid_key y ∈ map id_key seen) as Hin.
    { destruct (decide (uid_key y ∈ map id_key seen)) as [|Hnot]; [done|].
      assert (found_first id_key uid_key seen y = true) by by apply found_first_spec.
      congruence. }
    rewrite bool_decide_eq_true_2 by done.
    rewrite IH by done. apply first_occurrences_ext.
    intros k. rewrite map_app, elem_of_app. simpl.
    rewrite list_elem_of_singleton, Hy. split; [|by left].
    intros [?| ->]; done.
Qed.
End dedup_facts.

Lemma uniqueEvents_scan (h : heap) (allEvents : list loc) :
  uniqueEvents h allEvents = dedup_scan (id_or_uid h) (uid_or_id h) [] allEvents.
Proof.
  unfold uniqueEvents, array_filter.
  by rewrite <- (array_filter_dedup_scan _ _ allEvents [] allEvents).
Qed.

(** On events whose two keys agree (each carries only one of [id] and
    [uid], or the same value in both), the filter keeps the first event of
    each key and nothing else. *)
Lemma uniqueEvents_first_occurrences (h : heap) (allEvents : list loc) :
  Forall (λ e, id_or_uid h e = uid_or_id h e) allEvents →
  uniqueEvents h allEvents = first_occurrences (uid_or_id h) [] allEvents.
Proof.
  intros Hagree. rewrite uniqueEvents_scan.
  by rewrite dedup_scan_first_occurrences.
Qed.

(** C1: an event that carries an [id] and a different [uid], alone in the
    input and so without any earlier duplicate, is not kept by the filter,
    whereas keeping the first occurrence of each key keeps it. *)
Theorem uniqueEvents_drops_unique_event :
  uniqueEvents Scenario.both_keys [0%nat] = []
  ∧ first_occurrences (uid_or_id Scenario.both_keys) [] [0%nat] = [0%nat].
Proof. split; vm_compute; reflexivity. Qed.

(** C8: the uniqueness filter is idempotent, never returns more events than
    it was given, and no two events it keeps have the same key. *)
Theorem uniqueEvents_idempotent (h : heap) (allEvents : list loc) :
  uniqueEvents h (uniqueEvents h allEvents) = uniqueEvents h allEvents
  ∧ (length (uniqueEvents h allEvents) ≤ length allEvents)%nat
  ∧ NoDup (map (uid_or_id h) (uniqueEvents h allEvents)).
Proof.
  rewrite !uniqueEvents_scan. split; [|split].
  - by apply dedup_scan_idempotent.
  - apply dedup_scan_length.
  - apply dedup_scan_keys_NoDup.
Qed.

(** ** Default configuration *)

Lemma defaults_lookup (k : string) (v : jsval) :
  defaults !! k = Some v → (k, v) ∈ defaults_table.
Proof. apply elem_of_list_to_map_2. Qed.

(** C9, as the table has it: [numberOfDays] is 7, [eventsLimit] is 99, both
    ignore patterns are the empty string, and a boolean field is [false]
    unless it is [showLocationIcon], which is [true]. *)
Theorem defaults_values :
  defaults !! "numberOfDays"%string = Some (JNum 7)
  ∧ defaults !! "eventsLimit"%string = Some (JNum 99)
  ∧ defaults !! "ignoreEventsExpression"%string = Some (JStr "")
  ∧ defaults !! "ignoreEventsByLocationExpression"%string = Some (JStr "")
  ∧ ∀ k b, defaults !! k = Some (JBool b) →
           b = bool_decide (k = "showLocationIcon"%string).
Proof.
  repeat split; try (vm_compute; reflexivity).
  intros k b Hk%defaults_lookup. unfold defaults_table in Hk.
  repeat (apply elem_of_cons in Hk as [Hk|Hk]; [by inversion Hk|]).
  by apply elem_of_nil in Hk.
Qed.

Lemma defaults_values_witness :
  false = bool_decide ("hidePastEvents"%string = "showLocationIcon"%string).
Proof.
  apply (proj2 (proj2 (proj2 (proj2 defaults_values))) "hidePastEvents"%string false).
  vm_compute. reflexivity.
Defined.

(** C9 as stated fails: one boolean field of the table is not [false]. *)
Lemma defaults_not_all_false :
  ¬ (∀ k b, defaults !! k = Some (JBool b) → b = false).
Proof.
  intros H. specialize (H "showLocationIcon"%string true).
  discriminate H. vm_compute. reflexivity.
Qed.

(** ** Sorter and Grouper: grouping *)

Section findIndex_facts.
Context {A : Type}.
Implicit Types (p : A → bool) (l : list A).

Lemma findIndex_from_found p l i n :
  0 ≤ i → findIndex_from p l i = n → -1 < n →
  ∃ l1 x l2, l = l1 ++ x :: l2 ∧ n = i + Z.of_nat (length l1)
             ∧ p x = true ∧ Forall (λ y, p y = false) l1.
Proof.
  revert i. induction l as [|y l IH]; intros i Hi Hn Hpos; simpl in *; [lia|].
  destruct (p y) eqn:Hy.
  - exists [], y, l. simpl. repeat split; [lia|done|constructor].
  - destruct (IH (i + 1)) as (l1 & x & l2 & -> & -> & Hx & Hl1); [lia|done|done|].
    exists (y :: l1), x, l2. simpl. repeat split; [lia|done|by constructor].
Qed.

Lemma findIndex_found p l :
  -1 < findIndex p l →
  ∃ l1 x l2, l = l1 ++ x :: l2 ∧ Z.to_nat (findIndex p l) = length l1
             ∧ p x = true ∧ Forall (λ y, p y = false) l1.
Proof.
  intros Hpos.
  destruct (findIndex_from_found p l 0 _ ltac:(lia) eq_refl Hpos)
    as (l1 & x & l2 & Hl & Hn & Hx & Hl1).
  exists l1, x, l2. unfold findIndex in *. repeat split; [done|lia|done|done].
Qed.

End findIndex_facts.

Section grouping.
Variable h : heap.
Implicit Types (e : CalendarEvent) (g : DayGroup).

Lemma group_step_found (groups1 groups2 : list DayGroup) g e :
  day g = day_of h e →
  Forall (λ g', day g' ≠ day_of h e) groups1 →
  group_step h (groups1 ++ g :: groups2) e = groups1 ++ push_event e g :: groups2.
Proof.
  intros Hg Hbefore. unfold group_step. fold (day_of h e).
  set (p := λ group, String.eqb (day group) (day_of h e)).
  assert (findIndex p (groups1 ++ g :: groups2) = Z.of_nat (length groups1)) as ->.
  { symmetry. apply Z.eqb_eq. rewrite findIndex_is_here. apply andb_true_intro. split.
    - apply forallb_forall. intros g' Hin%list_elem_of_In.
      rewrite Forall_forall in Hbefore. apply negb_true_iff, String.eqb_neq.
      by apply Hbefore.
    - by apply String.eqb_eq. }
  replace (-1 <? Z.of_nat (length groups1)) with true by (symmetry; apply Z.ltb_lt; lia).
  rewrite Nat2Z.id.
  rewrite <- (Nat.add_0_r (length groups1)). by rewrite alter_app_r.
Qed.

Lemma group_step_new (groups : list DayGroup) e :
  Forall (λ g', day g' ≠ day_of h e) groups →
  group_step h groups e = groups ++ [mkGroup (day_of h e) [e]].
Proof.
  intros Hnone. unfold group_step. fold (day_of h e).
  set (p := λ group, String.eqb (day group) (day_of h e)).
  destruct (-1 <? findIndex p groups) eqn:Hidx; [|done].
  apply Z.ltb_lt, findIndex_found in Hidx as (l1 & x & l2 & -> & _ & Hx & _).
  apply String.eqb_eq in Hx. rewrite Forall_forall in Hnone.
  exfalso. apply (Hnone x); [|done]. apply elem_of_app. right. left.
Qed.

Lemma grouped_step processed groups e :
  grouped h processed groups →
  grouped h (processed ++ [e]) (group_step h groups e).
Proof.
  intros (Hdup & Hall & Hcover).
  destruct (decide (day_of h e ∈ map day groups)) as [Hin|Hnew].
  - apply list_elem_of_fmap in Hin as (g & Hg & Hin).
    apply list_elem_of_split in Hin as (groups1 & groups2 & ->).
    rewrite map_app in Hdup. simpl in Hdup.
    apply NoDup_app in Hdup as (Hdup1 & Hsep & Hdup2).
    apply NoDup_cons in Hdup2 as [Hg2 Hdup2].
    assert (Forall (λ g', day g' ≠ day_of h e) groups1) as Hbefore.
    { apply Forall_forall. intros g' Hg' Heq. apply (Hsep (day g')).
      - apply list_elem_of_fmap. eauto.
      - rewrite Heq, Hg. left. }
    assert (Forall (λ g', day g' ≠ day_of h e) groups2) as Hafter.
    { apply Forall_forall. intros g' Hg' Heq. apply Hg2. rewrite <- Hg, <- Heq.
      apply list_elem_of_fmap. eauto. }
    rewrite group_step_found by done.
    apply Forall_app in Hall as [Hall1 Hall2].
    apply Forall_cons in Hall2 as [[Hevs Hne] Hall2].
    assert (∀ gs, Forall (λ g', day g' ≠ day_of h e) gs →
              Forall (λ g', events g' = filter (λ e', day_of h e' = day g') processed
                            ∧ events g' ≠ []) gs →
              Forall (λ g', events g' = filter (λ e', day_of h e' = day g') (processed ++ [e])
                            ∧ events g' ≠ []) gs) as Hkeep.
    { intros gs Hd Hf. rewrite Forall_forall in *. intros g' Hg'.
      destruct (Hf g' Hg') as [-> ?]. split; [|done].
      rewrite filter_app, filter_cons_False, filter_nil, app_nil_r; [done|].
      intros Heq. by apply (Hd g' Hg'). }
    split; [|split].
    + rewrite map_app. simpl. rewrite map_app in *. simpl in *.
      apply NoDup_app. split; [done|]. split; [done|]. by apply NoDup_cons.
    + apply Forall_app. split; [by apply Hkeep|].
      apply Forall_cons. split; [|by apply Hkeep].
      simpl. split.
      * rewrite Hevs, filter_app, filter_cons_True by done. done.
      * by intros []%app_eq_nil.
    + intros e' [He'| ->%list_elem_of_singleton]%elem_of_app.
      * specialize (Hcover e' He'). by rewrite !map_app in *.
      * rewrite map_app. apply elem_of_app. right. simpl. rewrite Hg. left.
  - assert (Forall (λ g', day g' ≠ day_of h e) groups) as Hnone.
    { apply Forall_forall. intros g' Hg' Heq. apply Hnew. rewrite <- Heq.
      apply list_elem_of_fmap. eauto. }
    rewrite group_step_new by done.
    split; [|split].
    + rewrite map_app. simpl. apply NoDup_app. split; [done|]. split.
      * intros d Hd ->%list_elem_of_singleton. done.
      * apply NoDup_singleton.
    + apply Forall_app. split.
      * rewrite Forall_forall in *. intros g' Hg'.
        destruct (Hall g' Hg') as [-> ?]. split; [|done].
        rewrite filter_app, filter_cons_False, filter_nil, app_nil_r; [done|].
        intros Heq. by apply (Hnone g' Hg').
      * apply Forall_singleton. simpl. split; [|done].
        rewrite filter_app, filter_cons_True, filter_nil by done.
        assert (filter (λ e', day_of h e' = day_of h e) processed = []) as ->; [|done].
        destruct (filter _ processed) as [|e' ?] eqn:Hf; [done|].
        assert (e' ∈ filter (λ e', day_of h e' = day_of h e) processed) as Hin
          by (rewrite Hf; left).
        apply list_elem_of_filter in Hin as [Heq Hin]. apply Hcover in Hin.
        rewrite Heq in Hin. done.
    + intros e' [He'| ->%list_elem_of_singleton]%elem_of_app;
        rewrite map_app; apply elem_of_app; [left; auto|right; left].
Qed.

Lemma grouped_fold processed groups events_ :
  grouped h processed groups →
  grouped h (processed ++ events_) (fold_left (group_step h) events_ groups).
Proof.
  revert processed groups. induction events_ as [|e events_ IH];
    intros processed groups Hg; simpl.
  - by rewrite app_nil_r.
  - replace (processed ++ e :: events_) with ((processed ++ [e]) ++ events_)
      by (by rewrite <- app_assoc).
    apply IH. by apply grouped_step.
Qed.

(** The groups hold one entry per date, each with all the events of that
    date, in input order. *)
Lemma groupedEvents_grouped events_ : grouped h events_ (groupedEvents h events_).
Proof.
  apply (grouped_fold [] [] events_). split; [constructor|]. split; [constructor|].
  by intros e ?%elem_of_nil.
Qed.
End grouping.

(** ** Sorter and Grouper: the events limit *)

Lemma count_events_cons (g : DayGroup) (groups : list DayGroup) :
  count_events (g :: groups) = Z.of_nat (length (events g)) + count_events groups.
Proof. done. Qed.

Lemma count_events_nil : count_events [] = 0.
Proof. done. Qed.

#[local] Arguments count_events : simpl never.

Lemma filter_Boolean_undefined {A : Type} (l : list (option A)) :
  filter_Boolean (None :: l) = filter_Boolean l.
Proof. done. Qed.

Lemma filter_Boolean_object {A : Type} (x : A) (l : list (option A)) :
  filter_Boolean (Some x :: l) = x :: filter_Boolean l.
Proof. done. Qed.

#[local] Arguments filter_Boolean : simpl never.

Lemma limit_map_maxed (limit : Z) (groups : list DayGroup) (n : Z) :
  filter_Boolean (limit_map limit groups n true) = [].
Proof.
  induction groups as [|g groups IH]; simpl; [done|].
  by rewrite filter_Boolean_undefined.
Qed.

(** Days are kept from the front: the result is a prefix of the groups. *)
Lemma limit_map_prefix (limit : Z) (groups : list DayGroup) (n : Z) (maxed : bool) :
  ∃ dropped, groups = filter_Boolean (limit_map limit groups n maxed) ++ dropped.
Proof.
  revert n maxed. induction groups as [|g groups IH]; intros n maxed; simpl.
  - by exists [].
  - destruct maxed.
    + rewrite filter_Boolean_undefined, limit_map_maxed. by exists (g :: groups).
    + destruct (IH (n + Z.of_nat (length (events g)))
                   (limit <? n + Z.of_nat (length (events g)))) as [dropped Hd].
      exists dropped. rewrite filter_Boolean_object. simpl. by rewrite <- Hd.
Qed.

(** The first day that takes the running total over the limit ends the
    result. *)
Lemma limit_map_cut (limit : Z) (before : list DayGroup) (g : DayGroup)
    (after : list DayGroup) (n : Z) :
  (∀ b1 b2, before = b1 ++ b2 → b1 ≠ [] → n + count_events b1 ≤ limit) →
  limit < n + count_events (before ++ [g]) →
  filter_Boolean (limit_map limit (before ++ g :: after) n false) = before ++ [g].
Proof.
  revert n. induction before as [|b before IH]; intros n Hbefore Hover; simpl.
  - simpl in Hover. rewrite count_events_cons, count_events_nil in Hover.
    replace (limit <? n + Z.of_nat (length (events g))) with true
      by (symmetry; apply Z.ltb_lt; lia).
    by rewrite filter_Boolean_object, limit_map_maxed.
  - assert (n + Z.of_nat (length (events b)) ≤ limit) as Hb.
    { specialize (Hbefore [b] before eq_refl ltac:(done)).
      rewrite count_events_cons, count_events_nil in Hbefore. lia. }
    replace (limit <? n + Z.of_nat (length (events b))) with false
      by (symmetry; apply Z.ltb_ge; lia).
    rewrite filter_Boolean_object. f_equal.
    apply IH.
    + intros b1 b2 -> Hne.
      specialize (Hbefore (b :: b1) b2 eq_refl ltac:(done)).
      rewrite count_events_cons in Hbefore. lia.
    + simpl in Hover. rewrite count_events_cons in Hover. lia.
Qed.

(** When no day takes the running total over the limit, every day is kept. *)
Lemma limit_map_all (limit : Z) (groups : list DayGroup) (n : Z) :
  (∀ b1 b2, groups = b1 ++ b2 → b1 ≠ [] → n + count_events b1 ≤ limit) →
  filter_Boolean (limit_map limit groups n false) = groups.
Proof.
  revert n. induction groups as [|b groups IH]; intros n Hall; simpl; [done|].
  assert (n + Z.of_nat (length (events b)) ≤ limit) as Hb.
  { specialize (Hall [b] groups eq_refl ltac:(done)).
    rewrite count_events_cons, count_events_nil in Hall. lia. }
  replace (limit <? n + Z.of_nat (length (events b))) with false
    by (symmetry; apply Z.ltb_ge; lia).
  rewrite filter_Boolean_object. f_equal.
  apply IH. intros b1 b2 -> Hne.
  specialize (Hall (b :: b1) b2 eq_refl ltac:(done)).
  rewrite count_events_cons in Hall. lia.
Qed.

(** C3: the limit is enforced on whole days.  Walking the day groups in
    order, the first day whose inclusion takes the running total strictly
    over [eventsLimit] is the last one kept; when no day does, all are kept;
    every kept day holds all the input events of its date; and the result is
    a prefix of the day groups, so nothing follows a dropped day. *)
Theorem groupEventsByDay_day_atomic (h : heap) (events_ : list CalendarEvent)
    (config : Config) :
  (∀ before g after,
      groupedEvents h events_ = before ++ g :: after →
      (∀ b1 b2, before = b1 ++ b2 → b1 ≠ [] → count_events b1 ≤ eventsLimit config) →
      eventsLimit config < count_events (before ++ [g]) →
      groupEventsByDay h events_ config = before ++ [g])
  ∧ ((∀ b1 b2, groupedEvents h events_ = b1 ++ b2 → b1 ≠ [] →
               count_events b1 ≤ eventsLimit config) →
     groupEventsByDay h events_ config = groupedEvents h events_)
  ∧ (∀ g, g ∈ groupEventsByDay h events_ config →
          events g = filter (λ e, day_of h e = day g) events_)
  ∧ ∃ dropped, groupedEvents h events_ = groupEventsByDay h events_ config ++ dropped.
Proof.
  unfold groupEventsByDay. split; [|split; [|split]].
  - intros before g after -> Hbefore Hover. apply limit_map_cut.
    + intros b1 b2 Hb Hne. specialize (Hbefore b1 b2 Hb Hne). lia.
    + lia.
  - intros Hall. apply limit_map_all.
    intros b1 b2 Hb Hne. specialize (Hall b1 b2 Hb Hne). lia.
  - intros g Hg.
    destruct (limit_map_prefix (eventsLimit config) (groupedEvents h events_) 0 false)
      as [dropped Hd].
    destruct (groupedEvents_grouped h events_) as (_ & Hall & _).
    rewrite Forall_forall in Hall. apply (Hall g).
    rewrite Hd. apply elem_of_app. by left.
  - apply limit_map_prefix.
Qed.

(** C2, as the code runs it: with [{numberOfDays: 3, eventsLimit: 2}], two
    events on one day followed by one event on another day give both days,
    the first with its two events and the second with its one: the total
    reaches 2 after the first day, which does not exceed the limit. *)
Theorem groupEventsByDay_two_then_one (h : heap) (e1 e2 e3 : CalendarEvent)
    (config : Config) :
  numberOfDays config = 3 →
  eventsLimit config = 2 →
  day_of h e2 = day_of h e1 →
  day_of h e3 ≠ day_of h e1 →
  groupEventsByDay h [e1; e2; e3] config
  = [mkGroup (day_of h e1) [e1; e2]; mkGroup (day_of h e3) [e3]].
Proof.
  intros _ Hlimit H2 H3. unfold groupEventsByDay, groupedEvents. cbn [fold_left].
  rewrite (group_step_new h [] e1) by constructor. cbn [app].
  pose proof (group_step_found h [] [] (mkGroup (day_of h e1) [e1]) e2
                (eq_sym H2) (Forall_nil_2 _)) as Hstep.
  cbn [app] in Hstep. rewrite Hstep.
  unfold push_event. cbn [app events day].
  rewrite (group_step_new h [mkGroup (day_of h e1) [e1; e2]] e3)
    by (apply Forall_singleton; cbn [day]; congruence).
  rewrite Hlimit. reflexivity.
Qed.

Lemma groupEventsByDay_two_then_one_witness :
  groupEventsByDay Scenario.two_days Scenario.three_events Scenario.days3_limit2
  = [mkGroup "2024-01-01" [new_CalendarEvent 0%nat; new_CalendarEvent 1%nat];
     mkGroup "2024-01-02" [new_CalendarEvent 2%nat]].
Proof.
  apply (groupEventsByDay_two_then_one Scenario.two_days
           (new_CalendarEvent 0%nat) (new_CalendarEvent 1%nat) (new_CalendarEvent 2%nat)
           Scenario.days3_limit2).
  - reflexivity.
  - reflexivity.
  - vm_compute. reflexivity.
  - vm_compute. intros H. discriminate H.
Defined.

(** C2 as stated fails: on that input the second day is part of the
    result. *)
Lemma groupEventsByDay_second_day_kept :
  groupEventsByDay Scenario.two_days Scenario.three_events Scenario.days3_limit2
  ≠ [mkGroup "2024-01-01" [new_CalendarEvent 0%nat; new_CalendarEvent 1%nat]].
Proof. vm_compute. intros H. discriminate H. Qed.

Lemma groupEventsByDay_day_atomic_witness :
  groupEventsByDay Scenario.three_days Scenario.four_events Scenario.days3_limit2
  = [mkGroup "2024-01-01" [new_CalendarEvent 0%nat; new_CalendarEvent 1%nat]]
    ++ [mkGroup "2024-01-02" [new_CalendarEvent 2%nat]].
Proof.
  apply (proj1 (groupEventsByDay_day_atomic Scenario.three_days Scenario.four_events
                  Scenario.days3_limit2)
           [mkGroup "2024-01-01" [new_CalendarEvent 0%nat; new_CalendarEvent 1%nat]]
           (mkGroup "2024-01-02" [new_CalendarEvent 2%nat])
           [mkGroup "2024-01-03" [new_CalendarEvent 3%nat]]).
  - vm_compute. reflexivity.
  - intros [|b [|b' b1]] b2 Hb Hne; [done| |].
    + injection Hb as <- _. vm_compute. intros H. discriminate H.
    + discriminate Hb.
  - vm_compute. reflexivity.
Defined.

(** ** Sorter *)

Section array_sort_facts.
Context {A : Type}.
Variable engine : sort_engine.

Lemma insert_from_right_Permutation (comparefn : A → A → Z) (x : A) (prefix_rev : list A) :
  insert_from_right engine comparefn x prefix_rev ≡ₚ x :: prefix_rev.
Proof.
  induction prefix_rev as [|y rest IH]; simpl; [done|].
  destruct (passes_left _ _ _ _); [|done].
  rewrite IH. apply Permutation_swap.
Qed.

Lemma array_sort_Permutation (comparefn : A → A → Z) (l : list A) :
  array_sort engine comparefn l ≡ₚ l.
Proof.
  unfold array_sort. rewrite reverse_Permutation.
  assert (∀ acc, fold_left (λ prefix_rev x, insert_from_right engine comparefn x prefix_rev)
                   l acc ≡ₚ l ++ acc) as Hfold.
  { induction l as [|x l IH]; intros acc; simpl; [done|].
    rewrite IH, insert_from_right_Permutation. by rewrite Permutation_middle. }
  by rewrite Hfold, app_nil_r.
Qed.

Lemma elem_of_array_sort (comparefn : A → A → Z) (l : list A) (x : A) :
  x ∈ array_sort engine comparefn l ↔ x ∈ l.
Proof. by rewrite array_sort_Permutation. Qed.

(** The comparator of [processEvents], over any integer key. *)
Variable key : A → Z.

Lemma passes_left_le (x y : A) :
  passes_left engine (before_or_after key) x y = true → key x ≤ key y.
Proof.
  unfold passes_left, before_or_after. destruct engine.
  - destruct (key x <? key y) eqn:H; [apply Z.ltb_lt in H; lia|done].
  - destruct (key y <? key x) eqn:H; [done|apply Z.ltb_ge in H; lia].
Qed.

Lemma stays_right_le (x y : A) :
  passes_left engine (before_or_after key) x y = false → key y ≤ key x.
Proof.
  unfold passes_left, before_or_after. destruct engine.
  - destruct (key x <? key y) eqn:H; [done|apply Z.ltb_ge in H; lia].
  - destruct (key y <? key x) eqn:H; [apply Z.ltb_lt in H; lia|done].
Qed.

Lemma insert_from_right_descending (x : A) (prefix_rev : list A) :
  StronglySorted (λ a b, key b ≤ key a) prefix_rev →
  StronglySorted (λ a b, key b ≤ key a)
    (insert_from_right engine (before_or_after key) x prefix_rev).
Proof.
  induction 1 as [|y rest Hrest IH Hy]; simpl.
  - repeat constructor.
  - destruct (passes_left _ _ x y) eqn:Hpass.
    + apply passes_left_le in Hpass. constructor; [done|].
      rewrite insert_from_right_Permutation. by constructor.
    + apply stays_right_le in Hpass. constructor; [by constructor|].
      constructor; [done|].
      eapply Forall_impl; [exact Hy|]. simpl. intros; lia.
Qed.

Lemma StronglySorted_reverse (R : relation A) (l : list A) :
  StronglySorted R l → StronglySorted (flip R) (reverse l).
Proof.
  induction 1 as [|x l Hl IH Hx]; [constructor|].
  rewrite reverse_cons. apply StronglySorted_app_2; [|done|repeat constructor].
  intros a b Ha ->%list_elem_of_singleton. rewrite elem_of_reverse in Ha.
  rewrite Forall_forall in Hx. unfold flip. by apply Hx.
Qed.

(** Whatever the engine, the result is in ascending order of the key. *)
Lemma array_sort_ascending (l : list A) :
  StronglySorted (λ a b, key a ≤ key b) (array_sort engine (before_or_after key) l).
Proof.
  unfold array_sort.
  apply (StronglySorted_reverse (λ a b, key b ≤ key a)).
  generalize (SSorted_nil (λ a b : A, key b ≤ key a)).
  generalize (@nil A). induction l as [|x l IH]; intros acc Hacc; simpl; [done|].
  apply IH. by apply insert_from_right_descending.
Qed.
End array_sort_facts.

(** An engine that moves an element left only on a negative answer leaves
    events with equal keys in their original order. *)
Lemma array_sort_stable_on_negative {A : Type} (key : A → Z) (l : list A) (k : Z) :
  filter (λ a, key a = k)
    (array_sort MovesLeftOnNegative (before_or_after key) l)
  = filter (λ a, key a = k) l.
Proof.
  set (cmp := before_or_after key).
  assert (∀ x pr, filter (λ a, key a = k) (insert_from_right MovesLeftOnNegative cmp x pr)
                  = filter (λ a, key a = k) (x :: pr)) as Hins.
  { intros x pr. induction pr as [|y rest IH]; simpl; [done|].
    unfold cmp at 1, before_or_after. destruct (key x <? key y) eqn:Hlt; simpl; [|done].
    apply Z.ltb_lt in Hlt.
    rewrite (filter_cons _ y), IH, !(filter_cons _ x), (filter_cons _ y).
    repeat case_decide; (done || lia). }
  unfold array_sort. rewrite filter_reverse.
  assert (∀ acc, filter (λ a, key a = k)
                   (fold_left (λ prefix_rev x, insert_from_right MovesLeftOnNegative cmp x prefix_rev)
                      l acc)
                 = reverse (filter (λ a, key a = k) l) ++ filter (λ a, key a = k) acc)
    as Hfold.
  { induction l as [|x l IH]; intros acc; simpl; [done|].
    rewrite IH, Hins, !filter_cons. case_decide.
    - by rewrite reverse_cons, <- app_assoc.
    - done. }
  by rewrite Hfold, filter_nil, app_nil_r, reverse_involutive.
Qed.

(** ** The monad *)

Lemma ret_Returned {A : Type} (a a' : A) (s s' : State) :
  mret (M := M) a s = Returned a' s' ↔ a' = a ∧ s' = s.
Proof. unfold mret, M_ret. split; [by intros [= -> ->]|by intros [-> ->]]. Qed.

Lemma bind_Returned {A B : Type} (m : M A) (f : A → M B) (s : State) (b : B)
    (s'' : State) :
  (m ≫= f) s = Returned b s'' ↔
  ∃ a s', m s = Returned a s' ∧ f a s' = Returned b s''.
Proof.
  unfold mbind, M_bind. destruct (m s) as [a s'|e s']; split.
  - intros H. by exists a, s'.
  - by intros (a' & s1 & [= -> ->] & H).
  - done.
  - by intros (a' & s1 & [=] & _).
Qed.

Lemma returns_ret {A : Type} (a : A) : returns (mret (M := M) a).
Proof. intros s. by exists a, s. Qed.

Lemma returns_bind {A B : Type} (m : M A) (f : A → M B) :
  returns m → (∀ a, returns (f a)) → returns (m ≫= f).
Proof.
  intros Hm Hf s. destruct (Hm s) as (a & s' & Ha). destruct (Hf a s') as (b & s'' & Hb).
  exists b, s''. apply bind_Returned. eauto.
Qed.

(** A loop invariant for [reduce]: [I done acc s] relates the elements
    gone through, the accumulator and the state. *)
Lemma reduceM_Returned {A B : Type} (f : B → A → M B) (l : list A) (acc : B)
    (s : State) (I : list A → B → State → Prop) :
  I [] acc s →
  (∀ done x acc s acc' s',
      I done acc s → f acc x s = Returned acc' s' → I (done ++ [x]) acc' s') →
  ∀ acc' s', reduceM f l acc s = Returned acc' s' → I l acc' s'.
Proof.
  intros Hinit Hstep.
  assert (∀ done acc s acc' s',
            I done acc s → reduceM f l acc s = Returned acc' s' → I (done ++ l) acc' s')
    as Hgen; [|intros acc' s' Hrun; exact (Hgen [] acc s acc' s' Hinit Hrun)].
  clear Hinit. induction l as [|x l IH]; intros done acc0 s0 acc' s' HI Hrun;
    simpl in Hrun.
  - apply ret_Returned in Hrun as [-> ->]. by rewrite app_nil_r.
  - apply bind_Returned in Hrun as (acc1 & s1 & Hx & Hrun).
    replace (done ++ x :: l) with ((done ++ [x]) ++ l) by (by rewrite <- app_assoc).
    eapply IH; [|exact Hrun]. by eapply Hstep.
Qed.

Lemma returns_reduceM {A B : Type} (f : B → A → M B) (l : list A) (acc : B) :
  (∀ acc x, returns (f acc x)) → returns (reduceM f l acc).
Proof.
  intros Hf. revert acc. induction l as [|x l IH]; intros acc; simpl.
  - apply returns_ret.
  - apply returns_bind; [apply Hf|]. intros acc'. apply IH.
Qed.

Lemma get_heap_Returned (s : State) (h : heap) (s' : State) :
  get_heap s = Returned h s' ↔ h = heap_of s ∧ s' = s.
Proof. unfold get_heap. split; [by intros [= <- <-]|by intros [-> ->]]. Qed.

(** ** Stores *)

Lemma lookup_total_Some (h : heap) (l : loc) (r : RawEvent) :
  h !! l = Some r → h !!! l = r.
Proof. intros H. by rewrite lookup_total_alt, H. Qed.

Section evolves_facts.
Variable config : Config.

Lemma evolves_refl (h : heap) : evolves config h h.
Proof. intros l r ?. by left. Qed.

Lemma evolves_trans (h1 h2 h3 : heap) :
  evolves config h1 h2 → evolves config h2 h3 → evolves config h1 h3.
Proof.
  intros H12 H23 l r Hl. destruct (H12 l r Hl) as [H2|H2].
  - by apply H23.
  - destruct (H23 _ _ H2) as [H3|H3]; [by right|]. right. by rewrite H3.
Qed.

Lemma evolves_None (h h' : heap) (l : loc) :
  evolves config h h' → h' !! l = None → h !! l = None.
Proof.
  intros Hev Hl. destruct (h !! l) as [r|] eqn:Hr; [|done].
  destruct (Hev l r Hr); congruence.
Qed.

Lemma evolves_assign (h : heap) (l : loc) :
  evolves config h
    (<[l := Raw.with_originCalendar (h !!! l) (origin_of config (h !!! l))]> h).
Proof.
  intros l' r Hl'. destruct (decide (l = l')) as [->|Hne].
  - right. rewrite lookup_insert_eq. by rewrite (lookup_total_Some _ _ _ Hl').
  - left. by rewrite lookup_insert_ne.
Qed.

(** An assigned [originCalendar] stays. *)
Lemma evolves_assigned (h h' : heap) (l : loc) (r : RawEvent) :
  evolves config h h' →
  h !! l = Some (Raw.with_originCalendar r (origin_of config r)) →
  h' !! l = Some (Raw.with_originCalendar r (origin_of config r)).
Proof. intros Hev Hl. destruct (Hev _ _ Hl) as [H|H]; by rewrite H. Qed.

Lemma evolves_startDateTime (h h' : heap) (e : CalendarEvent) :
  evolves config h h' → is_Some (h !! rawEvent e) →
  startDateTime h' e = startDateTime h e.
Proof.
  intros Hev [r Hr]. unfold startDateTime.
  rewrite (lookup_total_Some _ _ _ Hr).
  destruct (Hev _ _ Hr) as [H|H]; by rewrite (lookup_total_Some _ _ _ H).
Qed.

Lemma evolves_occurrence (clock : nat → moment) (h0 h h' : heap) (e : CalendarEvent) :
  evolves config h h' →
  occurrence clock config h0 h e → occurrence clock config h0 h' e.
Proof.
  intros Hev (Hnew & r & i & k & Hr & Hi & Hrange & Hn & Hstart).
  split; [done|].
  assert (startDateTime h' e = startDateTime h e) as Hsame
    by (by apply evolves_startDateTime).
  destruct (Hev _ _ Hr) as [H|H].
  - exists r, i, k. by rewrite Hsame.
  - exists (Raw.with_originCalendar r (origin_of config r)), i, k. by rewrite Hsame.
Qed.

Lemma occurrence_older (clock : nat → moment) (h0 h1 h : heap) (e : CalendarEvent) :
  evolves config h0 h1 →
  occurrence clock config h1 h e → occurrence clock config h0 h e.
Proof. intros Hev [Hnew Hocc]. split; [by eapply evolves_None|done]. Qed.
End evolves_facts.

(** ** The span of a multi-day event *)

Lemma hour_add_days (m : moment) (j : Z) : hour (add_days m j) = hour m.
Proof. unfold hour, add_days. by rewrite Z_mod_plus_full. Qed.

Lemma minutes_add_days (m : moment) (j : Z) : minutes (add_days m j) = minutes m.
Proof.
  unfold minutes, add_days.
  replace (m + j * DAY) with (m + (j * 24) * HOUR) by (unfold DAY, HOUR; lia).
  by rewrite Z_mod_plus_full.
Qed.

Lemma diff_days_add_days (a b : moment) (j : Z) :
  diff_days (add_days a j) (add_days b j) = diff_days a b.
Proof. unfold diff_days, add_days. f_equal. lia. Qed.

(** The count computed at lines 165-169 depends on the raw start and end
    only. *)
Lemma daysLong_of_span (h : heap) (newEvent : CalendarEvent) :
  daysLong_of h newEvent = span_days (h !!! rawEvent newEvent).
Proof.
  unfold daysLong_of, span_days, ends_at_midnight, startDateTime, endDateTime, shifted.
  destruct (Raw.addDays (h !!! rawEvent newEvent)) as [j|].
  - rewrite hour_add_days, minutes_add_days, diff_days_add_days.
    destruct (_ && _); lia.
  - destruct (_ && _); lia.
Qed.

Lemma span_days_copy (r : RawEvent) (i n : Z) :
  span_days (Raw.with_addDays (Raw.JSON_copy r) i n) = span_days r.
Proof. done. Qed.

(** A pure all-day event ends at midnight. *)
Lemma isAllDay_ends_at_midnight (r : RawEvent) :
  isAllDay r = true → ends_at_midnight r = true.
Proof.
  unfold isAllDay, ends_at_midnight.
  destruct (Raw.start r); [|done]. destruct (Raw.end_ r) as [d|]; [|done].
  intros _. simpl. unfold hour, minutes.
  replace (d * DAY) with (0 + (d * 24) * HOUR) at 2 by (unfold DAY, HOUR; lia).
  rewrite Z_mod_mult, Z_mod_plus_full. done.
Qed.

(** ** processEvents: what a run does *)

Lemma assign_originCalendar_Returned (l : loc) (o : option EntityDescriptor)
    (s : State) (u : unit) (s' : State) :
  assign_originCalendar l o s = Returned u s' →
  s' = mkState (<[l := Raw.with_originCalendar (heap_of s !!! l) o]> (heap_of s)) (ticks s).
Proof. unfold assign_originCalendar. by intros [= _ <-]. Qed.

Lemma find_origin_Returned (config : Config) (r : RawEvent) (s : State)
    (o : option EntityDescriptor) (s' : State) :
  find_origin config r s = Returned o s' →
  o = origin_of config r ∧ s' = s.
Proof.
  unfold find_origin. destruct (Raw.entity r), (entities config); try discriminate;
    by intros [= <- <-].
Qed.

Lemma alloc_Returned (r : RawEvent) (s : State) (l : loc) (s' : State) :
  alloc r s = Returned l s' →
  l = fresh (dom (heap_of s)) ∧ s' = mkState (<[l := r]> (heap_of s)) (ticks s).
Proof. unfold alloc. by intros [= <- <-]. Qed.

Section pipeline_facts.
Variable clock : nat → moment.
Variable RegExp_i : string → option (string → bool).
Variable engine : sort_engine.
Variable config : Config.

Lemma moment_now_Returned (s : State) (t : moment) (s' : State) :
  moment_now clock s = Returned t s' →
  t = clock (ticks s) ∧ s' = mkState (heap_of s) (S (ticks s)).
Proof. unfold moment_now. by intros [= <- <-]. Qed.

Lemma ignored_by_Returned (pattern : string) (text : option string) (s : State)
    (b : bool) (s' : State) :
  ignored_by RegExp_i pattern text s = Returned b s' → s' = s.
Proof.
  unfold ignored_by. destruct (_ && _).
  - intros (regex & s1 & Hre & Hret)%bind_Returned.
    apply ret_Returned in Hret as [_ ->].
    unfold new_RegExp in Hre. destruct (RegExp_i pattern); by inversion Hre.
  - by intros [_ ->]%ret_Returned.
Qed.

(** The loop of the expansion only allocates; every occurrence it adds is
    a stamped copy of the source record that starts before [endDate]. *)
Lemma expand_spec (newEvent : CalendarEvent) (n : Z) (endDate : moment)
    (indices : list Z) (partialEvents : list CalendarEvent) (s : State)
    (r_src : RawEvent) (evs' : list CalendarEvent) (s' : State) :
  heap_of s !! rawEvent newEvent = Some r_src →
  reduceM (expand_step newEvent n endDate) indices partialEvents s = Returned evs' s' →
  (∀ l r, heap_of s !! l = Some r → heap_of s' !! l = Some r)
  ∧ ticks s' = ticks s
  ∧ ∀ e, e ∈ evs' →
         e ∈ partialEvents
         ∨ (heap_of s !! rawEvent e = None
            ∧ ∃ i, i ∈ indices
                   ∧ heap_of s' !! rawEvent e
                     = Some (Raw.with_addDays (Raw.JSON_copy r_src) i n)
                   ∧ startDateTime (heap_of s') e < endDate).
Proof.
  intros Hsrc.
  apply (reduceM_Returned _ indices partialEvents s
           (λ done acc s1,
              (∀ l r, heap_of s !! l = Some r → heap_of s1 !! l = Some r)
              ∧ ticks s1 = ticks s
              ∧ ∀ e, e ∈ acc →
                     e ∈ partialEvents
                     ∨ (heap_of s !! rawEvent e = None
                        ∧ ∃ i, i ∈ done
                               ∧ heap_of s1 !! rawEvent e
                                 = Some (Raw.with_addDays (Raw.JSON_copy r_src) i n)
                               ∧ startDateTime (heap_of s1) e < endDate))).
  { split; [done|]. split; [done|]. intros e He. by left. }
  clear evs' s'. intros done i acc s1 acc' s2 (Hkeep & Hticks & Hacc) Hstep.
  unfold expand_step in Hstep.
  apply bind_Returned in Hstep as (? & ? & [-> ->]%get_heap_Returned & Hstep).
  apply bind_Returned in Hstep as (l & s1' & [-> ->]%alloc_Returned & Hstep).
  apply bind_Returned in Hstep as (? & ? & [-> ->]%get_heap_Returned & Hstep).
  simpl in Hstep.
  set (h1 := heap_of s1) in *. set (l := fresh (dom h1)) in *.
  assert (h1 !! l = None) as Hfresh.
  { apply not_elem_of_dom. apply is_fresh. }
  rewrite (lookup_total_Some _ _ _ (Hkeep _ _ Hsrc)) in Hstep.
  set (copy := Raw.with_addDays (Raw.JSON_copy r_src) i n) in *.
  assert (∀ l' r, h1 !! l' = Some r → <[l := copy]> h1 !! l' = Some r) as Hold.
  { intros l' r Hl'. rewrite lookup_insert_ne; [done|]. intros <-. congruence. }
  assert (∀ e, e ∈ acc →
            e ∈ partialEvents
            ∨ (heap_of s !! rawEvent e = None
               ∧ ∃ i', i' ∈ done ++ [i]
                       ∧ <[l := copy]> h1 !! rawEvent e
                         = Some (Raw.with_addDays (Raw.JSON_copy r_src) i' n)
                       ∧ startDateTime (<[l := copy]> h1) e < endDate)) as Hacc'.
  { intros e He. destruct (Hacc e He) as [?|(Hnew & i' & Hi' & Hr & Hlt)]; [by left|].
    right. split; [done|]. exists i'. split; [apply elem_of_app; by left|].
    split; [by apply Hold|].
    unfold startDateTime in *.
    by rewrite (lookup_total_Some _ _ _ (Hold _ _ Hr)), <- (lookup_total_Some _ _ _ Hr). }
  destruct (isAfter endDate _) eqn:Hafter;
    apply ret_Returned in Hstep as [-> ->]; simpl.
  - split; [by auto|]. split; [done|].
    intros e [He| ->%list_elem_of_singleton]%elem_of_app; [by apply Hacc'|].
    right. simpl. split.
    + destruct (heap_of s !! l) as [r|] eqn:Hr; [|done].
      apply Hkeep in Hr. fold h1 in Hr. congruence.
    + exists i. split; [apply elem_of_app; right; left|].
      split; [by rewrite lookup_insert_eq|].
      by apply Z.ltb_lt in Hafter.
  - split; [by auto|]. split; [done|]. done.
Qed.
(** One turn of the reduce: the raw event gets its [originCalendar], the
    store otherwise only grows, and the events added are the event itself
    or occurrences of it. *)
Lemma convert_spec (today now : moment) (events_ : list CalendarEvent)
    (caldavEvent : loc) (s : State) (evs' : list CalendarEvent) (s' : State) :
  convert clock RegExp_i config today now events_ caldavEvent s = Returned evs' s' →
  evolves config (heap_of s) (heap_of s')
  ∧ heap_of s' !! caldavEvent
    = Some (Raw.with_originCalendar (heap_of s !!! caldavEvent)
              (origin_of config (heap_of s !!! caldavEvent)))
  ∧ ∀ e, e ∈ evs' →
         e ∈ events_ ∨ e = new_CalendarEvent caldavEvent
         ∨ occurrence clock config (heap_of s) (heap_of s') e.
Proof.
  unfold convert. intros Hrun.
  apply bind_Returned in Hrun as (? & ? & [-> ->]%get_heap_Returned & Hrun).
  apply bind_Returned in Hrun as (? & ? & [-> ->]%find_origin_Returned & Hrun).
  apply bind_Returned in Hrun as (u & s1 & ->%assign_originCalendar_Returned & Hrun).
  apply bind_Returned in Hrun as (? & ? & [-> ->]%get_heap_Returned & Hrun).
  simpl in Hrun.
  set (h0 := heap_of s) in *.
  set (r1 := Raw.with_originCalendar (h0 !!! caldavEvent)
               (origin_of config (h0 !!! caldavEvent))) in *.
  set (h1 := <[caldavEvent := r1]> h0) in *.
  assert (evolves config h0 h1) as Hev1 by apply evolves_assign.
  assert (h1 !! caldavEvent = Some r1) as Hl1 by apply lookup_insert_eq.
  assert (∀ s', evs' = events_ → heap_of s' = h1 →
            evolves config h0 (heap_of s')
            ∧ heap_of s' !! caldavEvent = Some r1
            ∧ ∀ e, e ∈ evs' →
                   e ∈ events_ ∨ e = new_CalendarEvent caldavEvent
                   ∨ occurrence clock config h0 (heap_of s') e) as Hskip.
  { intros s2 -> ->. split; [done|]. split; [done|]. intros e He. by left. }
  destruct (hidePastEvents config && isBefore _ now);
    [apply ret_Returned in Hrun as [-> ->]; by apply Hskip|].
  destruct (startFromToday config && isAfter today _);
    [apply ret_Returned in Hrun as [-> ->]; by apply Hskip|].
  apply bind_Returned in Hrun as (byTitle & s2 & ->%ignored_by_Returned & Hrun).
  destruct byTitle;
    [apply ret_Returned in Hrun as [-> ->]; by apply Hskip|].
  apply bind_Returned in Hrun as (byLocation & s2 & ->%ignored_by_Returned & Hrun).
  destruct byLocation;
    [apply ret_Returned in Hrun as [-> ->]; by apply Hskip|].
  destruct (showMultiDay config && isMultiDay _ _).
  - apply bind_Returned in Hrun as (t & s2 & [-> ->]%moment_now_Returned & Hrun).
    apply bind_Returned in Hrun as (partialEvents & s3 & Hloop & Hrun).
    apply ret_Returned in Hrun as [-> ->].
    eapply expand_spec in Hloop as (Hkeep & _ & Hnew); [|exact Hl1].
    simpl in Hkeep, Hnew.
    assert (evolves config h1 (heap_of s3)) as Hev3.
    { intros l r Hl. left. by apply Hkeep. }
    split; [by eapply evolves_trans|]. split; [by apply Hkeep|].
    intros e [He|He]%elem_of_app; [by left|]. right. right.
    destruct (Hnew e He) as [[]%elem_of_nil|(Hfresh & i & Hi & Hr & Hlt)].
    split; [by eapply evolves_None|].
    assert (daysLong_of h1 (new_CalendarEvent caldavEvent) = span_days r1) as Hn.
    { rewrite daysLong_of_span. simpl. by rewrite (lookup_total_Some _ _ _ Hl1). }
    rewrite Hn in Hi, Hr. apply elem_of_seqZ in Hi.
    eexists _, i, (ticks s). split; [exact Hr|].
    rewrite span_days_copy.
    split; [done|]. split; [lia|]. split; [done|]. exact Hlt.
  - apply ret_Returned in Hrun as [-> ->].
    split; [done|]. split; [done|].
    intros e [He| ->%list_elem_of_singleton]%elem_of_app; [by left|]. right. by left.
Qed.

(** A run of [processEvents] that returns: the result is the sorted list
    of the converted events; every unique raw event has had its
    [originCalendar] assigned in place; every result event wraps a unique
    raw event or is an occurrence made by the expansion. *)
Lemma processEvents_spec (allEvents : list loc) (s : State)
    (evs : list CalendarEvent) (s' : State) :
  processEvents clock RegExp_i engine allEvents config s = Returned evs s' →
  ∃ newEvents,
    evs = array_sort engine (by_start (heap_of s')) newEvents
    ∧ evolves config (heap_of s) (heap_of s')
    ∧ (∀ l r, l ∈ uniqueEvents (heap_of s) allEvents → heap_of s !! l = Some r →
              heap_of s' !! l
              = Some (Raw.with_originCalendar r (origin_of config r)))
    ∧ ∀ e, e ∈ newEvents →
           rawEvent e ∈ uniqueEvents (heap_of s) allEvents
           ∨ occurrence clock config (heap_of s) (heap_of s') e.
Proof.
  unfold processEvents. intros Hrun.
  apply bind_Returned in Hrun as (? & ? & [-> ->]%get_heap_Returned & Hrun).
  apply bind_Returned in Hrun as (t & s1 & [-> ->]%moment_now_Returned & Hrun).
  apply bind_Returned in Hrun as (now & s2 & [-> ->]%moment_now_Returned & Hrun).
  apply bind_Returned in Hrun as (newEvents & s3 & Hreduce & Hrun).
  apply bind_Returned in Hrun as (? & ? & [-> ->]%get_heap_Returned & Hrun).
  apply ret_Returned in Hrun as [-> ->].
  exists newEvents. split; [done|].
  set (h0 := heap_of s) in *.
  eapply (reduceM_Returned _ _ _ _
            (λ done acc s1,
               evolves config h0 (heap_of s1)
               ∧ (∀ l r, l ∈ done → h0 !! l = Some r →
                         heap_of s1 !! l
                         = Some (Raw.with_originCalendar r (origin_of config r)))
               ∧ ∀ e, e ∈ acc →
                      rawEvent e ∈ done ∨ occurrence clock config h0 (heap_of s1) e))
    in Hreduce.
  - exact Hreduce.
  - simpl. split; [apply evolves_refl|]. split; [by intros l r ?%elem_of_nil|].
    by intros e ?%elem_of_nil.
  - clear. intros done l acc s1 acc' s2 (Hev & Hdone & Hacc) Hstep.
    apply convert_spec in Hstep as (Hev' & Hl & Hnew).
    split; [by eapply evolves_trans|]. split.
    + intros l' r [Hl'| ->%list_elem_of_singleton]%elem_of_app Hr.
      * eapply evolves_assigned; [exact Hev'|]. by apply Hdone.
      * rewrite Hl. destruct (Hev _ _ Hr) as [H1|H1];
          by rewrite (lookup_total_Some _ _ _ H1).
    + intros e He. destruct (Hnew e He) as [Hold|[->|Hocc]].
      * destruct (Hacc e Hold) as [?|Hocc]; [left; apply elem_of_app; by left|].
        right. by eapply evolves_occurrence.
      * left. apply elem_of_app. right. simpl. left.
      * right. by eapply occurrence_older.
Qed.
End pipeline_facts.

(** ** processEvents: termination *)

Section returns_facts.
Variable clock : nat → moment.
Variable RegExp_i : string → option (string → bool).
Variable engine : sort_engine.
Variable config : Config.

Lemma returns_get_heap : returns get_heap.
Proof. intros s. by eexists _, _. Qed.

Lemma returns_moment_now : returns (moment_now clock).
Proof. intros s. by eexists _, _. Qed.

Lemma returns_ignored_by (pattern : string) (text : option string) :
  is_Some (RegExp_i pattern) → returns (ignored_by RegExp_i pattern text).
Proof.
  intros [test Htest]. unfold ignored_by. destruct (_ && _); [|apply returns_ret].
  apply returns_bind; [|intros; apply returns_ret].
  intros s. unfold new_RegExp. rewrite Htest. by eexists _, _.
Qed.

Lemma returns_expand_step (newEvent : CalendarEvent) (n : Z) (endDate : moment)
    (partialEvents : list CalendarEvent) (i : Z) :
  returns (expand_step newEvent n endDate partialEvents i).
Proof.
  unfold expand_step. apply returns_bind; [apply returns_get_heap|]. intros h.
  apply returns_bind; [intros s; by eexists _, _|]. intros l.
  apply returns_bind; [apply returns_get_heap|]. intros h'.
  destruct (isAfter _ _); apply returns_ret.
Qed.

End returns_facts.

(** ** Sorter: the order of the result *)

(** Whatever the engine, the result is in ascending order of
    [startDateTime]. *)
Lemma processEvents_ascending (clock : nat → moment)
    (RegExp_i : string → option (string → bool)) (engine : sort_engine)
    (allEvents : list loc) (config : Config) (s : State)
    (evs : list CalendarEvent) (s' : State) :
  processEvents clock RegExp_i engine allEvents config s = Returned evs s' →
  StronglySorted (λ a b, startDateTime (heap_of s') a ≤ startDateTime (heap_of s') b) evs.
Proof.
  intros (newEvents & -> & _)%processEvents_spec.
  change (by_start (heap_of s')) with (before_or_after (startDateTime (heap_of s'))).
  apply array_sort_ascending.
Qed.

(** On an engine that moves an element left only on a negative answer,
    events with the same start keep the order in which they were
    converted. *)
Lemma processEvents_ties_on_negative (clock : nat → moment)
    (RegExp_i : string → option (string → bool))
    (allEvents : list loc) (config : Config) (s : State)
    (evs : list CalendarEvent) (s' : State) :
  processEvents clock RegExp_i MovesLeftOnNegative allEvents config s = Returned evs s' →
  ∃ newEvents,
    evs ≡ₚ newEvents
    ∧ ∀ k, filter (λ e, startDateTime (heap_of s') e = k) evs
           = filter (λ e, startDateTime (heap_of s') e = k) newEvents.
Proof.
  intros (newEvents & -> & _)%processEvents_spec. exists newEvents.
  split; [apply array_sort_Permutation|].
  intros k.
  change (by_start (heap_of s')) with (before_or_after (startDateTime (heap_of s'))).
  apply array_sort_stable_on_negative.
Qed.

(** The comparator never answers 0, not even for an event and itself. *)
Lemma by_start_never_zero (h : heap) (a b : CalendarEvent) : by_start h a b ≠ 0.
Proof. unfold by_start. by destruct (isBefore _ _). Qed.

(** C4: two events that start at the same instant, given in the order
    [0, 1], are returned in the order [1, 0] by an engine that keeps an
    element in place only on a non-positive answer of the comparator: the
    comparator answers 1 for the pair in either order. *)
Theorem processEvents_reorders_equal_starts :
  Scenario.events_of
    (Scenario.run StaysOnNonPositive [0%nat; 1%nat] Scenario.week_multi Scenario.same_start)
  = [new_CalendarEvent 1%nat; new_CalendarEvent 0%nat]
  ∧ startDateTime Scenario.same_start (new_CalendarEvent 0%nat)
    = startDateTime Scenario.same_start (new_CalendarEvent 1%nat)
  ∧ by_start Scenario.same_start (new_CalendarEvent 0%nat) (new_CalendarEvent 1%nat) = 1
  ∧ by_start Scenario.same_start (new_CalendarEvent 1%nat) (new_CalendarEvent 0%nat) = 1.
Proof. repeat split; vm_compute; reflexivity. Qed.

(** ** Event Normalizer: originCalendar *)

(** The descriptor found has the [entity] property of the event's source. *)
Lemma origin_of_Some (config : Config) (r : RawEvent) (d : EntityDescriptor) :
  origin_of config r = Some d →
  d ∈ entities config
  ∧ ∃ own, Raw.entity r = Some own ∧ dot_entity d = dot_entity own.
Proof.
  unfold origin_of. destruct (Raw.entity r) as [own|]; [|done].
  intros (l1 & l2 & Hl & Hd & _)%array_find_Some.
  split.
  - rewrite Hl. apply elem_of_app. right. left.
  - exists own. split; [done|]. unfold strict_eq in Hd. by apply bool_decide_eq_true in Hd.
Qed.

Lemma NoDup_map_inj {A B : Type} (f : A → B) (l : list A) (x y : A) :
  NoDup (map f l) → x ∈ l → y ∈ l → f x = f y → x = y.
Proof.
  induction l as [|z l IH]; simpl; [by intros _ ?%elem_of_nil|].
  intros [Hz Hl]%NoDup_cons [->|Hx]%elem_of_cons [->|Hy]%elem_of_cons Heq; [done| | |by apply IH].
  - exfalso. apply Hz. rewrite Heq. apply list_elem_of_fmap. eauto.
  - exfalso. apply Hz. rewrite <- Heq. apply list_elem_of_fmap. eauto.
Qed.

(** When the configured descriptors are told apart by their [entity]
    property, an event of a configured source is attributed to that
    source. *)
Lemma origin_of_own (config : Config) (r : RawEvent) (own : EntityDescriptor) :
  NoDup (map dot_entity (entities config)) →
  Raw.entity r = Some own →
  own ∈ entities config →
  origin_of config r = Some own.
Proof.
  intros Hdup Hown Hin. destruct (origin_of config r) as [d|] eqn:Hd.
  - apply origin_of_Some in Hd as (Hd & own' & Hown' & Heq). f_equal.
    assert (own' = own) as -> by congruence.
    by apply (NoDup_map_inj dot_entity (entities config)).
  - unfold origin_of in Hd. rewrite Hown in Hd. apply array_find_None in Hd.
    rewrite Forall_forall in Hd. specialize (Hd _ Hin). simpl in Hd.
    unfold strict_eq in Hd. by apply bool_decide_eq_false in Hd.
Qed.

(** No descriptor is attributed exactly when no configured descriptor has
    the [entity] property of the event's source. *)
Lemma origin_of_None (config : Config) (r : RawEvent) (own : EntityDescriptor) :
  Raw.entity r = Some own →
  origin_of config r = None ↔
  ∀ d, d ∈ entities config → dot_entity d ≠ dot_entity own.
Proof.
  unfold origin_of. intros ->. rewrite array_find_None, Forall_forall.
  split; intros H d Hd; specialize (H d Hd); unfold strict_eq in *.
  - by apply bool_decide_eq_false in H.
  - by apply bool_decide_eq_false.
Qed.

(** C5: with two calendars configured by their bare ids, an event fetched
    from the second one gets the first one as its [originCalendar]. *)
Theorem processEvents_attributes_to_first_bare_id :
  Raw.entity (Scenario.from_b !!! 0%nat) = Some Scenario.bare_b
  ∧ entities Scenario.two_bare = [Scenario.bare_a; Scenario.bare_b]
  ∧ Scenario.events_of
      (Scenario.run MovesLeftOnNegative [0%nat] Scenario.two_bare Scenario.from_b)
    = [new_CalendarEvent 0%nat]
  ∧ originCalendar
      (heap_of (Scenario.state_of
         (Scenario.run MovesLeftOnNegative [0%nat] Scenario.two_bare Scenario.from_b)))
      (new_CalendarEvent 0%nat)
    = Some Scenario.bare_a.
Proof. repeat split; vm_compute; reflexivity. Qed.

(** ** Multi-Day Expander *)

Lemma uniqueEvents_subset (h : heap) (allEvents : list loc) (l : loc) :
  l ∈ uniqueEvents h allEvents → l ∈ allEvents.
Proof. rewrite uniqueEvents_scan. by intros (? & _)%dedup_scan_elem. Qed.

(** Every event of the result wraps one of the raw events passed in, or is
    an occurrence made by the expansion, whose record is a new object. *)
Lemma processEvents_result (clock : nat → moment)
    (RegExp_i : string → option (string → bool)) (engine : sort_engine)
    (allEvents : list loc) (config : Config) (s : State)
    (evs : list CalendarEvent) (s' : State) (e : CalendarEvent) :
  processEvents clock RegExp_i engine allEvents config s = Returned evs s' →
  e ∈ evs →
  rawEvent e ∈ allEvents ∨ occurrence clock config (heap_of s) (heap_of s') e.
Proof.
  intros (newEvents & -> & _ & _ & Hnew)%processEvents_spec He.
  apply elem_of_array_sort in He.
  destruct (Hnew e He) as [?%uniqueEvents_subset|?]; [by left|by right].
Qed.

(** On an input whose locations all denote objects of the store, the two
    cases exclude each other: an occurrence never sits at an input
    location. *)
Lemma occurrence_not_input (clock : nat → moment) (config : Config) (h0 h : heap)
    (allEvents : list loc) (e : CalendarEvent) :
  Forall (λ l, is_Some (h0 !! l)) allEvents →
  occurrence clock config h0 h e →
  rawEvent e ∉ allEvents.
Proof.
  intros Hvalid [Hnew _] Hin. rewrite Forall_forall in Hvalid.
  destruct (Hvalid _ Hin) as [r Hr]. congruence.
Qed.

(** C6: a timed event from 20:00 on day 1 to 00:00 on day 3 is not an
    all-day event and the count of the specification for it is 2, with no
    decrement; the expansion, which takes a day off every event whose end
    reads 00:00, returns one occurrence only, the one of day 1, stamped
    with a [daysLong] of 1: day 2 is lost. *)
Theorem processEvents_timed_event_loses_a_day :
  isAllDay (Scenario.late_night !!! 0%nat) = false
  ∧ specified_span (Scenario.late_night !!! 0%nat) = 2
  ∧ showMultiDay Scenario.week_multi = true
  ∧ numberOfDays Scenario.week_multi = 7
  ∧ ∃ s',
      Scenario.run MovesLeftOnNegative [0%nat] Scenario.week_multi Scenario.late_night
      = Returned [new_CalendarEvent 1%nat] s'
      ∧ Raw.addDays (heap_of s' !!! 1%nat) = Some 0
      ∧ Raw.daysLong (heap_of s' !!! 1%nat) = Some 1.
Proof.
  repeat (split; [vm_compute; reflexivity|]).
  exists (Scenario.state_of
            (Scenario.run MovesLeftOnNegative [0%nat] Scenario.week_multi
               Scenario.late_night)).
  repeat split; vm_compute; reflexivity.
Qed.

(** C7: an occurrence made by the expansion that is part of the result
    starts strictly before the start of today plus [numberOfDays] days,
    today being the date the clock shows during the run. *)
Theorem processEvents_occurrences_in_window (clock : nat → moment)
    (RegExp_i : string → option (string → bool)) (engine : sort_engine)
    (allEvents : list loc) (config : Config) (s : State)
    (evs : list CalendarEvent) (s' : State) (today : moment) (e : CalendarEvent) :
  processEvents clock RegExp_i engine allEvents config s = Returned evs s' →
  (∀ k, startOf_day (clock k) = today) →
  e ∈ evs →
  rawEvent e ∉ allEvents →
  startDateTime (heap_of s') e < add_days today (numberOfDays config).
Proof.
  intros Hrun Htoday He Hnew.
  destruct (processEvents_result _ _ _ _ _ _ _ _ _ Hrun He)
    as [?|(_ & r & i & k & _ & _ & _ & _ & Hlt)]; [done|].
  by rewrite <- (Htoday k).
Qed.

Lemma processEvents_occurrences_in_window_witness :
  startDateTime
    (heap_of (Scenario.state_of
                (Scenario.run MovesLeftOnNegative [0%nat] Scenario.window2_multi
                   Scenario.trip)))
    (new_CalendarEvent 2%nat)
  < add_days (startOf_day (Scenario.morning 0)) 2.
Proof.
  apply (processEvents_occurrences_in_window Scenario.morning Scenario.no_match
           MovesLeftOnNegative [0%nat] Scenario.window2_multi (mkState Scenario.trip 0)
           (Scenario.events_of
              (Scenario.run MovesLeftOnNegative [0%nat] Scenario.window2_multi
                 Scenario.trip))
           (Scenario.state_of
              (Scenario.run MovesLeftOnNegative [0%nat] Scenario.window2_multi
                 Scenario.trip))
           (startOf_day (Scenario.morning 0)) (new_CalendarEvent 2%nat)).
  - vm_compute. reflexivity.
  - intros k. reflexivity.
  - apply list_elem_of_In. vm_compute. right. left. reflexivity.
  - intros Hin%list_elem_of_singleton. discriminate Hin.
Defined.

(** ** The input is written to *)

(** C10: every raw event that [processEvents] converts has its
    [originCalendar] assigned on the record the caller passed, at its own
    location in the store; a record that had no such property is not the
    same after the run. *)
Theorem processEvents_writes_originCalendar (clock : nat → moment)
    (RegExp_i : string → option (string → bool)) (engine : sort_engine)
    (allEvents : list loc) (config : Config) (s : State)
    (evs : list CalendarEvent) (s' : State) (l : loc) (r : RawEvent) :
  processEvents clock RegExp_i engine allEvents config s = Returned evs s' →
  l ∈ uniqueEvents (heap_of s) allEvents →
  heap_of s !! l = Some r →
  heap_of s' !! l = Some (Raw.with_originCalendar r (origin_of config r))
  ∧ (Raw.originCalendar r = None → heap_of s' !! l ≠ heap_of s !! l).
Proof.
  intros (newEvents & _ & _ & Hassigned & _)%processEvents_spec Hl Hr.
  rewrite (Hassigned l r Hl Hr). split; [done|].
  intros Hnone. rewrite Hr. intros [= Heq].
  apply (f_equal Raw.originCalendar) in Heq. simpl in Heq. congruence.
Qed.

Lemma processEvents_writes_originCalendar_witness :
  heap_of (Scenario.state_of
             (Scenario.run MovesLeftOnNegative [0%nat; 1%nat; 2%nat] Scenario.days3_limit2
                Scenario.two_days)) !! 1%nat
  = Some (Raw.with_originCalendar Scenario.afternoon (Some Scenario.calendar_a))
  ∧ (Raw.originCalendar Scenario.afternoon = None →
     heap_of (Scenario.state_of
                (Scenario.run MovesLeftOnNegative [0%nat; 1%nat; 2%nat]
                   Scenario.days3_limit2 Scenario.two_days)) !! 1%nat
     ≠ Scenario.two_days !! 1%nat).
Proof.
  apply (processEvents_writes_originCalendar Scenario.morning Scenario.no_match
           MovesLeftOnNegative [0%nat; 1%nat; 2%nat] Scenario.days3_limit2
           (mkState Scenario.two_days 0)
           (Scenario.events_of
              (Scenario.run MovesLeftOnNegative [0%nat; 1%nat; 2%nat]
                 Scenario.days3_limit2 Scenario.two_days))
           (Scenario.state_of
              (Scenario.run MovesLeftOnNegative [0%nat; 1%nat; 2%nat]
                 Scenario.days3_limit2 Scenario.two_days))
           1%nat Scenario.afternoon).
  - vm_compute. reflexivity.
  - apply list_elem_of_In. vm_compute. right. left. reflexivity.
  - vm_compute. reflexivity.
Defined.

(** * Further properties *)

(** ** Deduplicator *)

Lemma dedup_scan_sublist {A : Type} (id_key uid_key : A → jsval) (seen l : list A) :
  dedup_scan id_key uid_key seen l `sublist_of` l.
Proof.
  revert seen. induction l as [|x l IH]; intros seen; simpl; [constructor|].
  destruct (found_first _ _ _ _); [apply sublist_skip|apply sublist_cons]; apply IH.
Qed.

(** X1: the uniqueness filter returns a sub-sequence of its input: it
    invents no event and keeps the events it keeps in their input order. *)
Theorem uniqueEvents_sublist (h : heap) (allEvents : list loc) :
  uniqueEvents h allEvents `sublist_of` allEvents.
Proof. rewrite uniqueEvents_scan. apply dedup_scan_sublist. Qed.

Lemma first_occurrences_fresh {A : Type} (key : A → jsval) (met : list jsval)
    (l : list A) :
  NoDup (map key l) → (∀ x, x ∈ l → key x ∉ met) →
  first_occurrences key met l = l.
Proof.
  revert met. induction l as [|x l IH]; intros met Hdup Hmet; simpl; [done|].
  apply NoDup_cons in Hdup as [Hx Hdup].
  rewrite bool_decide_eq_false_2 by (apply Hmet; left).
  f_equal. apply IH; [done|].
  intros y Hy [Heq|Hin]%elem_of_cons.
  - apply Hx. rewrite <- Heq. apply list_elem_of_fmap. eauto.
  - apply (Hmet y); [by right|done].
Qed.

(** X2: when every event answers to its own key and no two events have the
    same key, the filter removes nothing. *)
Theorem uniqueEvents_distinct_keys (h : heap) (allEvents : list loc) :
  Forall (λ e, id_or_uid h e = uid_or_id h e) allEvents →
  NoDup (map (uid_or_id h) allEvents) →
  uniqueEvents h allEvents = allEvents.
Proof.
  intros Hagree Hdup. rewrite uniqueEvents_scan, dedup_scan_first_occurrences by done.
  apply first_occurrences_fresh; [done|]. by intros x _ ?%elem_of_nil.
Qed.

Lemma first_occurrences_same_key {A : Type} (key : A → jsval) (k : jsval)
    (met : list jsval) (l : list A) :
  Forall (λ x, key x = k) l → k ∈ met → first_occurrences key met l = [].
Proof.
  induction 1 as [|x l Hx _ IH]; intros Hk; simpl; [done|].
  rewrite Hx, bool_decide_eq_true_2 by done. by apply IH.
Qed.

(** X3: events that carry neither an [id] nor a [uid] all have the key
    [undefined]; they are taken for duplicates of one another and only the
    first of them is kept. *)
Theorem uniqueEvents_without_keys (h : heap) (allEvents : list loc) :
  Forall (λ e, Raw.id (h !!! e) = JUndefined ∧ Raw.uid (h !!! e) = JUndefined)
         allEvents →
  uniqueEvents h allEvents = take 1 allEvents.
Proof.
  intros Hnone.
  assert (Forall (λ e, id_or_uid h e = JUndefined ∧ uid_or_id h e = JUndefined)
            allEvents) as Hkeys.
  { eapply Forall_impl; [exact Hnone|]. intros e [Hid Huid].
    unfold id_or_uid, uid_or_id. by rewrite Hid, Huid. }
  rewrite uniqueEvents_scan, dedup_scan_first_occurrences
    by (eapply Forall_impl; [exact Hkeys|]; by intros e [-> ->]).
  destruct Hkeys as [|e l [_ He] Hl]; simpl; [done|].
  rewrite take_0. f_equal.
  apply (first_occurrences_same_key _ JUndefined).
  - eapply Forall_impl; [exact Hl|]. by intros ? [_ ?].
  - rewrite He. left.
Qed.

(** ** Sorter and Grouper: the groups *)

Lemma first_seen_snoc (seen dates : list string) (d : string) :
  first_seen seen (dates ++ [d])
  = first_seen seen dates ++ (if bool_decide (d ∈ seen ++ dates) then [] else [d]).
Proof.
  revert seen. induction dates as [|x dates IH]; intros seen; simpl.
  - rewrite app_nil_r. by destruct (bool_decide (d ∈ seen)).
  - destruct (bool_decide (x ∈ seen)) eqn:Hx.
    + apply bool_decide_eq_true in Hx. rewrite IH. f_equal.
      rewrite (bool_decide_ext (d ∈ seen ++ dates) (d ∈ seen ++ x :: dates)); [done|].
      rewrite !elem_of_app, elem_of_cons. split; [tauto|intros [?|[->|?]]; auto].
    + rewrite IH. simpl. f_equal. f_equal.
      rewrite (bool_decide_ext (d ∈ (x :: seen) ++ dates) (d ∈ seen ++ x :: dates));
        [done|]. rewrite !elem_of_app, !elem_of_cons. tauto.
Qed.

Lemma count_events_nonneg (groups : list DayGroup) : 0 ≤ count_events groups.
Proof.
  induction groups as [|g groups IH]; [by rewrite count_events_nil|].
  rewrite count_events_cons. lia.
Qed.

Lemma count_events_append (groups1 groups2 : list DayGroup) :
  count_events (groups1 ++ groups2) = count_events groups1 + count_events groups2.
Proof.
  induction groups1 as [|g groups1 IH]; simpl; [by rewrite count_events_nil|].
  rewrite !count_events_cons, IH. lia.
Qed.

Lemma all_events_app (groups1 groups2 : list DayGroup) :
  all_events (groups1 ++ groups2) = all_events groups1 ++ all_events groups2.
Proof. unfold all_events. by rewrite map_app, concat_app. Qed.

Lemma all_events_cons (g : DayGroup) (groups : list DayGroup) :
  all_events (g :: groups) = events g ++ all_events groups.
Proof. done. Qed.

Section grouping_more.
Variable h : heap.
Implicit Types (e : CalendarEvent) (g : DayGroup).

(** The two things one turn of the reduce can do. *)
Lemma group_step_cases (processed : list CalendarEvent) (groups : list DayGroup) e :
  grouped h processed groups →
  (∃ groups1 g groups2,
      groups = groups1 ++ g :: groups2 ∧ day g = day_of h e
      ∧ day_of h e ∈ map (day_of h) processed
      ∧ group_step h groups e = groups1 ++ push_event e g :: groups2)
  ∨ ((day_of h e ∉ map day groups) ∧ (day_of h e ∉ map (day_of h) processed)
     ∧ group_step h groups e = groups ++ [mkGroup (day_of h e) [e]]).
Proof.
  intros (Hdup & Hall & Hcover).
  destruct (decide (day_of h e ∈ map day groups)) as [Hin|Hnew].
  - left. apply list_elem_of_fmap in Hin as (g & Hg & Hin).
    apply list_elem_of_split in Hin as (groups1 & groups2 & ->).
    exists groups1, g, groups2. split; [done|]. split; [done|].
    rewrite map_app in Hdup. simpl in Hdup.
    apply NoDup_app in Hdup as (_ & Hsep & _).
    apply Forall_app in Hall as [_ Hall]. apply Forall_cons in Hall as [[Hevs Hne] _].
    split.
    + destruct (events g) as [|e' ?] eqn:Hg'; [done|].
      assert (e' ∈ filter (λ e0, day_of h e0 = day g) processed) as He'
        by (rewrite <- Hevs; left).
      apply list_elem_of_filter in He' as [Hd He'].
      apply list_elem_of_fmap. exists e'. split; [congruence|done].
    + apply group_step_found; [done|].
      apply Forall_forall. intros g' Hg' Heq. apply (Hsep (day g')).
      * apply list_elem_of_fmap. eauto.
      * rewrite Heq, Hg. left.
  - right. split; [done|]. split.
    + intros (e' & Heq & He')%list_elem_of_fmap. apply Hnew. rewrite Heq. by apply Hcover.
    + apply group_step_new. apply Forall_forall. intros g' Hg' Heq. apply Hnew.
      rewrite <- Heq. apply list_elem_of_fmap. eauto.
Qed.

(** Induction over the turns of the reduce. *)
Lemma groupedEvents_ind (P : list CalendarEvent → list DayGroup → Prop) :
  P [] [] →
  (∀ processed groups e,
      grouped h processed groups → P processed groups →
      P (processed ++ [e]) (group_step h groups e)) →
  ∀ events_, P events_ (groupedEvents h events_).
Proof.
  intros Hnil Hstep events_. unfold groupedEvents.
  assert (∀ processed groups,
            grouped h processed groups → P processed groups →
            P (processed ++ events_) (fold_left (group_step h) events_ groups)) as Hgen.
  { induction events_ as [|e events_ IH]; intros processed groups Hg HP; simpl.
    - by rewrite app_nil_r.
    - replace (processed ++ e :: events_) with ((processed ++ [e]) ++ events_)
        by (by rewrite <- app_assoc).
      apply IH; [by apply grouped_step|by apply Hstep]. }
  apply (Hgen [] []); [|done].
  split; [constructor|]. split; [constructor|]. by intros e ?%elem_of_nil.
Qed.

Lemma groupedEvents_days (events_ : list CalendarEvent) :
  map day (groupedEvents h events_) = first_seen [] (map (day_of h) events_).
Proof.
  apply (groupedEvents_ind
           (λ processed groups,
              map day groups = first_seen [] (map (day_of h) processed))); [done|].
  intros processed groups e Hg IH.
  rewrite map_app. simpl. rewrite first_seen_snoc. simpl.
  destruct (group_step_cases processed groups e Hg)
    as [(g1 & g & g2 & -> & Hday & Hseen & ->)|(Hnew & Hunseen & ->)].
  - rewrite bool_decide_eq_true_2 by done. rewrite app_nil_r, <- IH.
    by rewrite !map_app.
  - rewrite bool_decide_eq_false_2 by done. rewrite map_app, IH. done.
Qed.

(** The reduce makes one group per date, in the order in which the dates
    first appear, each with all the events of its date in input order. *)
Lemma groupedEvents_by_date (events_ : list CalendarEvent) :
  groupedEvents h events_
  = map (group_of h events_) (first_seen [] (map (day_of h) events_)).
Proof.
  rewrite <- groupedEvents_days, map_map.
  destruct (groupedEvents_grouped h events_) as (_ & Hall & _).
  induction Hall as [|g groups [Hg _] _ IH]; simpl; [done|].
  rewrite <- IH. f_equal. unfold group_of. rewrite <- Hg. by destruct g.
Qed.

Lemma groupedEvents_count (events_ : list CalendarEvent) :
  count_events (groupedEvents h events_) = Z.of_nat (length events_).
Proof.
  apply (groupedEvents_ind
           (λ processed groups, count_events groups = Z.of_nat (length processed)));
    [done|].
  intros processed groups e Hg IH. rewrite length_app. simpl.
  destruct (group_step_cases processed groups e Hg)
    as [(g1 & g & g2 & -> & _ & _ & ->)|(_ & _ & ->)].
  - rewrite count_events_append, count_events_cons in *. simpl.
    rewrite length_app. simpl. lia.
  - rewrite count_events_append, count_events_cons, count_events_nil. simpl. lia.
Qed.

Lemma groupedEvents_all_events (events_ : list CalendarEvent) :
  all_events (groupedEvents h events_) ≡ₚ events_.
Proof.
  apply (groupedEvents_ind (λ processed groups, all_events groups ≡ₚ processed));
    [done|].
  intros processed groups e Hg IH.
  destruct (group_step_cases processed groups e Hg)
    as [(g1 & g & g2 & -> & _ & _ & ->)|(_ & _ & ->)].
  - rewrite <- IH, !all_events_app, !all_events_cons. simpl. solve_Permutation.
  - rewrite <- IH, all_events_app. done.
Qed.
End grouping_more.

Lemma groupEventsByDay_all_kept (h : heap) (events_ : list CalendarEvent)
    (config : Config) :
  Z.of_nat (length events_) ≤ eventsLimit config →
  groupEventsByDay h events_ config = groupedEvents h events_.
Proof.
  intros Hlimit. unfold groupEventsByDay.
  apply limit_map_all. intros b1 b2 Hsplit _.
  pose proof (groupedEvents_count h events_) as Hcount.
  rewrite Hsplit, count_events_append in Hcount.
  pose proof (count_events_nonneg b2). lia.
Qed.

(** X4: when the events do not outnumber [eventsLimit], the result is one
    group per date, in the order in which the dates first appear in the
    input, each holding all the events of its date in input order. *)
Theorem groupEventsByDay_within_limit (h : heap) (events_ : list CalendarEvent)
    (config : Config) :
  Z.of_nat (length events_) ≤ eventsLimit config →
  groupEventsByDay h events_ config
  = map (group_of h events_) (first_seen [] (map (day_of h) events_)).
Proof.
  intros Hlimit. rewrite <- groupedEvents_by_date.
  by apply groupEventsByDay_all_kept.
Qed.

Lemma groupEventsByDay_within_limit_witness :
  groupEventsByDay Scenario.three_days Scenario.four_events
    (Scenario.config_of 7 99 false [Scenario.calendar_a])
  = map (group_of Scenario.three_days Scenario.four_events)
        (first_seen [] (map (day_of Scenario.three_days) Scenario.four_events)).
Proof.
  apply (groupEventsByDay_within_limit Scenario.three_days Scenario.four_events
           (Scenario.config_of 7 99 false [Scenario.calendar_a])).
  vm_compute. intros H. discriminate H.
Defined.

(** X5: in the result no date appears twice and no group is empty. *)
Theorem groupEventsByDay_distinct_days (h : heap) (events_ : list CalendarEvent)
    (config : Config) :
  NoDup (map day (groupEventsByDay h events_ config))
  ∧ Forall (λ g, events g ≠ []) (groupEventsByDay h events_ config).
Proof.
  unfold groupEventsByDay.
  destruct (limit_map_prefix (eventsLimit config) (groupedEvents h events_) 0 false)
    as [dropped Hd].
  destruct (groupedEvents_grouped h events_) as (Hdup & Hall & _).
  rewrite Hd in Hdup, Hall. rewrite map_app in Hdup.
  apply NoDup_app in Hdup as [Hdup _]. apply Forall_app in Hall as [Hall _].
  split; [done|]. eapply Forall_impl; [exact Hall|]. by intros g [_ ?].
Qed.

(** X6: the first day is always shown in full, whatever [eventsLimit] is,
    zero and negative values included: a non-empty input never gives an
    empty result. *)
Theorem groupEventsByDay_first_day (h : heap) (e : CalendarEvent)
    (events_ : list CalendarEvent) (config : Config) :
  ∃ later,
    groupEventsByDay h (e :: events_) config
    = group_of h (e :: events_) (day_of h e) :: later.
Proof.
  unfold groupEventsByDay. rewrite groupedEvents_by_date. simpl.
  rewrite filter_Boolean_object. eauto.
Qed.

Lemma limit_map_monotone (limit limit' : Z) (groups : list DayGroup) (n : Z) :
  limit ≤ limit' →
  filter_Boolean (limit_map limit groups n false)
  `prefix_of` filter_Boolean (limit_map limit' groups n false).
Proof.
  intros Hle. revert n. induction groups as [|g groups IH]; intros n; simpl; [done|].
  rewrite !filter_Boolean_object. apply prefix_cons.
  destruct (limit <? n + Z.of_nat (length (events g))) eqn:H1.
  - rewrite limit_map_maxed. apply prefix_nil.
  - destruct (limit' <? n + Z.of_nat (length (events g))) eqn:H2; [|apply IH].
    apply Z.ltb_ge in H1. apply Z.ltb_lt in H2. lia.
Qed.

(** X7: raising [eventsLimit] never hides a day that was shown: the result
    under the smaller limit is a prefix of the result under the larger. *)
Theorem groupEventsByDay_limit_monotone (h : heap) (events_ : list CalendarEvent)
    (config config' : Config) :
  eventsLimit config ≤ eventsLimit config' →
  groupEventsByDay h events_ config `prefix_of` groupEventsByDay h events_ config'.
Proof. intros Hle. unfold groupEventsByDay. by apply limit_map_monotone. Qed.

Lemma groupEventsByDay_limit_monotone_witness :
  groupEventsByDay Scenario.three_days Scenario.four_events Scenario.days3_limit2
  `prefix_of`
  groupEventsByDay Scenario.three_days Scenario.four_events
    (Scenario.config_of 7 99 false [Scenario.calendar_a]).
Proof.
  apply (groupEventsByDay_limit_monotone Scenario.three_days Scenario.four_events
           Scenario.days3_limit2 (Scenario.config_of 7 99 false [Scenario.calendar_a])).
  vm_compute. intros H. discriminate H.
Defined.

Lemma limit_map_within (limit : Z) (groups : list DayGroup) (n : Z)
    (b1 b2 : list DayGroup) :
  filter_Boolean (limit_map limit groups n false) = b1 ++ b2 →
  b1 ≠ [] → b2 ≠ [] → n + count_events b1 ≤ limit.
Proof.
  revert n b1. induction groups as [|g groups IH]; intros n b1 Hres Hb1 Hb2; simpl in Hres.
  - symmetry in Hres. by apply app_eq_nil in Hres as [-> _].
  - rewrite filter_Boolean_object in Hres.
    destruct b1 as [|g' b1]; [done|]. simpl in Hres. injection Hres as <- Hres.
    destruct (limit <? n + Z.of_nat (length (events g))) eqn:Hmax.
    + rewrite limit_map_maxed in Hres. symmetry in Hres.
      by apply app_eq_nil in Hres as [_ ->].
    + apply Z.ltb_ge in Hmax. rewrite count_events_cons.
      destruct b1 as [|g'' b1]; [rewrite count_events_nil; lia|].
      specialize (IH _ _ Hres ltac:(done) Hb2). lia.
Qed.

(** X8: only the last day shown can take the total over the limit: the
    days shown before it hold at most [eventsLimit] events together. *)
Theorem groupEventsByDay_overshoot (h : heap) (events_ : list CalendarEvent)
    (config : Config) (before : list DayGroup) (last_day : DayGroup) :
  groupEventsByDay h events_ config = before ++ [last_day] →
  before ≠ [] →
  count_events before ≤ eventsLimit config.
Proof.
  intros Hres Hne. unfold groupEventsByDay in Hres.
  pose proof (limit_map_within _ _ _ _ _ Hres Hne ltac:(done)). lia.
Qed.

Lemma groupEventsByDay_overshoot_witness :
  count_events [mkGroup "2024-01-01" [new_CalendarEvent 0%nat; new_CalendarEvent 1%nat]]
  ≤ eventsLimit Scenario.days3_limit2.
Proof.
  apply (groupEventsByDay_overshoot Scenario.three_days Scenario.four_events
           Scenario.days3_limit2
           [mkGroup "2024-01-01" [new_CalendarEvent 0%nat; new_CalendarEvent 1%nat]]
           (mkGroup "2024-01-02" [new_CalendarEvent 2%nat])).
  - vm_compute. reflexivity.
  - intros H. discriminate H.
Defined.

(** X9: grouping neither invents nor repeats an event: the events of the
    result, counted with multiplicity, are among the input events, and they
    are all of them when the events do not outnumber [eventsLimit]. *)
Theorem groupEventsByDay_events (h : heap) (events_ : list CalendarEvent)
    (config : Config) :
  all_events (groupEventsByDay h events_ config) ⊆+ events_
  ∧ (Z.of_nat (length events_) ≤ eventsLimit config →
     all_events (groupEventsByDay h events_ config) ≡ₚ events_).
Proof.
  split.
  - unfold groupEventsByDay.
    destruct (limit_map_prefix (eventsLimit config) (groupedEvents h events_) 0 false)
      as [dropped Hd].
    rewrite <- (groupedEvents_all_events h events_), Hd at 2.
    rewrite all_events_app. apply submseteq_inserts_r. done.
  - intros Hlimit. rewrite groupEventsByDay_all_kept by done.
    apply groupedEvents_all_events.
Qed.

Section regrouping.
Variable h : heap.

Lemma fold_group_step_same_day (groups : list DayGroup) (d : string)
    (acc events_ : list CalendarEvent) :
  d ∉ map day groups →
  Forall (λ e, day_of h e = d) events_ →
  fold_left (group_step h) events_ (groups ++ [mkGroup d acc])
  = groups ++ [mkGroup d (acc ++ events_)].
Proof.
  intros Hnew Hday. revert acc.
  induction Hday as [|e events_ He _ IH]; intros acc; simpl.
  - by rewrite app_nil_r.
  - rewrite (group_step_found h groups [] (mkGroup d acc) e).
    + unfold push_event. simpl. rewrite IH. by rewrite <- app_assoc.
    + by rewrite He.
    + apply Forall_forall. intros g Hg Heq. apply Hnew. rewrite <- He, <- Heq.
      apply list_elem_of_fmap. eauto.
Qed.

(** Groups of distinct dates, none empty, each holding events of its own
    date only, come back unchanged when their events are grouped again. *)
Lemma groupedEvents_all_events_inv (groups : list DayGroup) :
  NoDup (map day groups) →
  Forall (λ g, events g ≠ [] ∧ Forall (λ e, day_of h e = day g) (events g)) groups →
  groupedEvents h (all_events groups) = groups.
Proof.
  induction groups as [|g groups IH] using rev_ind; intros Hdup Hall; [done|].
  rewrite map_app in Hdup. apply NoDup_app in Hdup as (Hdup & Hsep & _).
  apply Forall_app in Hall as [Hall Hg]. apply Forall_singleton in Hg as [Hne Hday].
  rewrite all_events_app. unfold groupedEvents in *. rewrite fold_left_app, IH by done.
  rewrite all_events_cons. unfold all_events. simpl. rewrite app_nil_r.
  assert (day g ∉ map day groups) as Hnew.
  { intros Hin. apply (Hsep _ Hin). simpl. left. }
  destruct g as [d evs]. simpl in *.
  destruct Hday as [|e evs He Hevs]; [done|]. simpl.
  rewrite group_step_new.
  - rewrite He. rewrite fold_group_step_same_day by done. done.
  - apply Forall_forall. intros g' Hg' Heq. apply Hnew. rewrite <- He, <- Heq.
    apply list_elem_of_fmap. eauto.
Qed.
End regrouping.

Lemma limit_map_idempotent (limit : Z) (groups : list DayGroup) (n : Z) (maxed : bool) :
  filter_Boolean (limit_map limit (filter_Boolean (limit_map limit groups n maxed)) n maxed)
  = filter_Boolean (limit_map limit groups n maxed).
Proof.
  revert n maxed. induction groups as [|g groups IH]; intros n maxed; simpl; [done|].
  destruct maxed.
  - by rewrite !filter_Boolean_undefined, !limit_map_maxed.
  - rewrite filter_Boolean_object. simpl. rewrite filter_Boolean_object. f_equal.
    apply IH.
Qed.

(** X10: grouping is idempotent: the events of a result, grouped again under
    the same configuration, give the same result. *)
Theorem groupEventsByDay_idempotent (h : heap) (events_ : list CalendarEvent)
    (config : Config) :
  groupEventsByDay h (all_events (groupEventsByDay h events_ config)) config
  = groupEventsByDay h events_ config.
Proof.
  unfold groupEventsByDay at 1.
  rewrite groupedEvents_all_events_inv.
  - unfold groupEventsByDay. apply limit_map_idempotent.
  - unfold groupEventsByDay.
    destruct (limit_map_prefix (eventsLimit config) (groupedEvents h events_) 0 false)
      as [dropped Hd].
    destruct (groupedEvents_grouped h events_) as (Hdup & _ & _).
    rewrite Hd, map_app in Hdup. by apply NoDup_app in Hdup as [Hdup _].
  - unfold groupEventsByDay.
    destruct (limit_map_prefix (eventsLimit config) (groupedEvents h events_) 0 false)
      as [dropped Hd].
    destruct (groupedEvents_grouped h events_) as (_ & Hall & _).
    rewrite Hd in Hall. apply Forall_app in Hall as [Hall _].
    eapply Forall_impl; [exact Hall|]. intros g [Hg Hne]. split; [done|].
    rewrite Hg. apply Forall_forall. by intros e [? _]%list_elem_of_filter.
Qed.

(** ** processEvents: the filter chain and the expansion *)

Lemma lookup_total_same (h h' : heap) (p : loc) : h !! p = h' !! p → h !!! p = h' !!! p.
Proof. intros H. by rewrite !lookup_total_alt, H. Qed.

Lemma startDateTime_same (h h' : heap) (e : CalendarEvent) :
  h !!! rawEvent e = h' !!! rawEvent e → startDateTime h e = startDateTime h' e.
Proof. unfold startDateTime. by intros ->. Qed.

Lemma expands_same (config : Config) (h h' : heap) (e : CalendarEvent) :
  h !!! rawEvent e = h' !!! rawEvent e → expands config h e = expands config h' e.
Proof. unfold expands, isMultiDay, startDateTime, endDateTime. by intros ->. Qed.

Section filter_facts.
Variable clock : nat → moment.
Variable RegExp_i : string → option (string → bool).
Variable engine : sort_engine.
Variable config : Config.

Lemma shown_same (today now : moment) (h h' : heap) (e : CalendarEvent) :
  h !!! rawEvent e = h' !!! rawEvent e →
  shown RegExp_i config today now h e = shown RegExp_i config today now h' e.
Proof. unfold shown, endDateTime, title, location. by intros ->. Qed.

Lemma ignored_by_excluded_by (pattern : string) (text : option string) (s : State)
    (b : bool) (s' : State) :
  ignored_by RegExp_i pattern text s = Returned b s' →
  b = excluded_by RegExp_i pattern text ∧ s' = s.
Proof.
  unfold ignored_by, excluded_by. destruct (_ && _); simpl.
  - intros (regex & s1 & Hre & Hret)%bind_Returned.
    apply ret_Returned in Hret as [-> ->].
    unfold new_RegExp in Hre. destruct (RegExp_i pattern); by inversion Hre.
  - by intros [-> ->]%ret_Returned.
Qed.

(** The loop of the expansion makes an occurrence for every day of the span
    that starts before [endDate]. *)
Lemma expand_complete (newEvent : CalendarEvent) (n : Z) (endDate : moment)
    (indices : list Z) (partialEvents : list CalendarEvent) (s : State)
    (r_src : RawEvent) (evs' : list CalendarEvent) (s' : State) :
  heap_of s !! rawEvent newEvent = Some r_src →
  reduceM (expand_step newEvent n endDate) indices partialEvents s = Returned evs' s' →
  ∀ i, i ∈ indices → add_days (resolve (Raw.start r_src)) i < endDate →
       ∃ e, e ∈ evs'
            ∧ heap_of s' !! rawEvent e = Some (Raw.with_addDays (Raw.JSON_copy r_src) i n).
Proof.
  intros Hsrc.
  apply (reduceM_Returned _ indices partialEvents s
           (λ done acc s1,
              (∀ l r, heap_of s !! l = Some r → heap_of s1 !! l = Some r)
              ∧ ∀ i, i ∈ done → add_days (resolve (Raw.start r_src)) i < endDate →
                     ∃ e, e ∈ acc
                          ∧ heap_of s1 !! rawEvent e
                            = Some (Raw.with_addDays (Raw.JSON_copy r_src) i n))).
  { split; [done|]. by intros i ?%elem_of_nil. }
  clear evs' s'. intros done i acc s1 acc' s2 (Hkeep & Hacc) Hstep.
  unfold expand_step in Hstep.
  apply bind_Returned in Hstep as (? & ? & [-> ->]%get_heap_Returned & Hstep).
  apply bind_Returned in Hstep as (l & s1' & [-> ->]%alloc_Returned & Hstep).
  apply bind_Returned in Hstep as (? & ? & [-> ->]%get_heap_Returned & Hstep).
  simpl in Hstep.
  set (h1 := heap_of s1) in *. set (l := fresh (dom h1)) in *.
  assert (h1 !! l = None) as Hfresh by (apply not_elem_of_dom, is_fresh).
  rewrite (lookup_total_Some _ _ _ (Hkeep _ _ Hsrc)) in Hstep.
  set (copy := Raw.with_addDays (Raw.JSON_copy r_src) i n) in *.
  assert (∀ l' r, h1 !! l' = Some r → <[l := copy]> h1 !! l' = Some r) as Hold.
  { intros l' r Hl'. rewrite lookup_insert_ne; [done|]. intros <-. congruence. }
  assert (startDateTime (<[l := copy]> h1) (new_CalendarEvent l)
          = add_days (resolve (Raw.start r_src)) i) as Hstart.
  { unfold startDateTime. simpl. by rewrite lookup_total_insert_eq. }
  rewrite Hstart in Hstep.
  assert (∀ (acc2 : list CalendarEvent) (s2 : State), heap_of s2 = <[l := copy]> h1 →
            (∀ e, e ∈ acc → e ∈ acc2) →
            (add_days (resolve (Raw.start r_src)) i < endDate →
             new_CalendarEvent l ∈ acc2) →
            (∀ l0 r, heap_of s !! l0 = Some r → heap_of s2 !! l0 = Some r)
            ∧ ∀ i', i' ∈ done ++ [i] →
                    add_days (resolve (Raw.start r_src)) i' < endDate →
                    ∃ e, e ∈ acc2
                         ∧ heap_of s2 !! rawEvent e
                           = Some (Raw.with_addDays (Raw.JSON_copy r_src) i' n)) as Hnext.
  { intros acc2 st Hs2 Hsub Hnew. rewrite Hs2. split; [by auto|].
    intros i' [Hi'| ->%list_elem_of_singleton]%elem_of_app Hwin.
    - destruct (Hacc i' Hi' Hwin) as (e & He & Hr). exists e. split; [by apply Hsub|].
      by apply Hold.
    - exists (new_CalendarEvent l). split; [by apply Hnew|]. simpl.
      by rewrite lookup_insert_eq. }
  destruct (isAfter endDate _) eqn:Hafter; apply ret_Returned in Hstep as [-> ->].
  - apply Hnext; [done| |].
    + intros e He. apply elem_of_app. by left.
    + intros _. apply elem_of_app. right. left.
  - apply Hnext; [done|done|].
    intros Hwin. unfold isAfter in Hafter. apply Z.ltb_ge in Hafter. lia.
Qed.
(** One turn of the reduce, case by case: the event is filtered out, or
    goes to the result as it is, or is replaced by its occurrences. *)
Lemma convert_cases (today now : moment) (events_ : list CalendarEvent) (l : loc)
    (s : State) (evs' : list CalendarEvent) (s' : State) (r1 : RawEvent) (h1 : heap) :
  convert clock RegExp_i config today now events_ l s = Returned evs' s' →
  r1 = converted config (heap_of s !!! l) →
  h1 = <[l := r1]> (heap_of s) →
  (shown RegExp_i config today now h1 (new_CalendarEvent l) = false
   ∧ evs' = events_ ∧ s' = mkState h1 (ticks s))
  ∨ (shown RegExp_i config today now h1 (new_CalendarEvent l) = true
     ∧ expands config h1 (new_CalendarEvent l) = false
     ∧ evs' = events_ ++ [new_CalendarEvent l] ∧ s' = mkState h1 (ticks s))
  ∨ (shown RegExp_i config today now h1 (new_CalendarEvent l) = true
     ∧ expands config h1 (new_CalendarEvent l) = true
     ∧ ticks s' = S (ticks s)
     ∧ (∀ p r, h1 !! p = Some r → heap_of s' !! p = Some r)
     ∧ ∃ added,
         evs' = events_ ++ added
         ∧ (∀ e, e ∈ added →
                 h1 !! rawEvent e = None
                 ∧ ∃ i, 0 ≤ i < span_days r1
                        ∧ heap_of s' !! rawEvent e = Some (occurrence_record r1 i)
                        ∧ startDateTime (heap_of s') e
                          < add_days (startOf_day (clock (ticks s))) (numberOfDays config))
         ∧ (∀ i, 0 ≤ i < span_days r1 →
                 add_days (resolve (Raw.start r1)) i
                 < add_days (startOf_day (clock (ticks s))) (numberOfDays config) →
                 ∃ e, e ∈ added ∧ heap_of s' !! rawEvent e = Some (occurrence_record r1 i))).
Proof.
  unfold convert. intros Hrun Hr1 Hh1.
  apply bind_Returned in Hrun as (? & ? & [-> ->]%get_heap_Returned & Hrun).
  apply bind_Returned in Hrun as (? & ? & [-> ->]%find_origin_Returned & Hrun).
  apply bind_Returned in Hrun as (u & s1 & ->%assign_originCalendar_Returned & Hrun).
  apply bind_Returned in Hrun as (? & ? & [-> ->]%get_heap_Returned & Hrun).
  simpl in Hrun. fold (converted config (heap_of s !!! l)) in Hrun.
  rewrite <- Hr1, <- Hh1 in Hrun.
  assert (h1 !! l = Some r1) as Hl1 by (rewrite Hh1; apply lookup_insert_eq).
  unfold shown.
  destruct (hidePastEvents config && isBefore _ now);
    [apply ret_Returned in Hrun as [-> ->]; by left|].
  destruct (startFromToday config && isAfter today _);
    [apply ret_Returned in Hrun as [-> ->]; by left|].
  apply bind_Returned in Hrun as (byTitle & s2 & [-> ->]%ignored_by_excluded_by & Hrun).
  destruct (excluded_by RegExp_i (ignoreEventsExpression config) _);
    [apply ret_Returned in Hrun as [-> ->]; by left|].
  apply bind_Returned in Hrun as (byLocation & s2 & [-> ->]%ignored_by_excluded_by & Hrun).
  destruct (excluded_by RegExp_i (ignoreEventsByLocationExpression config) _);
    [apply ret_Returned in Hrun as [-> ->]; by left|].
  right. fold (expands config h1 (new_CalendarEvent l)) in Hrun.
  destruct (expands config h1 (new_CalendarEvent l)).
  - right. split; [done|]. split; [done|].
    apply bind_Returned in Hrun as (t & s2 & [-> ->]%moment_now_Returned & Hrun).
    apply bind_Returned in Hrun as (partialEvents & s3 & Hloop & Hrun).
    apply ret_Returned in Hrun as [-> ->].
    assert (daysLong_of h1 (new_CalendarEvent l) = span_days r1) as Hn.
    { rewrite daysLong_of_span. simpl. by rewrite (lookup_total_Some _ _ _ Hl1). }
    rewrite Hn in Hloop. simpl in Hloop.
    pose proof (expand_spec (new_CalendarEvent l) _ _ _ _ (mkState h1 (S (ticks s))) r1
                  _ _ Hl1 Hloop) as (Hkeep & Hticks & Hnew).
    pose proof (expand_complete (new_CalendarEvent l) _ _ _ _ (mkState h1 (S (ticks s)))
                  r1 _ _ Hl1 Hloop) as Hall.
    simpl in Hkeep, Hticks, Hnew, Hall.
    split; [done|]. split; [done|].
    exists partialEvents. split; [done|]. split.
    + intros e He. destruct (Hnew e He) as [[]%elem_of_nil|(Hfresh & i & Hi & Hr & Hlt)].
      split; [done|]. exists i. apply elem_of_seqZ in Hi. split; [lia|]. done.
    + intros i Hi Hwin. apply Hall; [|done]. apply elem_of_seqZ. lia.
  - left. apply ret_Returned in Hrun as [-> ->]. done.
Qed.
End filter_facts.

(** A loop invariant for [reduce] that may use that the element at hand is
    one of the list. *)
Lemma reduceM_Returned_in {A B : Type} (f : B → A → M B) (l : list A) (acc : B)
    (s : State) (I : list A → B → State → Prop) :
  I [] acc s →
  (∀ done x acc s acc' s',
      x ∈ l → I done acc s → f acc x s = Returned acc' s' → I (done ++ [x]) acc' s') →
  ∀ acc' s', reduceM f l acc s = Returned acc' s' → I l acc' s'.
Proof.
  intros Hinit Hstep.
  assert (∀ rest done acc s acc' s',
            (∀ x, x ∈ rest → x ∈ l) → I done acc s →
            reduceM f rest acc s = Returned acc' s' → I (done ++ rest) acc' s')
    as Hgen.
  { induction rest as [|x rest IH]; intros done acc0 s0 acc' s' Hin HI Hrun;
      simpl in Hrun.
    - apply ret_Returned in Hrun as [-> ->]. by rewrite app_nil_r.
    - apply bind_Returned in Hrun as (acc1 & s1 & Hx & Hrun).
      replace (done ++ x :: rest) with ((done ++ [x]) ++ rest)
        by (by rewrite <- app_assoc).
      eapply IH; [|  |exact Hrun].
      + intros y Hy. apply Hin. by right.
      + eapply Hstep; [|exact HI|exact Hx]. apply Hin. left. }
  intros acc' s' Hrun. by apply (Hgen l [] acc s acc' s').
Qed.

Lemma converted_idempotent (config : Config) (r : RawEvent) :
  converted config (converted config r) = converted config r.
Proof. done. Qed.

Section run_facts.
Variable clock : nat → moment.
Variable RegExp_i : string → option (string → bool).
Variable engine : sort_engine.
Variable config : Config.
Variables today now : moment.
Variable h0 : heap.

Lemma passed_through_same (done done' : list loc) (h h' : heap) (e : CalendarEvent) :
  (∀ p, p ∈ done → p ∈ done') →
  h' !! rawEvent e = h !! rawEvent e →
  passed_through RegExp_i config today now done h e →
  passed_through RegExp_i config today now done' h' e.
Proof.
  intros Hsub Hsame%lookup_total_same (Hin & Hshown & Hexp).
  split; [by apply Hsub|].
  by rewrite (shown_same _ _ _ _ _ _ _ Hsame), (expands_same _ _ _ _ Hsame).
Qed.

Lemma expanded_from_same (done done' : list loc) (h h' : heap) (e : CalendarEvent) :
  (∀ p, p ∈ done → p ∈ done') →
  (∀ p, p ∈ done → h' !! p = h !! p) →
  h' !! rawEvent e = h !! rawEvent e →
  expanded_from clock RegExp_i config today now h0 done h e →
  expanded_from clock RegExp_i config today now h0 done' h' e.
Proof.
  intros Hsub Hdone He (Hnew & l & r & i & k & Hl & Hr & Hshown & Hexp & Hi & Hrec & Hlt).
  split; [done|]. exists l, r, i, k.
  pose proof (lookup_total_same _ _ _ (Hdone l Hl)) as Hsame.
  split; [by apply Hsub|]. split; [done|].
  rewrite (shown_same _ _ _ _ h' h (new_CalendarEvent l) Hsame).
  rewrite (expands_same _ h' h (new_CalendarEvent l) Hsame).
  rewrite (startDateTime_same h' h e (lookup_total_same _ _ _ He)), He.
  done.
Qed.

(** The invariant goes through one turn of the reduce. *)
Lemma run_invariant_step (done : list loc) (acc : list CalendarEvent) (s1 : State)
    (l : loc) (acc' : list CalendarEvent) (s2 : State) :
  is_Some (h0 !! l) →
  run_invariant clock RegExp_i config today now h0 done acc s1 →
  convert clock RegExp_i config today now acc l s1 = Returned acc' s2 →
  run_invariant clock RegExp_i config today now h0 (done ++ [l]) acc' s2.
Proof.
  intros [r_l Hl] (Hvalid & HF & HS & HCp & HCo) Hstep.
  set (r1 := converted config r_l).
  assert (r1 = converted config (heap_of s1 !!! l)) as Hr1.
  { rewrite (lookup_total_Some _ _ _ (HF _ _ Hl)). by destruct (bool_decide _). }
  set (h1 := <[l := r1]> (heap_of s1)).
  pose proof (convert_cases clock RegExp_i config today now acc l s1 acc' s2 r1 h1
                Hstep Hr1 eq_refl) as Hcases.
  assert (h1 !! l = Some r1) as Hh1l by apply lookup_insert_eq.
  assert (heap_of s2 !! l = Some r1) as K1.
  { destruct Hcases as [(_ & _ & ->)|[(_ & _ & _ & ->)|(_ & _ & _ & Hkeep & _)]];
      [done|done|by apply Hkeep]. }
  assert (∀ p r, p ≠ l → heap_of s1 !! p = Some r → heap_of s2 !! p = Some r) as K2.
  { intros p r Hne Hp.
    assert (h1 !! p = Some r) as Hp1 by (unfold h1; by rewrite lookup_insert_ne).
    destruct Hcases as [(_ & _ & ->)|[(_ & _ & _ & ->)|(_ & _ & _ & Hkeep & _)]];
      [done|done|by apply Hkeep]. }
  assert (∀ e, e ∈ acc → e ∈ acc') as K3.
  { intros e He.
    destruct Hcases as [(_ & -> & _)|[(_ & _ & -> & _)|(_ & _ & _ & _ & added & -> & _)]];
      [done|apply elem_of_app; by left|apply elem_of_app; by left]. }
  assert (∀ p, p ∈ done → heap_of s2 !! p = heap_of s1 !! p) as K4.
  { intros p Hp. destruct (Hvalid p Hp) as [r Hr].
    pose proof (HF p r Hr) as Hp1. rewrite bool_decide_eq_true_2 in Hp1 by done.
    destruct (decide (p = l)) as [->|Hne].
    - rewrite K1, Hp1. unfold r1. congruence.
    - rewrite Hp1. by apply K2. }
  assert (∀ p r, h0 !! p = None → heap_of s1 !! p = Some r →
                 heap_of s2 !! p = heap_of s1 !! p) as K5.
  { intros p r Hnone Hp. rewrite Hp. apply K2; [|done]. intros ->. congruence. }
  assert (∀ e, e ∈ acc → heap_of s2 !! rawEvent e = heap_of s1 !! rawEvent e) as K6.
  { intros e He.
    destruct (HS e He) as [(Hin & _)|(Hnew & l' & r' & i' & k' & _ & _ & _ & _ & _ & Hrec & _)].
    - by apply K4.
    - by eapply K5. }
  assert (heap_of s2 !!! l = h1 !!! l) as K7
    by (apply lookup_total_same; by rewrite K1, Hh1l).
  assert (∀ p, p ∈ done → p ∈ done ++ [l]) as Hsub
    by (intros p Hp; apply elem_of_app; by left).
  assert (∀ e, e ∈ acc →
            passed_through RegExp_i config today now (done ++ [l]) (heap_of s2) e
            ∨ expanded_from clock RegExp_i config today now h0 (done ++ [l]) (heap_of s2) e)
    as Hold.
  { intros e He. destruct (HS e He) as [Hp|Hx].
    - left. eapply passed_through_same; [exact Hsub|by apply K6|exact Hp].
    - right. eapply expanded_from_same; [exact Hsub|exact K4|by apply K6|exact Hx]. }
  assert (h0 !! l = Some r_l → ∀ p, h1 !! p = None → h0 !! p = None) as Hdom.
  { intros _ p Hp. destruct (h0 !! p) as [r|] eqn:Hr; [|done].
    pose proof (HF p r Hr) as Hp1.
    destruct (decide (p = l)) as [->|Hne]; [congruence|].
    unfold h1 in Hp. rewrite lookup_insert_ne in Hp by done. congruence. }
  split; [|split; [|split; [|split]]].
  - intros p [Hp| ->%list_elem_of_singleton]%elem_of_app; [by apply Hvalid|by eexists].
  - intros p r Hp. destruct (decide (p = l)) as [->|Hne].
    + rewrite K1, bool_decide_eq_true_2 by (apply elem_of_app; right; left).
      unfold r1. congruence.
    + rewrite (K2 p _ Hne (HF p r Hp)). f_equal.
      apply (f_equal (λ b : bool, if b then converted config r else r)).
      apply bool_decide_ext. rewrite elem_of_app, list_elem_of_singleton. tauto.
  - intros e He.
    destruct Hcases as [(_ & -> & _)|[(Hs & Hx & -> & ->)|(Hs & Hx & _ & _ & added & -> & Hsound & _)]].
    + by apply Hold.
    + apply elem_of_app in He as [He| ->%list_elem_of_singleton]; [by apply Hold|].
      left. split; [apply elem_of_app; right; left|done].
    + apply elem_of_app in He as [He|He]; [by apply Hold|].
      right. destruct (Hsound e He) as (Hfresh & i & Hi & Hrec & Hlt).
      split; [by apply Hdom|].
      exists l, r_l, i, (ticks s1). split; [apply elem_of_app; right; left|].
      split; [done|].
      rewrite (shown_same _ _ _ _ _ _ (new_CalendarEvent l) K7).
      rewrite (expands_same _ _ _ (new_CalendarEvent l) K7).
      done.
  - intros p Hp Hshown Hexp.
    destruct (decide (p ∈ done)) as [Hin|Hnin].
    + apply K3, HCp; [done| |].
      * by rewrite <- (shown_same _ _ _ _ _ _ (new_CalendarEvent p)
                        (lookup_total_same _ _ _ (K4 p Hin))).
      * by rewrite <- (expands_same _ _ _ (new_CalendarEvent p)
                        (lookup_total_same _ _ _ (K4 p Hin))).
    + apply elem_of_app in Hp as [?| ->%list_elem_of_singleton]; [done|].
      rewrite (shown_same _ _ _ _ _ _ (new_CalendarEvent l) K7) in Hshown.
      rewrite (expands_same _ _ _ (new_CalendarEvent l) K7) in Hexp.
      destruct Hcases as [(Hs & _)|[(_ & _ & -> & _)|(_ & Hx & _)]];
        [congruence|apply elem_of_app; right; left|congruence].
  - intros p r i Hp Hr Hshown Hexp Hi.
    destruct (decide (p ∈ done)) as [Hin|Hnin].
    + destruct (HCo p r i Hin Hr) as [k Hk]; [| |done|].
      * by rewrite <- (shown_same _ _ _ _ _ _ (new_CalendarEvent p)
                        (lookup_total_same _ _ _ (K4 p Hin))).
      * by rewrite <- (expands_same _ _ _ (new_CalendarEvent p)
                        (lookup_total_same _ _ _ (K4 p Hin))).
      * exists k. intros Hwin. destruct (Hk Hwin) as (e & He & Hrec).
        exists e. split; [by apply K3|]. by rewrite (K6 e He).
    + apply elem_of_app in Hp as [?| ->%list_elem_of_singleton]; [done|].
      assert (r = r_l) as -> by congruence.
      rewrite (shown_same _ _ _ _ _ _ (new_CalendarEvent l) K7) in Hshown.
      rewrite (expands_same _ _ _ (new_CalendarEvent l) K7) in Hexp.
      exists (ticks s1). intros Hwin.
      destruct Hcases as [(Hs & _)|[(_ & Hx & _)|(_ & _ & _ & _ & added & -> & _ & Hcomplete)]];
        [congruence|congruence|].
      destruct (Hcomplete i Hi Hwin) as (e & He & Hrec).
      exists e. split; [apply elem_of_app; by right|done].
Qed.
End run_facts.

(** A run of [processEvents] on raw events that all are objects of the
    store ends in a state that satisfies the invariant for the whole list of
    unique events; [today] and [now] are the first two readings of the
    clock. *)
Lemma processEvents_run (clock : nat → moment)
    (RegExp_i : string → option (string → bool)) (engine : sort_engine)
    (allEvents : list loc) (config : Config) (s : State)
    (evs : list CalendarEvent) (s' : State) :
  Forall (λ l, is_Some (heap_of s !! l)) allEvents →
  processEvents clock RegExp_i engine allEvents config s = Returned evs s' →
  ∃ newEvents,
    evs = array_sort engine (by_start (heap_of s')) newEvents
    ∧ run_invariant clock RegExp_i config (startOf_day (clock (ticks s)))
        (clock (S (ticks s))) (heap_of s) (uniqueEvents (heap_of s) allEvents)
        newEvents s'.
Proof.
  intros Hvalid Hrun. unfold processEvents in Hrun.
  apply bind_Returned in Hrun as (? & ? & [-> ->]%get_heap_Returned & Hrun).
  apply bind_Returned in Hrun as (t & s1 & [-> ->]%moment_now_Returned & Hrun).
  apply bind_Returned in Hrun as (now & s2 & [-> ->]%moment_now_Returned & Hrun).
  apply bind_Returned in Hrun as (newEvents & s3 & Hreduce & Hrun).
  apply bind_Returned in Hrun as (? & ? & [-> ->]%get_heap_Returned & Hrun).
  apply ret_Returned in Hrun as [-> ->]. simpl in Hreduce.
  exists newEvents. split; [done|].
  eapply (reduceM_Returned_in _ _ _ _
            (run_invariant clock RegExp_i config (startOf_day (clock (ticks s)))
               (clock (S (ticks s))) (heap_of s))); [| |exact Hreduce].
  - split; [by intros l ?%elem_of_nil|]. split; [by intros p r ?|].
    split; [by intros e ?%elem_of_nil|]. split; [by intros l ?%elem_of_nil|].
    by intros l r i ?%elem_of_nil.
  - intros done l acc s1 acc' s2 Hl Hinv Hstep.
    eapply run_invariant_step; [|exact Hinv|exact Hstep].
    rewrite Forall_forall in Hvalid. by apply Hvalid, uniqueEvents_subset with (heap_of s).
Qed.

(** X11: every event returned as it is, that is every returned event that
    wraps one of the raw events passed in, got past each filter that is
    switched on: it does not end before now when [hidePastEvents] is set nor
    before the start of today when [startFromToday] is set, its title and
    location are not matched by the ignore patterns, and it is not a
    multi-day event when [showMultiDay] is set. *)
Theorem processEvents_filters (clock : nat → moment)
    (RegExp_i : string → option (string → bool)) (engine : sort_engine)
    (allEvents : list loc) (config : Config) (s : State)
    (evs : list CalendarEvent) (s' : State) (e : CalendarEvent) :
  Forall (λ l, is_Some (heap_of s !! l)) allEvents →
  processEvents clock RegExp_i engine allEvents config s = Returned evs s' →
  e ∈ evs →
  rawEvent e ∈ allEvents →
  (hidePastEvents config = true → clock (S (ticks s)) ≤ endDateTime (heap_of s') e)
  ∧ (startFromToday config = true →
     startOf_day (clock (ticks s)) ≤ endDateTime (heap_of s') e)
  ∧ (∀ test text,
       ignoreEventsExpression config ≠ ""%string →
       RegExp_i (ignoreEventsExpression config) = Some test →
       title (heap_of s') e = Some text → text ≠ ""%string →
       test text = false)
  ∧ (∀ test text,
       ignoreEventsByLocationExpression config ≠ ""%string →
       RegExp_i (ignoreEventsByLocationExpression config) = Some test →
       location (heap_of s') e = Some text → text ≠ ""%string →
       test text = false)
  ∧ (showMultiDay config = true → isMultiDay (heap_of s') e = false).
Proof.
  intros Hvalid Hrun He Hin.
  destruct (processEvents_run _ _ _ _ _ _ _ _ Hvalid Hrun)
    as (newEvents & -> & _ & _ & HS & _).
  apply elem_of_array_sort in He.
  destruct (HS e He) as [(_ & Hshown & Hexp)|(Hnew & _)].
  2:{ rewrite Forall_forall in Hvalid. destruct (Hvalid _ Hin) as [r Hr]. congruence. }
  unfold shown in Hshown. unfold expands in Hexp.
  apply andb_true_iff in Hshown as [Hshown Hloc].
  apply andb_true_iff in Hshown as [Hshown Htitle].
  apply andb_true_iff in Hshown as [Hpast Htoday].
  apply negb_true_iff in Hpast, Htoday, Htitle, Hloc.
  assert (∀ pattern text_ test text,
            excluded_by RegExp_i pattern text_ = false →
            pattern ≠ ""%string → RegExp_i pattern = Some test →
            text_ = Some text → text ≠ ""%string → test text = false) as Hpattern.
  { intros pattern text_ test text Hex Hp Hre -> Ht. unfold excluded_by in Hex.
    rewrite Hre in Hex. simpl in Hex. unfold truthy_string in Hex.
    apply String.eqb_neq in Hp, Ht. rewrite Hp, Ht in Hex. done. }
  repeat split.
  - intros Hp. rewrite Hp in Hpast. simpl in Hpast. unfold isBefore in Hpast.
    by apply Z.ltb_ge in Hpast.
  - intros Ht. rewrite Ht in Htoday. simpl in Htoday. unfold isAfter in Htoday.
    by apply Z.ltb_ge in Htoday.
  - intros test text. by apply Hpattern.
  - intros test text. by apply Hpattern.
  - intros Hm. by rewrite Hm in Hexp.
Qed.

(** X12: no event is lost on the way: a unique raw event that gets past the
    filters and is not due for expansion is returned, wrapped as it is. *)
Theorem processEvents_keeps_shown (clock : nat → moment)
    (RegExp_i : string → option (string → bool)) (engine : sort_engine)
    (allEvents : list loc) (config : Config) (s : State)
    (evs : list CalendarEvent) (s' : State) (l : loc) :
  Forall (λ l, is_Some (heap_of s !! l)) allEvents →
  processEvents clock RegExp_i engine allEvents config s = Returned evs s' →
  l ∈ uniqueEvents (heap_of s) allEvents →
  shown RegExp_i config (startOf_day (clock (ticks s))) (clock (S (ticks s)))
        (heap_of s') (new_CalendarEvent l) = true →
  expands config (heap_of s') (new_CalendarEvent l) = false →
  new_CalendarEvent l ∈ evs.
Proof.
  intros Hvalid Hrun Hl Hshown Hexp.
  destruct (processEvents_run _ _ _ _ _ _ _ _ Hvalid Hrun)
    as (newEvents & -> & _ & _ & _ & HCp & _).
  apply elem_of_array_sort. by apply HCp.
Qed.


(** X14: every occurrence in the result is the stamped copy of a unique raw
    event that got past the filters and was due for expansion; the copy has
    the converted record's fields, its [originCalendar] included. *)
Theorem processEvents_occurrence_source (clock : nat → moment)
    (RegExp_i : string → option (string → bool)) (engine : sort_engine)
    (allEvents : list loc) (config : Config) (s : State)
    (evs : list CalendarEvent) (s' : State) (e : CalendarEvent) :
  Forall (λ l, is_Some (heap_of s !! l)) allEvents →
  processEvents clock RegExp_i engine allEvents config s = Returned evs s' →
  e ∈ evs →
  rawEvent e ∉ allEvents →
  ∃ l r i,
    l ∈ uniqueEvents (heap_of s) allEvents
    ∧ heap_of s !! l = Some r
    ∧ shown RegExp_i config (startOf_day (clock (ticks s))) (clock (S (ticks s)))
            (heap_of s') (new_CalendarEvent l) = true
    ∧ expands config (heap_of s') (new_CalendarEvent l) = true
    ∧ 0 ≤ i < span_days r
    ∧ heap_of s' !! rawEvent e = Some (occurrence_record (converted config r) i).
Proof.
  intros Hvalid Hrun He Hnew.
  destruct (processEvents_run _ _ _ _ _ _ _ _ Hvalid Hrun)
    as (newEvents & -> & _ & _ & HS & _).
  apply elem_of_array_sort in He.
  destruct (HS e He) as [(Hin & _)|(_ & l & r & i & k & Hl & Hr & Hs & Hx & Hi & Hrec & _)].
  - by apply uniqueEvents_subset in Hin.
  - by exists l, r, i.
Qed.

(** X15: the store after a run: an object that was there is still there;
    the raw events kept by the uniqueness filter have had their
    [originCalendar] assigned and nothing else changed; every other object,
    the duplicates dropped by the filter included, is as it was. *)
Theorem processEvents_frame (clock : nat → moment)
    (RegExp_i : string → option (string → bool)) (engine : sort_engine)
    (allEvents : list loc) (config : Config) (s : State)
    (evs : list CalendarEvent) (s' : State) (p : loc) (r : RawEvent) :
  Forall (λ l, is_Some (heap_of s !! l)) allEvents →
  processEvents clock RegExp_i engine allEvents config s = Returned evs s' →
  heap_of s !! p = Some r →
  heap_of s' !! p
  = Some (if bool_decide (p ∈ uniqueEvents (heap_of s) allEvents)
          then converted config r else r).
Proof.
  intros Hvalid Hrun Hp.
  destruct (processEvents_run _ _ _ _ _ _ _ _ Hvalid Hrun)
    as (newEvents & _ & _ & HF & _).
  by apply HF.
Qed.

(** X16: when the configured descriptors are told apart by their [entity]
    property and every raw event comes from a configured calendar, every
    returned event, occurrences included, carries the descriptor of its own
    calendar as [originCalendar]. *)
Theorem processEvents_origin_own (clock : nat → moment)
    (RegExp_i : string → option (string → bool)) (engine : sort_engine)
    (allEvents : list loc) (config : Config) (s : State)
    (evs : list CalendarEvent) (s' : State) (e : CalendarEvent) :
  Forall (λ l, ∃ r own, heap_of s !! l = Some r ∧ Raw.entity r = Some own
                         ∧ own ∈ entities config)
         allEvents →
  NoDup (map dot_entity (entities config)) →
  processEvents clock RegExp_i engine allEvents config s = Returned evs s' →
  e ∈ evs →
  ∃ own, Raw.entity (heap_of s' !!! rawEvent e) = Some own
         ∧ originCalendar (heap_of s') e = Some own
         ∧ own ∈ entities config.
Proof.
  intros Hsource Hdup Hrun He.
  assert (Forall (λ l, is_Some (heap_of s !! l)) allEvents) as Hvalid.
  { eapply Forall_impl; [exact Hsource|]. intros l (r & own & Hr & _). by eexists. }
  destruct (processEvents_run _ _ _ _ _ _ _ _ Hvalid Hrun)
    as (newEvents & -> & _ & HF & HS & _).
  apply elem_of_array_sort in He. rewrite Forall_forall in Hsource.
  unfold originCalendar.
  destruct (HS e He) as [(Hin & _)|(_ & l & r & i & k & Hl & Hr & _ & _ & _ & Hrec & _)].
  - destruct (Hsource _ (uniqueEvents_subset _ _ _ Hin)) as (r & own & Hr & Hown & Hcal).
    pose proof (HF _ _ Hr) as Hrec. rewrite bool_decide_eq_true_2 in Hrec by done.
    exists own. rewrite (lookup_total_Some _ _ _ Hrec). simpl.
    by rewrite (origin_of_own config r own Hdup Hown Hcal).
  - destruct (Hsource _ (uniqueEvents_subset _ _ _ Hl)) as (r' & own & Hr' & Hown & Hcal).
    assert (r' = r) as -> by congruence.
    exists own. rewrite (lookup_total_Some _ _ _ Hrec). simpl.
    by rewrite (origin_of_own config r own Hdup Hown Hcal).
Qed.

(** ** processEvents without expansion *)

Lemma filter_ext_in {A : Type} (P Q : A → Prop) `{!∀ x, Decision (P x)}
    `{!∀ x, Decision (Q x)} (l : list A) :
  (∀ x, x ∈ l → P x ↔ Q x) → filter P l = filter Q l.
Proof.
  induction l as [|x l IH]; intros Hext; [done|].
  rewrite !filter_cons, IH by (intros y Hy; apply Hext; by right).
  destruct (decide (P x)) as [HP|HP]; destruct (decide (Q x)) as [HQ|HQ]; try done.
  - exfalso. apply HQ, (Hext x); [left|done].
  - exfalso. apply HP, (Hext x); [left|done].
Qed.

Lemma filter_all {A : Type} (P : A → Prop) `{!∀ x, Decision (P x)} (l : list A) :
  (∀ x, x ∈ l → P x) → filter P l = l.
Proof.
  induction l as [|x l IH]; intros Hall; [done|].
  rewrite filter_cons_True by (apply Hall; left).
  f_equal. apply IH. intros y Hy. apply Hall. by right.
Qed.

(** With [showMultiDay] off, the reduce makes the list of the unique events
    that get past the filters, in their order, reads the clock no more and
    allocates nothing. *)
Lemma processEvents_no_expansion (clock : nat → moment)
    (RegExp_i : string → option (string → bool)) (engine : sort_engine)
    (allEvents : list loc) (config : Config) (s : State)
    (evs : list CalendarEvent) (s' : State) :
  showMultiDay config = false →
  processEvents clock RegExp_i engine allEvents config s = Returned evs s' →
  evs = array_sort engine (by_start (heap_of s'))
          (map new_CalendarEvent
             (filter (λ l, shown RegExp_i config (startOf_day (clock (ticks s)))
                             (clock (S (ticks s))) (heap_of s') (new_CalendarEvent l)
                           = true)
                     (uniqueEvents (heap_of s) allEvents)))
  ∧ ticks s' = S (S (ticks s))
  ∧ ∀ p, heap_of s' !!! p
         = if bool_decide (p ∈ uniqueEvents (heap_of s) allEvents)
           then converted config (heap_of s !!! p) else heap_of s !!! p.
Proof.
  intros Hmulti Hrun. unfold processEvents in Hrun.
  apply bind_Returned in Hrun as (? & ? & [-> ->]%get_heap_Returned & Hrun).
  apply bind_Returned in Hrun as (t & s1 & [-> ->]%moment_now_Returned & Hrun).
  apply bind_Returned in Hrun as (now & s2 & [-> ->]%moment_now_Returned & Hrun).
  apply bind_Returned in Hrun as (newEvents & s3 & Hreduce & Hrun).
  apply bind_Returned in Hrun as (? & ? & [-> ->]%get_heap_Returned & Hrun).
  apply ret_Returned in Hrun as [-> ->]. simpl in Hreduce.
  set (today := startOf_day (clock (ticks s))) in *.
  set (now := clock (S (ticks s))) in *.
  set (h0 := heap_of s) in *.
  eapply (reduceM_Returned _ _ _ _
            (λ done acc s1,
               acc = map new_CalendarEvent
                       (filter (λ l, shown RegExp_i config today now (heap_of s1)
                                       (new_CalendarEvent l) = true) done)
               ∧ ticks s1 = S (S (ticks s))
               ∧ ∀ p, heap_of s1 !!! p
                      = if bool_decide (p ∈ done)
                        then converted config (h0 !!! p) else h0 !!! p))
    in Hreduce.
  - destruct Hreduce as (-> & Hticks & Hheap). done.
  - done.
  - intros done l acc s1 acc' s2 (-> & Hticks & Hheap) Hstep.
    set (r1 := converted config (h0 !!! l)).
    assert (r1 = converted config (heap_of s1 !!! l)) as Hr1.
    { rewrite Hheap. by destruct (bool_decide _). }
    set (h1 := <[l := r1]> (heap_of s1)).
    pose proof (convert_cases clock RegExp_i config today now _ l s1 acc' s2 r1 h1
                  Hstep Hr1 eq_refl) as Hcases.
    assert (expands config h1 (new_CalendarEvent l) = false) as Hexp
      by (unfold expands; by rewrite Hmulti).
    assert (∀ p, h1 !!! p
                 = if bool_decide (p ∈ done ++ [l])
                   then converted config (h0 !!! p) else h0 !!! p) as Hheap'.
    { intros p. unfold h1. destruct (decide (p = l)) as [->|Hne].
      - rewrite lookup_total_insert_eq.
        by rewrite bool_decide_eq_true_2 by (apply elem_of_app; right; left).
      - rewrite lookup_total_insert_ne by done. rewrite Hheap.
        apply (f_equal (λ b : bool, if b then converted config (h0 !!! p) else h0 !!! p)).
        apply bool_decide_ext. rewrite elem_of_app, list_elem_of_singleton. tauto. }
    assert (filter (λ p, shown RegExp_i config today now h1 (new_CalendarEvent p) = true)
                   done
            = filter (λ p, shown RegExp_i config today now (heap_of s1)
                             (new_CalendarEvent p) = true) done) as Hdone.
    { apply filter_ext_in. intros p Hp.
      rewrite (shown_same RegExp_i config today now h1 (heap_of s1) (new_CalendarEvent p));
        [done|].
      simpl. rewrite Hheap', Hheap.
      rewrite !bool_decide_eq_true_2; [done|done|apply elem_of_app; by left]. }
    destruct Hcases as [(Hs & -> & ->)|[(Hs & _ & -> & ->)|(_ & Hx & _)]];
      [| |congruence]; simpl.
    + split; [|done]. rewrite filter_app, Hdone, filter_cons_False, filter_nil, app_nil_r;
        [done|congruence].
    + split; [|done].
      rewrite filter_app, Hdone, filter_cons_True, filter_nil, map_app by done. done.
Qed.

(** X17: with [showMultiDay] off, the result is exactly the unique raw
    events that get past the filters, each wrapped once, sorted; the clock
    is read twice and every returned event wraps one of the raw events
    passed in. *)
Theorem processEvents_without_expansion (clock : nat → moment)
    (RegExp_i : string → option (string → bool)) (engine : sort_engine)
    (allEvents : list loc) (config : Config) (s : State)
    (evs : list CalendarEvent) (s' : State) :
  showMultiDay config = false →
  processEvents clock RegExp_i engine allEvents config s = Returned evs s' →
  evs = array_sort engine (by_start (heap_of s'))
          (map new_CalendarEvent
             (filter (λ l, shown RegExp_i config (startOf_day (clock (ticks s)))
                             (clock (S (ticks s))) (heap_of s') (new_CalendarEvent l)
                           = true)
                     (uniqueEvents (heap_of s) allEvents)))
  ∧ ticks s' = S (S (ticks s))
  ∧ ∀ e, e ∈ evs → rawEvent e ∈ allEvents.
Proof.
  intros Hmulti Hrun.
  destruct (processEvents_no_expansion _ _ _ _ _ _ _ _ Hmulti Hrun) as (Hevs & Hticks & _).
  split; [done|]. split; [done|].
  intros e He. rewrite Hevs in He. apply elem_of_array_sort in He.
  apply list_elem_of_fmap in He as (l & -> & Hl). simpl.
  apply list_elem_of_filter in Hl as [_ Hl]. by eapply uniqueEvents_subset.
Qed.

(** ** processEvents: when it returns and when it throws *)

Lemma bind_Returned_at {A B : Type} (m : M A) (f : A → M B) (s : State) (a : A)
    (s1 : State) :
  m s = Returned a s1 → (m ≫= f) s = f a s1.
Proof. intros H. unfold mbind, M_bind. by rewrite H. Qed.

Lemma bind_Thrown_at {A B : Type} (m : M A) (f : A → M B) (s : State) (err : Error)
    (s1 : State) :
  m s = Thrown err s1 → (m ≫= f) s = Thrown err s1.
Proof. intros H. unfold mbind, M_bind. by rewrite H. Qed.

(** A [reduce] returns when its callback returns from every state that
    satisfies an invariant it keeps. *)
Lemma reduceM_returns_from {A B : Type} (f : B → A → M B) (l : list A)
    (I : State → Prop) :
  (∀ acc x s, x ∈ l → I s → ∃ acc' s', f acc x s = Returned acc' s' ∧ I s') →
  ∀ acc s, I s → ∃ acc' s', reduceM f l acc s = Returned acc' s' ∧ I s'.
Proof.
  induction l as [|x l IH]; intros Hf acc s Hs; simpl.
  - by exists acc, s.
  - destruct (Hf acc x s) as (acc1 & s1 & Hstep & Hs1); [left|done|].
    rewrite (bind_Returned_at _ _ _ _ _ Hstep).
    apply IH; [|done]. intros acc0 y s0 Hy. apply Hf. by right.
Qed.

Lemma attributable_evolves (config : Config) (h h' : heap) (allEvents : list loc) :
  evolves config h h' → attributable config h allEvents →
  attributable config h' allEvents.
Proof.
  intros Hev [Hnone|Hall]; [by left|]. right.
  eapply Forall_impl; [exact Hall|]. intros l (r & Hr & Htag).
  destruct (Hev _ _ Hr) as [H|H]; eexists; (split; [exact H|done]).
Qed.

Section returns_more.
Variable clock : nat → moment.
Variable RegExp_i : string → option (string → bool).
Variable engine : sort_engine.
Variable config : Config.

Lemma returns_ignored_by_usable (pattern : string) (text : option string) :
  pattern = "" ∨ is_Some (RegExp_i pattern) →
  returns (ignored_by RegExp_i pattern text).
Proof.
  intros [->|Hsome]; [|by apply returns_ignored_by].
  unfold ignored_by. simpl. apply returns_ret.
Qed.

(** The attribution returns when there is no entry to test or the raw
    event carries an [entity]. *)
Lemma find_origin_returns (r : RawEvent) (s : State) :
  entities config = [] ∨ is_Some (Raw.entity r) →
  find_origin config r s = Returned (origin_of config r) s.
Proof.
  unfold find_origin. intros [->|[d ->]]; [by destruct (Raw.entity r)|done].
Qed.

(** It throws otherwise, before anything is written. *)
Lemma find_origin_throws (r : RawEvent) (s : State) :
  entities config ≠ [] → Raw.entity r = None →
  find_origin config r s = Thrown TypeError s.
Proof.
  unfold find_origin. intros Hsome ->. by destruct (entities config).
Qed.

Hypothesis title_pattern :
  ignoreEventsExpression config = ""
  ∨ is_Some (RegExp_i (ignoreEventsExpression config)).
Hypothesis location_pattern :
  ignoreEventsByLocationExpression config = ""
  ∨ is_Some (RegExp_i (ignoreEventsByLocationExpression config)).

(** The callback returns on a raw event whose attribution does not throw. *)
Lemma convert_returns (today now : moment) (events_ : list CalendarEvent)
    (caldavEvent : loc) (s : State) :
  entities config = [] ∨ is_Some (Raw.entity (heap_of s !!! caldavEvent)) →
  ∃ evs' s', convert clock RegExp_i config today now events_ caldavEvent s
             = Returned evs' s'.
Proof.
  intros Hfind. unfold convert.
  rewrite (bind_Returned_at get_heap _ s (heap_of s) s eq_refl).
  rewrite (bind_Returned_at _ _ _ _ _ (find_origin_returns _ s Hfind)).
  match goal with |- ∃ a s', ?m s = _ => assert (returns m) as Hret end; [|apply Hret].
  apply returns_bind; [intros s0; by eexists _, _|]. intros _.
  apply returns_bind; [apply returns_get_heap|]. intros h.
  repeat (match goal with
          | |- returns (if ?c then _ else _) => destruct c
          end; [apply returns_ret|]).
  apply returns_bind; [by apply returns_ignored_by_usable|].
  intros [|]; [apply returns_ret|].
  apply returns_bind; [by apply returns_ignored_by_usable|].
  intros [|]; [apply returns_ret|].
  destruct (_ && _); [|apply returns_ret].
  apply returns_bind; [apply returns_moment_now|]. intros t.
  apply returns_bind; [|intros; apply returns_ret].
  apply returns_reduceM. intros acc i. apply returns_expand_step.
Qed.

Lemma processEvents_returns_attributable (allEvents : list loc) (s : State) :
  attributable config (heap_of s) allEvents →
  ∃ evs s', processEvents clock RegExp_i engine allEvents config s = Returned evs s'.
Proof.
  intros Hattr. unfold processEvents.
  rewrite (bind_Returned_at get_heap _ s (heap_of s) s eq_refl).
  rewrite (bind_Returned_at (moment_now clock) _ s _ _ eq_refl).
  rewrite (bind_Returned_at (moment_now clock) _ _ _ _ eq_refl).
  destruct (reduceM_returns_from
              (convert clock RegExp_i config (startOf_day (clock (ticks s)))
                 (clock (S (ticks s))))
              (uniqueEvents (heap_of s) allEvents)
              (λ s1, attributable config (heap_of s1) allEvents))
    with (acc := @nil CalendarEvent) (s := mkState (heap_of s) (S (S (ticks s))))
    as (newEvents & s3 & Hreduce & _).
  - intros acc l s1 Hl%uniqueEvents_subset Hs1.
    destruct (convert_returns (startOf_day (clock (ticks s))) (clock (S (ticks s)))
                acc l s1) as (acc' & s2 & Hstep).
    { destruct Hs1 as [Hnone|Hall]; [by left|]. right.
      rewrite Forall_forall in Hall. destruct (Hall _ Hl) as (r & Hr & Htag).
      by rewrite (lookup_total_Some _ _ _ Hr). }
    exists acc', s2. split; [done|].
    eapply attributable_evolves; [|exact Hs1]. by eapply convert_spec.
  - done.
  - simpl in Hreduce |- *. rewrite (bind_Returned_at _ _ _ _ _ Hreduce).
    rewrite (bind_Returned_at get_heap _ s3 (heap_of s3) s3 eq_refl). by eexists _, _.
Qed.
End returns_more.

(** X18: [processEvents] returns as soon as each of the two ignore patterns
    is empty or compiles, an empty pattern being never compiled, and the
    attribution has what it reads: no descriptor is configured, or every
    raw event passed in carries an [entity]. *)
Theorem processEvents_returns_unless_bad_pattern (clock : nat → moment)
    (RegExp_i : string → option (string → bool)) (engine : sort_engine)
    (allEvents : list loc) (config : Config) (s : State) :
  ignoreEventsExpression config = ""
  ∨ is_Some (RegExp_i (ignoreEventsExpression config)) →
  ignoreEventsByLocationExpression config = ""
  ∨ is_Some (RegExp_i (ignoreEventsByLocationExpression config)) →
  attributable config (heap_of s) allEvents →
  ∃ evs s', processEvents clock RegExp_i engine allEvents config s = Returned evs s'.
Proof.
  intros Htitle Hlocation Hattr. by apply processEvents_returns_attributable.
Qed.

(** The callback throws on an event with a title that reaches the title
    filter, when the title pattern is not empty and does not compile; the
    event has got its [originCalendar] by then. *)
Lemma convert_throws (clock : nat → moment)
    (RegExp_i : string → option (string → bool)) (config : Config)
    (today now : moment) (events_ : list CalendarEvent) (l : loc) (s : State) :
  hidePastEvents config
    && isBefore (endDateTime (heap_of s) (new_CalendarEvent l)) now = false →
  startFromToday config
    && isAfter today (endDateTime (heap_of s) (new_CalendarEvent l)) = false →
  truthy_string (ignoreEventsExpression config) = true →
  RegExp_i (ignoreEventsExpression config) = None →
  truthy_opt (title (heap_of s) (new_CalendarEvent l)) = true →
  entities config = [] ∨ is_Some (Raw.entity (heap_of s !!! l)) →
  convert clock RegExp_i config today now events_ l s
  = Thrown (SyntaxError (ignoreEventsExpression config))
           (mkState (<[l := converted config (heap_of s !!! l)]> (heap_of s)) (ticks s)).
Proof.
  intros Hpast Htoday Hpattern Hbad Htitle Hfind.
  unfold convert.
  rewrite (bind_Returned_at get_heap _ s (heap_of s) s eq_refl).
  rewrite (bind_Returned_at _ _ _ _ _ (find_origin_returns config _ s Hfind)).
  unfold mbind, M_bind, get_heap, assign_originCalendar. simpl.
  assert (endDateTime
            (<[l := Raw.with_originCalendar (heap_of s !!! l)
                      (origin_of config (heap_of s !!! l))]> (heap_of s))
            (new_CalendarEvent l)
          = endDateTime (heap_of s) (new_CalendarEvent l)) as ->.
  { unfold endDateTime. simpl. by rewrite lookup_total_insert_eq. }
  rewrite Hpast, Htoday.
  unfold ignored_by, title. simpl. rewrite lookup_total_insert_eq. simpl.
  unfold title in Htitle. simpl in Htitle. rewrite Hpattern, Htitle. simpl.
  unfold mbind, M_bind, new_RegExp. by rewrite Hbad.
Qed.

(** The callback throws on a raw event without [entity] as soon as a
    descriptor is configured, before it writes anything. *)
Lemma convert_throws_TypeError (clock : nat → moment)
    (RegExp_i : string → option (string → bool)) (config : Config)
    (today now : moment) (events_ : list CalendarEvent) (l : loc) (s : State) :
  entities config ≠ [] →
  Raw.entity (heap_of s !!! l) = None →
  convert clock RegExp_i config today now events_ l s = Thrown TypeError s.
Proof.
  intros Hsome Htag. unfold convert.
  rewrite (bind_Returned_at get_heap _ s (heap_of s) s eq_refl).
  by rewrite (bind_Thrown_at _ _ _ _ _ (find_origin_throws config _ s Hsome Htag)).
Qed.

(** X19: a title pattern that is not empty and does not compile makes
    [processEvents] throw as soon as one unique event with a title reaches
    the title filter: nothing is returned. *)
Theorem processEvents_throws_on_bad_pattern (clock : nat → moment)
    (RegExp_i : string → option (string → bool)) (engine : sort_engine)
    (allEvents : list loc) (config : Config) (s : State) (l : loc) :
  ignoreEventsExpression config ≠ "" →
  RegExp_i (ignoreEventsExpression config) = None →
  l ∈ uniqueEvents (heap_of s) allEvents →
  is_Some (heap_of s !! l) →
  hidePastEvents config
    && isBefore (endDateTime (heap_of s) (new_CalendarEvent l)) (clock (S (ticks s)))
    = false →
  startFromToday config
    && isAfter (startOf_day (clock (ticks s)))
               (endDateTime (heap_of s) (new_CalendarEvent l)) = false →
  truthy_opt (title (heap_of s) (new_CalendarEvent l)) = true →
  ∃ err s', processEvents clock RegExp_i engine allEvents config s = Thrown err s'.
Proof.
  intros Hne Hbad Hl [r Hr] Hpast Htoday Htitle.
  destruct (processEvents clock RegExp_i engine allEvents config s)
    as [evs s'|err s'] eqn:Hrun; [exfalso|by eauto].
  unfold processEvents in Hrun.
  apply bind_Returned in Hrun as (? & ? & [-> ->]%get_heap_Returned & Hrun).
  apply bind_Returned in Hrun as (t & s1 & [-> ->]%moment_now_Returned & Hrun).
  apply bind_Returned in Hrun as (now & s2 & [-> ->]%moment_now_Returned & Hrun).
  apply bind_Returned in Hrun as (newEvents & s3 & Hreduce & _).
  simpl in Hreduce.
  set (h0 := heap_of s) in *.
  eapply (reduceM_Returned _ _ _ _
            (λ done acc s1, evolves config h0 (heap_of s1) ∧ l ∉ done))
    in Hreduce.
  - destruct Hreduce as [_ Hnot]. by apply Hnot.
  - split; [apply evolves_refl|]. by intros ?%elem_of_nil.
  - intros done x acc s1' acc' s2' [Hev Hdone] Hstep. split.
    + eapply evolves_trans; [done|]. by eapply convert_spec.
    + intros [?| <-%list_elem_of_singleton]%elem_of_app; [done|].
      assert (heap_of s1' !!! l = r ∨ heap_of s1' !!! l = converted config r) as Hsame.
      { destruct (Hev _ _ Hr) as [H|H]; rewrite (lookup_total_Some _ _ _ H); auto. }
      assert (endDateTime (heap_of s1') (new_CalendarEvent l)
              = endDateTime h0 (new_CalendarEvent l)) as Hend.
      { unfold endDateTime. simpl.
        rewrite (lookup_total_Some _ _ _ Hr). by destruct Hsame as [->| ->]. }
      assert (title (heap_of s1') (new_CalendarEvent l)
              = title h0 (new_CalendarEvent l)) as Htitle'.
      { unfold title. simpl.
        rewrite (lookup_total_Some _ _ _ Hr). by destruct Hsame as [->| ->]. }
      destruct (decide (entities config = [])) as [Hnone|Hsome];
        [|destruct (Raw.entity (heap_of s1' !!! l)) as [d|] eqn:Htag].
      * rewrite convert_throws in Hstep;
          [done|by rewrite Hend..| |done|by rewrite Htitle'|by left].
        unfold truthy_string. apply negb_true_iff, String.eqb_neq. done.
      * rewrite convert_throws in Hstep;
          [done|by rewrite Hend..| |done|by rewrite Htitle'|right; by rewrite Htag].
        unfold truthy_string. apply negb_true_iff, String.eqb_neq. done.
      * by rewrite convert_throws_TypeError in Hstep.
Qed.

(** X28: a raw event that carries no [entity] makes [processEvents] throw
    as soon as a descriptor is configured and the event is among those the
    uniqueness filter keeps: the attribution reads a property of
    [undefined], and nothing is returned. *)
Theorem processEvents_throws_on_untagged_event (clock : nat → moment)
    (RegExp_i : string → option (string → bool)) (engine : sort_engine)
    (allEvents : list loc) (config : Config) (s : State) (l : loc) (r : RawEvent) :
  entities config ≠ [] →
  l ∈ uniqueEvents (heap_of s) allEvents →
  heap_of s !! l = Some r →
  Raw.entity r = None →
  ∃ err s', processEvents clock RegExp_i engine allEvents config s = Thrown err s'.
Proof.
  intros Hsome Hl Hr Htag.
  destruct (processEvents clock RegExp_i engine allEvents config s)
    as [evs s'|err s'] eqn:Hrun; [exfalso|by eauto].
  unfold processEvents in Hrun.
  apply bind_Returned in Hrun as (? & ? & [-> ->]%get_heap_Returned & Hrun).
  apply bind_Returned in Hrun as (t & s1 & [-> ->]%moment_now_Returned & Hrun).
  apply bind_Returned in Hrun as (now & s2 & [-> ->]%moment_now_Returned & Hrun).
  apply bind_Returned in Hrun as (newEvents & s3 & Hreduce & _).
  simpl in Hreduce.
  set (h0 := heap_of s) in *.
  eapply (reduceM_Returned _ _ _ _
            (λ done acc s1, evolves config h0 (heap_of s1) ∧ l ∉ done))
    in Hreduce.
  - destruct Hreduce as [_ Hnot]. by apply Hnot.
  - split; [apply evolves_refl|]. by intros ?%elem_of_nil.
  - intros done x acc s1' acc' s2' [Hev Hdone] Hstep. split.
    + eapply evolves_trans; [done|]. by eapply convert_spec.
    + intros [?| <-%list_elem_of_singleton]%elem_of_app; [done|].
      rewrite convert_throws_TypeError in Hstep; [done|done|].
      destruct (Hev _ _ Hr) as [H|H]; by rewrite (lookup_total_Some _ _ _ H).
Qed.

(** X20: with every filter and the expansion off, no ignore pattern, and
    an input on which the attribution has what it reads (no descriptor is
    configured, or every raw event carries an [entity]), [processEvents]
    returns the unique raw events, each wrapped once, sorted. *)
Theorem processEvents_all_filters_off (clock : nat → moment)
    (RegExp_i : string → option (string → bool)) (engine : sort_engine)
    (allEvents : list loc) (config : Config) (s : State) :
  showMultiDay config = false →
  hidePastEvents config = false →
  startFromToday config = false →
  ignoreEventsExpression config = "" →
  ignoreEventsByLocationExpression config = "" →
  attributable config (heap_of s) allEvents →
  ∃ s', processEvents clock RegExp_i engine allEvents config s
        = Returned (array_sort engine (by_start (heap_of s'))
                      (map new_CalendarEvent (uniqueEvents (heap_of s) allEvents)))
                   s'.
Proof.
  intros Hmulti Hpast Htoday Htitle Hlocation Hattr.
  destruct (processEvents_returns_attributable clock RegExp_i engine config
              (or_introl Htitle) (or_introl Hlocation) allEvents s Hattr)
    as (evs & s' & Hrun).
  exists s'. rewrite Hrun. f_equal.
  destruct (processEvents_no_expansion _ _ _ _ _ _ _ _ Hmulti Hrun) as (-> & _).
  f_equal. f_equal. apply filter_all. intros l _.
  unfold shown, excluded_by. by rewrite Hpast, Htoday, Htitle, Hlocation.
Qed.

(** X21: in the result, an event at a lower index never starts after an
    event at a higher index. *)
Theorem processEvents_order_by_index (clock : nat → moment)
    (RegExp_i : string → option (string → bool)) (engine : sort_engine)
    (allEvents : list loc) (config : Config) (s : State)
    (evs : list CalendarEvent) (s' : State) (i j : nat) (a b : CalendarEvent) :
  processEvents clock RegExp_i engine allEvents config s = Returned evs s' →
  evs !! i = Some a → evs !! j = Some b → (i ≤ j)%nat →
  startDateTime (heap_of s') a ≤ startDateTime (heap_of s') b.
Proof.
  intros Hsorted%processEvents_ascending.
  revert i j. induction Hsorted as [|x l Hl IH Hx]; intros i j Hi Hj Hij.
  - by rewrite lookup_nil in Hi.
  - destruct i as [|i], j as [|j]; simpl in *; try lia.
    + injection Hi as ->. injection Hj as ->. lia.
    + injection Hi as ->. rewrite Forall_forall in Hx.
      apply Hx. by eapply list_elem_of_lookup_2.
    + eapply IH; [done..|lia].
Qed.

(** ** Instances of the further properties *)

Lemma uniqueEvents_distinct_keys_witness :
  uniqueEvents Agenda.week [0; 1; 2; 3]%nat = [0; 1; 2; 3]%nat.
Proof.
  apply (uniqueEvents_distinct_keys Agenda.week [0; 1; 2; 3]%nat).
  - repeat (constructor; [vm_compute; reflexivity|]). constructor.
  - apply (bool_decide_unpack _). vm_compute. exact I.
Defined.

Lemma uniqueEvents_without_keys_witness :
  uniqueEvents Agenda.unkeyed [0; 1]%nat = take 1 [0; 1]%nat.
Proof.
  apply (uniqueEvents_without_keys Agenda.unkeyed [0; 1]%nat).
  repeat (constructor; [split; vm_compute; reflexivity|]). constructor.
Defined.

Lemma processEvents_filters_witness :
  (hidePastEvents Agenda.filters_on = true →
   Scenario.morning 1 ≤ endDateTime (heap_of Agenda.final) (new_CalendarEvent 1%nat))
  ∧ (startFromToday Agenda.filters_on = true →
     startOf_day (Scenario.morning 0)
     ≤ endDateTime (heap_of Agenda.final) (new_CalendarEvent 1%nat))
  ∧ (∀ test text,
       ignoreEventsExpression Agenda.filters_on ≠ ""%string →
       Agenda.standup_only (ignoreEventsExpression Agenda.filters_on) = Some test →
       title (heap_of Agenda.final) (new_CalendarEvent 1%nat) = Some text →
       text ≠ ""%string →
       test text = false)
  ∧ (∀ test text,
       ignoreEventsByLocationExpression Agenda.filters_on ≠ ""%string →
       Agenda.standup_only (ignoreEventsByLocationExpression Agenda.filters_on)
       = Some test →
       location (heap_of Agenda.final) (new_CalendarEvent 1%nat) = Some text →
       text ≠ ""%string →
       test text = false)
  ∧ (showMultiDay Agenda.filters_on = true →
     isMultiDay (heap_of Agenda.final) (new_CalendarEvent 1%nat) = false).
Proof.
  apply (processEvents_filters Scenario.morning Agenda.standup_only MovesLeftOnNegative
           Agenda.fetched Agenda.filters_on (mkState Agenda.week 0)
           Agenda.result Agenda.final (new_CalendarEvent 1%nat)).
  - repeat (constructor; [vm_compute; eexists; reflexivity|]). constructor.
  - vm_compute. reflexivity.
  - apply list_elem_of_In. vm_compute. right. left. reflexivity.
  - apply list_elem_of_In. vm_compute. right. left. reflexivity.
Defined.

Lemma processEvents_keeps_shown_witness :
  new_CalendarEvent 1%nat ∈ Agenda.result.
Proof.
  apply (processEvents_keeps_shown Scenario.morning Agenda.standup_only
           MovesLeftOnNegative Agenda.fetched Agenda.filters_on (mkState Agenda.week 0)
           Agenda.result Agenda.final 1%nat).
  - repeat (constructor; [vm_compute; eexists; reflexivity|]). constructor.
  - vm_compute. reflexivity.
  - apply list_elem_of_In. vm_compute. right. left. reflexivity.
  - vm_compute. reflexivity.
  - vm_compute. reflexivity.
Defined.


Lemma processEvents_occurrence_source_witness :
  ∃ l r i,
    l ∈ uniqueEvents Agenda.week Agenda.fetched
    ∧ Agenda.week !! l = Some r
    ∧ shown Agenda.standup_only Agenda.filters_on (startOf_day (Scenario.morning 0))
            (Scenario.morning 1) (heap_of Agenda.final) (new_CalendarEvent l) = true
    ∧ expands Agenda.filters_on (heap_of Agenda.final) (new_CalendarEvent l) = true
    ∧ 0 ≤ i < span_days r
    ∧ heap_of Agenda.final !! 5%nat
      = Some (occurrence_record (converted Agenda.filters_on r) i).
Proof.
  apply (processEvents_occurrence_source Scenario.morning Agenda.standup_only
           MovesLeftOnNegative Agenda.fetched Agenda.filters_on (mkState Agenda.week 0)
           Agenda.result Agenda.final (new_CalendarEvent 5%nat)).
  - repeat (constructor; [vm_compute; eexists; reflexivity|]). constructor.
  - vm_compute. reflexivity.
  - apply list_elem_of_In. vm_compute. right. right. left. reflexivity.
  - apply (bool_decide_unpack _). vm_compute. exact I.
Defined.

Lemma processEvents_frame_witness :
  heap_of Agenda.final !! 0%nat
  = Some (if bool_decide (0%nat ∈ uniqueEvents Agenda.week Agenda.fetched)
          then converted Agenda.filters_on Agenda.standup else Agenda.standup).
Proof.
  apply (processEvents_frame Scenario.morning Agenda.standup_only MovesLeftOnNegative
           Agenda.fetched Agenda.filters_on (mkState Agenda.week 0)
           Agenda.result Agenda.final 0%nat Agenda.standup).
  - repeat (constructor; [vm_compute; eexists; reflexivity|]). constructor.
  - vm_compute. reflexivity.
  - vm_compute. reflexivity.
Defined.

Lemma processEvents_origin_own_witness :
  ∃ own,
    Raw.entity (heap_of (Scenario.state_of Agenda.both_outcome)
                !!! rawEvent (new_CalendarEvent 1%nat)) = Some own
    ∧ originCalendar (heap_of (Scenario.state_of Agenda.both_outcome))
                     (new_CalendarEvent 1%nat) = Some own
    ∧ own ∈ entities Agenda.two_calendars.
Proof.
  apply (processEvents_origin_own Scenario.morning Scenario.no_match
           MovesLeftOnNegative [0; 1]%nat Agenda.two_calendars (mkState Agenda.both 0)
           (Scenario.events_of Agenda.both_outcome)
           (Scenario.state_of Agenda.both_outcome) (new_CalendarEvent 1%nat)).
  - constructor; [|constructor; [|constructor]].
    + exists Agenda.planning, Scenario.calendar_a.
      split; [vm_compute; reflexivity|]. split; [reflexivity|].
      apply list_elem_of_In. left. reflexivity.
    + exists Agenda.handover, Agenda.calendar_b.
      split; [vm_compute; reflexivity|]. split; [reflexivity|].
      apply list_elem_of_In. right. left. reflexivity.
  - apply (bool_decide_unpack _). vm_compute. exact I.
  - vm_compute. reflexivity.
  - apply list_elem_of_In. vm_compute. right. left. reflexivity.
Defined.

Lemma processEvents_without_expansion_witness :
  Scenario.events_of Agenda.plain_outcome
  = array_sort StaysOnNonPositive
      (by_start (heap_of (Scenario.state_of Agenda.plain_outcome)))
      (map new_CalendarEvent
         (filter (λ l, shown Agenda.standup_only Agenda.plain
                         (startOf_day (Scenario.morning 0)) (Scenario.morning 1)
                         (heap_of (Scenario.state_of Agenda.plain_outcome))
                         (new_CalendarEvent l) = true)
                 (uniqueEvents Agenda.week Agenda.fetched)))
  ∧ ticks (Scenario.state_of Agenda.plain_outcome) = 2%nat
  ∧ ∀ e, e ∈ Scenario.events_of Agenda.plain_outcome → rawEvent e ∈ Agenda.fetched.
Proof.
  apply (processEvents_without_expansion Scenario.morning Agenda.standup_only
           StaysOnNonPositive Agenda.fetched Agenda.plain (mkState Agenda.week 0)
           (Scenario.events_of Agenda.plain_outcome)
           (Scenario.state_of Agenda.plain_outcome)).
  - reflexivity.
  - vm_compute. reflexivity.
Defined.

Lemma processEvents_returns_unless_bad_pattern_witness :
  ∃ evs s',
    processEvents Scenario.morning Agenda.never_compiles MovesLeftOnNegative
                  Agenda.fetched Agenda.plain (mkState Agenda.week 0)
    = Returned evs s'.
Proof.
  apply (processEvents_returns_unless_bad_pattern Scenario.morning Agenda.never_compiles
           MovesLeftOnNegative Agenda.fetched Agenda.plain (mkState Agenda.week 0)).
  - left. reflexivity.
  - left. reflexivity.
  - right. repeat (constructor; [eexists; split; [vm_compute; reflexivity|by eexists]|]).
    constructor.
Defined.

Lemma processEvents_throws_on_bad_pattern_witness :
  ∃ err s',
    processEvents Scenario.morning Agenda.standup_only MovesLeftOnNegative
                  Agenda.fetched Agenda.bad_pattern (mkState Agenda.week 0)
    = Thrown err s'.
Proof.
  apply (processEvents_throws_on_bad_pattern Scenario.morning Agenda.standup_only
           MovesLeftOnNegative Agenda.fetched Agenda.bad_pattern (mkState Agenda.week 0)
           0%nat).
  - intros H. discriminate H.
  - reflexivity.
  - apply list_elem_of_In. vm_compute. left. reflexivity.
  - vm_compute. eexists. reflexivity.
  - vm_compute. reflexivity.
  - vm_compute. reflexivity.
  - vm_compute. reflexivity.
Defined.

Lemma processEvents_all_filters_off_witness :
  ∃ s',
    processEvents Scenario.morning Agenda.never_compiles StaysOnNonPositive
                  Agenda.fetched Agenda.plain (mkState Agenda.week 0)
    = Returned (array_sort StaysOnNonPositive (by_start (heap_of s'))
                  (map new_CalendarEvent (uniqueEvents Agenda.week Agenda.fetched)))
               s'.
Proof.
  apply (processEvents_all_filters_off Scenario.morning Agenda.never_compiles
           StaysOnNonPositive Agenda.fetched Agenda.plain (mkState Agenda.week 0));
    try reflexivity.
  right. repeat (constructor; [eexists; split; [vm_compute; reflexivity|by eexists]|]).
  constructor.
Defined.

Lemma processEvents_throws_on_untagged_event_witness :
  ∃ err s',
    processEvents Scenario.morning Scenario.no_match MovesLeftOnNegative [0; 1]%nat
                  Agenda.two_calendars (mkState Agenda.with_untagged 0)
    = Thrown err s'.
Proof.
  apply (processEvents_throws_on_untagged_event Scenario.morning Scenario.no_match
           MovesLeftOnNegative [0; 1]%nat Agenda.two_calendars
           (mkState Agenda.with_untagged 0) 1%nat Agenda.untagged).
  - intros H. discriminate H.
  - apply list_elem_of_In. vm_compute. right. left. reflexivity.
  - vm_compute. reflexivity.
  - reflexivity.
Defined.

Lemma processEvents_order_by_index_witness :
  startDateTime (heap_of Agenda.final) (new_CalendarEvent 4%nat)
  ≤ startDateTime (heap_of Agenda.final) (new_CalendarEvent 5%nat).
Proof.
  apply (processEvents_order_by_index Scenario.morning Agenda.standup_only
           MovesLeftOnNegative Agenda.fetched Agenda.filters_on (mkState Agenda.week 0)
           Agenda.result Agenda.final 0%nat 2%nat).
  - vm_compute. reflexivity.
  - vm_compute. reflexivity.
  - vm_compute. reflexivity.
  - lia.
Defined.

(** ** getAllEvents *)

(** The payload of a request becomes as many new objects, each tagged with
    the entity; the objects that were there are untouched. *)
Lemma receive_spec (entity : EntityDescriptor) (rawEvents : list RawEvent)
    (events_ : list loc) (s : State) (events' : list loc) (s' : State) :
  reduceM (receive entity) rawEvents events_ s = Returned events' s' →
  ticks s' = ticks s
  ∧ (∀ p r, heap_of s !! p = Some r → heap_of s' !! p = Some r)
  ∧ ∃ new,
      events' = events_ ++ new
      ∧ NoDup new
      ∧ (∀ l, l ∈ new → heap_of s !! l = None)
      ∧ Forall2 (λ l r, heap_of s' !! l = Some (with_entity r entity)) new rawEvents.
Proof.
  revert events_ s. induction rawEvents as [|r rest IH]; intros events_ s Hrun; simpl in Hrun.
  - apply ret_Returned in Hrun as [-> ->]. split; [done|]. split; [done|].
    exists []. rewrite app_nil_r. repeat split; try constructor. by intros l ?%elem_of_nil.
  - apply bind_Returned in Hrun as (acc & s1 & Hstep & Hrun).
    unfold receive in Hstep.
    apply bind_Returned in Hstep as (l & s1' & [-> ->]%alloc_Returned & Hstep).
    apply ret_Returned in Hstep as [-> ->].
    set (l := fresh (dom (heap_of s))) in *.
    assert (heap_of s !! l = None) as Hfresh by (apply not_elem_of_dom, is_fresh).
    destruct (IH _ _ Hrun) as (Hticks & Hold & new & -> & Hdup & Hnew & Hall).
    simpl in *. split; [done|]. split.
    { intros p r' Hp. apply Hold. rewrite lookup_insert_ne; [done|]. congruence. }
    exists (l :: new). split; [by rewrite <- app_assoc|]. split.
    { constructor; [|done]. intros Hl. specialize (Hnew _ Hl).
      by rewrite lookup_insert_eq in Hnew. }
    split.
    { intros l' [->|Hl']%elem_of_cons; [done|].
      specialize (Hnew _ Hl'). by apply lookup_insert_None in Hnew as [? _]. }
    constructor; [|done]. apply Hold. by rewrite lookup_insert_eq.
Qed.

Lemma returns_receive (entity : EntityDescriptor) (rawEvents : list RawEvent)
    (events_ : list loc) :
  returns (reduceM (receive entity) rawEvents events_).
Proof.
  apply returns_reduceM. intros acc r. unfold receive.
  apply returns_bind; [intros s; by eexists _, _|]. intros l. apply returns_ret.
Qed.

Section fetching_facts.
Variable clock : nat → moment.
Variable RegExp_i : string → option (string → bool).
Variable engine : sort_engine.
Variable callApi : nat → string → response.
Variable settled : list nat.
Variable config : Config.

Lemma returns_settle (start end_ : string) (lists : list loc * list Failed.t) (i : nat) :
  returns (settle callApi config start end_ lists i).
Proof.
  unfold settle. destruct (entities config !! i) as [entity|]; [|apply returns_ret].
  destruct (callApi i _) as [rawEvents|error]; [|apply returns_ret].
  apply returns_bind; [apply returns_receive|]. intros events_. apply returns_ret.
Qed.

Lemma delivered_later (t : moment) (done done' : list nat) (h0 h h' : heap) (l : loc) :
  done ⊆ done' →
  (∀ p r, h !! p = Some r → h' !! p = Some r) →
  delivered callApi config t done h0 h l → delivered callApi config t done' h0 h' l.
Proof.
  intros Hdone Hold (Hnew & i & entity & rawEvents & r & Hi & He & Hreq & Hr & Hl).
  split; [done|]. exists i, entity, rawEvents, r. repeat split; auto.
Qed.

(** The settlements: the objects that were there stay as they are, the
    clock is not read, [failedEvents] holds the rejected requests in the
    order of settlement and [allEvents] holds new objects, one for each
    event of a payload. *)
Lemma settlements_spec (t : moment) (s : State) (lists : list loc * list Failed.t)
    (s' : State) :
  reduceM (settle callApi config (format_dateFormat (startOf_day t))
             (format_dateFormat (add_days (startOf_day t) (numberOfDays config))))
          settled ([], []) s
  = Returned lists s' →
  ticks s' = ticks s
  ∧ (∀ p r, heap_of s !! p = Some r → heap_of s' !! p = Some r)
  ∧ lists.2 = omap (failure_of callApi config t) settled
  ∧ NoDup lists.1
  ∧ ∀ l, l ∈ lists.1 → delivered callApi config t settled (heap_of s) (heap_of s') l.
Proof.
  intros Hrun.
  eapply (reduceM_Returned _ _ _ _
            (λ done (lists : list loc * list Failed.t) s1,
               ticks s1 = ticks s
               ∧ (∀ p r, heap_of s !! p = Some r → heap_of s1 !! p = Some r)
               ∧ lists.2 = omap (failure_of callApi config t) done
               ∧ NoDup lists.1
               ∧ ∀ l, l ∈ lists.1 →
                      delivered callApi config t done (heap_of s) (heap_of s1) l))
    in Hrun; [exact Hrun| |].
  - simpl. split; [done|]. split; [done|]. split; [done|]. split; [constructor|].
    by intros l ?%elem_of_nil.
  - clear Hrun lists s'.
    intros done i [allEvents failedEvents] s1 lists' s2
      (Hticks & Hold & Hfailed & Hdup & Hdel) Hstep.
    simpl in *. rewrite omap_app. simpl. unfold failure_of at 2, request_of.
    unfold settle in Hstep.
    destruct (entities config !! i) as [entity|] eqn:Hentity.
    + destruct (callApi i _) as [rawEvents|error] eqn:Hreq; simpl in Hstep.
      * apply bind_Returned in Hstep as (events_ & s1' & Hrec & Hret).
        apply ret_Returned in Hret as [-> ->]. simpl.
        apply receive_spec in Hrec as (Hticks' & Hold' & new & -> & Hdup' & Hnew & Hall).
        simpl. split; [congruence|]. split; [by auto|].
        split; [by rewrite app_nil_r|]. split.
        { apply NoDup_app. split; [done|]. split; [|done].
          intros l Hl Hl'. destruct (Hdel _ Hl) as (_ & ? & ? & ? & ? & _ & _ & _ & _ & Hs).
          specialize (Hnew _ Hl'). congruence. }
        intros l [Hl|Hl]%elem_of_app.
        { eapply delivered_later; [|exact Hold'|by apply Hdel].
          intros ??. apply elem_of_app. by left. }
        split.
        { specialize (Hnew _ Hl). destruct (heap_of s !! l) as [r|] eqn:Hr; [|done].
          apply Hold in Hr. congruence. }
        apply list_elem_of_lookup in Hl as [k Hk].
        destruct (Forall2_lookup_l _ _ _ _ _ Hall Hk) as (r & Hr & Hlr).
        exists i, entity, rawEvents, r. split; [apply elem_of_app; right; by left|].
        split; [done|]. split; [done|]. split; [by eapply list_elem_of_lookup_2|done].
      * apply ret_Returned in Hstep as [-> ->]. simpl.
        split; [done|]. split; [done|]. split; [by rewrite Hfailed|]. split; [done|].
        intros l Hl. eapply delivered_later; [| |by apply Hdel]; [|done].
        intros ??. apply elem_of_app. by left.
    + apply ret_Returned in Hstep as [-> ->]. simpl.
      split; [done|]. split; [done|]. split; [by rewrite app_nil_r|]. split; [done|].
      intros l Hl. eapply delivered_later; [| |by apply Hdel]; [|done].
      intros ??. apply elem_of_app. by left.
Qed.

(** A run of [getAllEvents]: the settlements, then [processEvents] on the
    events they delivered. *)
Lemma getAllEvents_run (s : State) (failedEvents : list Failed.t)
    (evs : list CalendarEvent) (s' : State) :
  getAllEvents clock RegExp_i engine callApi settled config s
  = Returned (failedEvents, evs) s' →
  ∃ allEvents s1,
    failedEvents = omap (failure_of callApi config (clock (ticks s))) settled
    ∧ ticks s1 = S (ticks s)
    ∧ (∀ p r, heap_of s !! p = Some r → heap_of s1 !! p = Some r)
    ∧ NoDup allEvents
    ∧ (∀ l, l ∈ allEvents →
            delivered callApi config (clock (ticks s)) settled (heap_of s) (heap_of s1) l)
    ∧ processEvents clock RegExp_i engine allEvents config s1 = Returned evs s'.
Proof.
  unfold getAllEvents. intros Hrun.
  apply bind_Returned in Hrun as (t & s0 & [-> ->]%moment_now_Returned & Hrun).
  apply bind_Returned in Hrun as ([allEvents failed] & s1 & Hsettle & Hrun).
  apply bind_Returned in Hrun as (events_ & s2 & Hproc & Hret).
  apply ret_Returned in Hret as [[= <- <-] ->]. simpl in *.
  apply settlements_spec in Hsettle as (Hticks & Hold & Hfailed & Hdup & Hdel).
  simpl in *. exists allEvents, s1.
  split; [done|]. split; [done|]. split; [done|]. split; [done|]. split; [done|]. done.
Qed.
End fetching_facts.

Section fetched_events.
Variable clock : nat → moment.
Variable RegExp_i : string → option (string → bool).
Variable engine : sort_engine.
Variable callApi : nat → string → response.
Variable settled : list nat.
Variable config : Config.

(** Where a returned event comes from: an event of the payload of a request
    that was resolved, tagged and converted, or a stamped copy of such an
    event. *)
Lemma getAllEvents_source (s : State) (failedEvents : list Failed.t)
    (evs : list CalendarEvent) (s' : State) (e : CalendarEvent) :
  getAllEvents clock RegExp_i engine callApi settled config s
  = Returned (failedEvents, evs) s' →
  e ∈ evs →
  ∃ i entity rawEvents r,
    i ∈ settled ∧ entities config !! i = Some entity
    ∧ request_of callApi config (clock (ticks s)) i entity = Resolved rawEvents
    ∧ r ∈ rawEvents
    ∧ heap_of s !! rawEvent e = None
    ∧ (heap_of s' !! rawEvent e = Some (converted config (with_entity r entity))
       ∨ ∃ k, 0 ≤ k < span_days (with_entity r entity)
              ∧ heap_of s' !! rawEvent e
                = Some (occurrence_record (converted config (with_entity r entity)) k)).
Proof.
  intros (allEvents & s1 & _ & _ & Hold & _ & Hdel & Hproc)%getAllEvents_run He.
  assert (Forall (λ l, is_Some (heap_of s1 !! l)) allEvents) as Hvalid.
  { apply Forall_forall. intros l Hl.
    destruct (Hdel _ Hl) as (_ & ? & ? & ? & ? & _ & _ & _ & _ & Hs). by eexists. }
  destruct (processEvents_run _ _ _ _ _ _ _ _ Hvalid Hproc)
    as (newEvents & -> & _ & HF & HS & _).
  apply elem_of_array_sort in He.
  destruct (HS e He) as [(Hin & _)|(Hnew & l & r0 & k & j & Hl & Hr0 & _ & _ & Hk & Hrec & _)].
  - destruct (Hdel _ (uniqueEvents_subset _ _ _ Hin))
      as (Hfresh & i & entity & rawEvents & r & Hi & Hentity & Hreq & Hr & Hs).
    exists i, entity, rawEvents, r. repeat (split; [done|]). left.
    rewrite (HF _ _ Hs). by rewrite bool_decide_eq_true_2.
  - destruct (Hdel _ (uniqueEvents_subset _ _ _ Hl))
      as (_ & i & entity & rawEvents & r & Hi & Hentity & Hreq & Hr & Hs).
    assert (r0 = with_entity r entity) as -> by congruence.
    exists i, entity, rawEvents, r. repeat (split; [done|]). split.
    + destruct (heap_of s !! rawEvent e) as [r'|] eqn:Hr'; [|done].
      apply Hold in Hr'. congruence.
    + right. by exists k.
Qed.
End fetched_events.

(** X22: every event that [getAllEvents] returns comes from the payload of
    a request that was resolved: its record is a new object that has the
    [id], [uid], start, end, title and location of an event of that payload
    and, as [entity], the descriptor the request was made for. *)
Theorem getAllEvents_provenance (clock : nat → moment)
    (RegExp_i : string → option (string → bool)) (engine : sort_engine)
    (callApi : nat → string → response) (settled : list nat) (config : Config)
    (s : State) (failedEvents : list Failed.t) (evs : list CalendarEvent) (s' : State)
    (e : CalendarEvent) :
  getAllEvents clock RegExp_i engine callApi settled config s
  = Returned (failedEvents, evs) s' →
  e ∈ evs →
  heap_of s !! rawEvent e = None
  ∧ ∃ i entity rawEvents r record,
      i ∈ settled ∧ entities config !! i = Some entity
      ∧ request_of callApi config (clock (ticks s)) i entity = Resolved rawEvents
      ∧ r ∈ rawEvents
      ∧ heap_of s' !! rawEvent e = Some record
      ∧ Raw.entity record = Some entity
      ∧ Raw.id record = Raw.id r ∧ Raw.uid record = Raw.uid r
      ∧ Raw.start record = Raw.start r ∧ Raw.end_ record = Raw.end_ r
      ∧ Raw.title record = Raw.title r ∧ Raw.location record = Raw.location r.
Proof.
  intros Hrun He.
  destruct (getAllEvents_source _ _ _ _ _ _ _ _ _ _ _ Hrun He)
    as (i & entity & rawEvents & r & Hi & Hentity & Hreq & Hr & Hnew & Hrec).
  split; [done|]. exists i, entity, rawEvents, r.
  destruct Hrec as [Hrec|(k & _ & Hrec)]; eexists; (repeat (split; [done|])); done.
Qed.

(** X23: every event that [getAllEvents] returns has an [originCalendar]:
    the first configured descriptor that has the [entity] property of the
    descriptor its request was made for, which is that descriptor itself
    when the configured descriptors are told apart by their [entity]
    property. *)
Theorem getAllEvents_originCalendar (clock : nat → moment)
    (RegExp_i : string → option (string → bool)) (engine : sort_engine)
    (callApi : nat → string → response) (settled : list nat) (config : Config)
    (s : State) (failedEvents : list Failed.t) (evs : list CalendarEvent) (s' : State)
    (e : CalendarEvent) :
  getAllEvents clock RegExp_i engine callApi settled config s
  = Returned (failedEvents, evs) s' →
  e ∈ evs →
  ∃ d own,
    Raw.entity (heap_of s' !!! rawEvent e) = Some own
    ∧ originCalendar (heap_of s') e = Some d
    ∧ d ∈ entities config
    ∧ first_like config own = Some d
    ∧ (NoDup (map dot_entity (entities config)) → d = own).
Proof.
  intros Hrun He.
  destruct (getAllEvents_source _ _ _ _ _ _ _ _ _ _ _ Hrun He)
    as (i & entity & rawEvents & r & Hi & Hentity & Hreq & Hr & Hnew & Hrec).
  assert (entity ∈ entities config) as Hin by (by eapply list_elem_of_lookup_2).
  assert (Raw.entity (with_entity r entity) = Some entity) as Hown by done.
  destruct (origin_of config (with_entity r entity)) as [d|] eqn:Hd.
  - exists d, entity. destruct (origin_of_Some _ _ _ Hd) as [Hdin _].
    split.
    { destruct Hrec as [Hrec|(k & _ & Hrec)]; by rewrite (lookup_total_Some _ _ _ Hrec). }
    split; [|split; [done|split; [exact Hd|]]].
    + unfold originCalendar.
      destruct Hrec as [Hrec|(k & _ & Hrec)]; rewrite (lookup_total_Some _ _ _ Hrec);
        simpl; by rewrite Hd.
    + intros Hdup.
      pose proof (origin_of_own config (with_entity r entity) entity Hdup Hown Hin).
      congruence.
  - exfalso.
    by apply (proj1 (origin_of_None config (with_entity r entity) entity Hown) Hd
                entity Hin).
Qed.

(** X24: [failedEvents] lists the requests that were rejected, and only
    those, in the order in which they settled, each under
    [entity.name || calendarEntity] with its error; it does not depend on
    what [processEvents] does with the events. *)
Theorem getAllEvents_failedEvents (clock : nat → moment)
    (RegExp_i : string → option (string → bool)) (engine : sort_engine)
    (callApi : nat → string → response) (settled : list nat) (config : Config)
    (s : State) (failedEvents : list Failed.t) (evs : list CalendarEvent) (s' : State) :
  getAllEvents clock RegExp_i engine callApi settled config s
  = Returned (failedEvents, evs) s' →
  failedEvents = omap (failure_of callApi config (clock (ticks s))) settled.
Proof. by intros (allEvents & s1 & -> & _)%getAllEvents_run. Qed.

(** X25: [getAllEvents] leaves every object that was in the store as it
    was: it writes only to the objects of the payloads and to the copies
    made of them. *)
Theorem getAllEvents_frame (clock : nat → moment)
    (RegExp_i : string → option (string → bool)) (engine : sort_engine)
    (callApi : nat → string → response) (settled : list nat) (config : Config)
    (s : State) (failedEvents : list Failed.t) (evs : list CalendarEvent) (s' : State)
    (p : loc) (r : RawEvent) :
  getAllEvents clock RegExp_i engine callApi settled config s
  = Returned (failedEvents, evs) s' →
  heap_of s !! p = Some r →
  heap_of s' !! p = Some r.
Proof.
  intros (allEvents & s1 & _ & _ & Hold & _ & Hdel & Hproc)%getAllEvents_run Hp.
  assert (Forall (λ l, is_Some (heap_of s1 !! l)) allEvents) as Hvalid.
  { apply Forall_forall. intros l Hl.
    destruct (Hdel _ Hl) as (_ & ? & ? & ? & ? & _ & _ & _ & _ & Hs). by eexists. }
  destruct (processEvents_run _ _ _ _ _ _ _ _ Hvalid Hproc)
    as (newEvents & _ & _ & HF & _).
  rewrite (HF _ _ (Hold _ _ Hp)). rewrite bool_decide_eq_false_2; [done|].
  intros Hin%uniqueEvents_subset. destruct (Hdel _ Hin) as (Hnew & _). congruence.
Qed.

(** X26: a rejected request does not make [getAllEvents] throw: it returns
    as soon as each ignore pattern is empty or compiles, however the
    requests settle. *)
Theorem getAllEvents_returns (clock : nat → moment)
    (RegExp_i : string → option (string → bool)) (engine : sort_engine)
    (callApi : nat → string → response) (settled : list nat) (config : Config)
    (s : State) :
  ignoreEventsExpression config = ""
  ∨ is_Some (RegExp_i (ignoreEventsExpression config)) →
  ignoreEventsByLocationExpression config = ""
  ∨ is_Some (RegExp_i (ignoreEventsByLocationExpression config)) →
  ∃ failedEvents evs s',
    getAllEvents clock RegExp_i engine callApi settled config s
    = Returned (failedEvents, evs) s'.
Proof.
  intros Htitle Hlocation. unfold getAllEvents.
  rewrite (bind_Returned_at (moment_now clock) _ s _ _ eq_refl).
  set (t := clock (ticks s)).
  set (s1 := mkState (heap_of s) (S (ticks s))).
  destruct (returns_reduceM
              (settle callApi config (format_dateFormat (startOf_day t))
                 (format_dateFormat (add_days (startOf_day t) (numberOfDays config))))
              settled ([], [])
              (λ lists i, returns_settle callApi config _ _ lists i) s1)
    as (lists & s2 & Hsettle).
  rewrite (bind_Returned_at _ _ _ _ _ Hsettle).
  apply settlements_spec in Hsettle as (_ & _ & _ & _ & Hdel).
  destruct (processEvents_returns_attributable clock RegExp_i engine config
              Htitle Hlocation lists.1 s2) as (evs & s3 & Hproc).
  { right. apply Forall_forall. intros l Hl.
    destruct (Hdel _ Hl) as (_ & i & entity & rawEvents & r & _ & _ & _ & _ & Hs).
    exists (with_entity r entity). split; [done|]. by eexists. }
  rewrite (bind_Returned_at _ _ _ _ _ Hproc). by exists lists.2, evs, s3.
Qed.

(** What the settlements give when no request delivers an event. *)
Lemma settlements_empty (callApi : nat → string → response) (config : Config)
    (start end_ : string) (settled : list nat) (lists : list loc * list Failed.t)
    (s : State) :
  (∀ i url, callApi i url = Resolved [] ∨ ∃ error, callApi i url = Rejected error) →
  ∃ failedEvents,
    reduceM (settle callApi config start end_) settled lists s
    = Returned (lists.1, failedEvents) s.
Proof.
  intros Hnone. revert lists. induction settled as [|i rest IH]; intros lists; simpl.
  - exists lists.2. by destruct lists.
  - unfold mbind, M_bind.
    assert (∃ failed, settle callApi config start end_ lists i s
                      = Returned (lists.1, failed) s) as (failed & ->).
    { unfold settle. destruct (entities config !! i) as [entity|].
      - destruct (Hnone i (url_of (calendarEntity_of entity) start end_))
          as [->|(error & ->)]; simpl.
        + exists lists.2. unfold mbind, M_bind, mret, M_ret. simpl. by rewrite app_nil_r.
        + by eexists.
      - exists lists.2. by destruct lists. }
    apply (IH (lists.1, failed)).
Qed.

(** X27: when no request delivers an event, each being rejected or resolved
    with an empty payload, [getAllEvents] returns no event and leaves the
    store as it was, whatever the ignore patterns are: no pattern is
    compiled. *)
Theorem getAllEvents_nothing_delivered (clock : nat → moment)
    (RegExp_i : string → option (string → bool)) (engine : sort_engine)
    (callApi : nat → string → response) (settled : list nat) (config : Config)
    (s : State) :
  (∀ i url, callApi i url = Resolved [] ∨ ∃ error, callApi i url = Rejected error) →
  ∃ failedEvents,
    getAllEvents clock RegExp_i engine callApi settled config s
    = Returned (failedEvents, []) (mkState (heap_of s) (S (S (S (ticks s))))).
Proof.
  intros Hnone. unfold getAllEvents, mbind, M_bind, moment_now. simpl.
  destruct (settlements_empty callApi config
              (format_dateFormat (startOf_day (clock (ticks s))))
              (format_dateFormat
                 (add_days (startOf_day (clock (ticks s))) (numberOfDays config)))
              settled ([], []) (mkState (heap_of s) (S (ticks s))) Hnone)
    as (failedEvents & ->).
  exists failedEvents. reflexivity.
Qed.

Lemma getAllEvents_provenance_witness :
  heap_of (mkState Agenda.week 0) !! rawEvent (new_CalendarEvent 4%nat) = None
  ∧ ∃ i entity rawEvents r record,
      i ∈ [2; 1; 0]%nat ∧ entities Fetch.three_calendars !! i = Some entity
      ∧ request_of Fetch.hass Fetch.three_calendars
          (Scenario.morning (ticks (mkState Agenda.week 0))) i entity
        = Resolved rawEvents
      ∧ r ∈ rawEvents
      ∧ heap_of Fetch.final !! rawEvent (new_CalendarEvent 4%nat) = Some record
      ∧ Raw.entity record = Some entity
      ∧ Raw.id record = Raw.id r ∧ Raw.uid record = Raw.uid r
      ∧ Raw.start record = Raw.start r ∧ Raw.end_ record = Raw.end_ r
      ∧ Raw.title record = Raw.title r ∧ Raw.location record = Raw.location r.
Proof.
  apply (getAllEvents_provenance Scenario.morning Scenario.no_match MovesLeftOnNegative
           Fetch.hass [2; 1; 0]%nat Fetch.three_calendars (mkState Agenda.week 0)
           Fetch.failedEvents Fetch.events_ Fetch.final (new_CalendarEvent 4%nat)).
  - vm_compute. reflexivity.
  - apply list_elem_of_In. vm_compute. right. right. left. reflexivity.
Defined.

Lemma getAllEvents_originCalendar_witness :
  ∃ d own,
    Raw.entity (heap_of Fetch.final !!! rawEvent (new_CalendarEvent 8%nat)) = Some own
    ∧ originCalendar (heap_of Fetch.final) (new_CalendarEvent 8%nat) = Some d
    ∧ d ∈ entities Fetch.three_calendars
    ∧ first_like Fetch.three_calendars own = Some d
    ∧ (NoDup (map dot_entity (entities Fetch.three_calendars)) → d = own).
Proof.
  apply (getAllEvents_originCalendar Scenario.morning Scenario.no_match
           MovesLeftOnNegative Fetch.hass [2; 1; 0]%nat Fetch.three_calendars
           (mkState Agenda.week 0) Fetch.failedEvents Fetch.events_ Fetch.final
           (new_CalendarEvent 8%nat)).
  - vm_compute. reflexivity.
  - apply list_elem_of_In. vm_compute. right. right. right. left. reflexivity.
Defined.

Lemma getAllEvents_failedEvents_witness :
  Fetch.failedEvents
  = omap (failure_of Fetch.hass Fetch.three_calendars
            (Scenario.morning (ticks (mkState Agenda.week 0))))
         [2; 1; 0]%nat.
Proof.
  apply (getAllEvents_failedEvents Scenario.morning Scenario.no_match MovesLeftOnNegative
           Fetch.hass [2; 1; 0]%nat Fetch.three_calendars (mkState Agenda.week 0)
           Fetch.failedEvents Fetch.events_ Fetch.final).
  vm_compute. reflexivity.
Defined.

Lemma getAllEvents_frame_witness :
  heap_of Fetch.final !! 0%nat = Some Agenda.standup.
Proof.
  apply (getAllEvents_frame Scenario.morning Scenario.no_match MovesLeftOnNegative
           Fetch.hass [2; 1; 0]%nat Fetch.three_calendars (mkState Agenda.week 0)
           Fetch.failedEvents Fetch.events_ Fetch.final 0%nat Agenda.standup).
  - vm_compute. reflexivity.
  - vm_compute. reflexivity.
Defined.

Lemma getAllEvents_returns_witness :
  ∃ failedEvents evs s',
    getAllEvents Scenario.morning Agenda.never_compiles MovesLeftOnNegative Fetch.hass
                 [2; 1; 0]%nat Fetch.three_calendars (mkState Agenda.week 0)
    = Returned (failedEvents, evs) s'.
Proof.
  apply (getAllEvents_returns Scenario.morning Agenda.never_compiles MovesLeftOnNegative
           Fetch.hass [2; 1; 0]%nat Fetch.three_calendars (mkState Agenda.week 0)).
  - left. reflexivity.
  - left. reflexivity.
Defined.

Lemma getAllEvents_nothing_delivered_witness :
  ∃ failedEvents,
    getAllEvents Scenario.morning Agenda.standup_only MovesLeftOnNegative Fetch.offline
                 [0; 1; 2]%nat Agenda.bad_pattern (mkState Agenda.week 0)
    = Returned (failedEvents, [])
               (mkState (heap_of (mkState Agenda.week 0))
                        (S (S (S (ticks (mkState Agenda.week 0)))))).
Proof.
  apply (getAllEvents_nothing_delivered Scenario.morning Agenda.standup_only
           MovesLeftOnNegative Fetch.offline [0; 1; 2]%nat Agenda.bad_pattern
           (mkState Agenda.week 0)).
  intros i url. right. exists "offline"%string. reflexivity.
Defined.
